(** * neurazor-backend: scoring routes and game submission, verified

    A shallow embedding of the request handlers of
    [src/routes/scoring.routes.js], [src/controllers/games.controller.js]
    and the games router ([POST /api/games/submit]), followed by the
    properties of the scoring specification that concern them.

    Conventions of the embedding.
    - A number that the handlers receive (a weight, a test variable, the
      result of a formula) is a finite double, written as the rational it
      denotes ([Q]); a JSON number too large for a double, which is read
      as an infinity, is not among them.  A number that the handlers
      compute by arithmetic is a [Num]: the product, sum, difference and
      quotient of doubles are the exact results rounded to the nearest
      double, a tie going to the even significand, and [Infinity],
      [-Infinity] and [NaN] are values.  The sign of a zero, which no
      handler can observe, is left out.
    - A JavaScript object used as a mapping is an association list of its
      own properties in property order; the keys of an object are pairwise
      distinct.  Every such object inherits from [Object.prototype].
    - A [throw] is the constructor [Threw] of [Outcome]; the [try]/[catch]
      of a handler turns it into the 500 response.
    - The Supabase client, the formula evaluator and the scoring calculator
      are not part of these files: they are variables of the section in
      which the handlers are defined. *)

From Stdlib Require Import List String Bool Arith ZArith QArith Qround Qminmax Lia Lqa.
From Stdlib Require Import Permutation Sorted Qabs Qpower.
Import ListNotations.
Open Scope string_scope.
Open Scope Q_scope.

Set Implicit Arguments.

(* ------------------------------------------------------------------ *)
(** ** Exceptions *)

Inductive Outcome (A : Type) : Type :=
| Threw (message : string)
| Returned (value : A).
Arguments Threw {A} message.
Arguments Returned {A} value.

Definition obind {A B} (m : Outcome A) (k : A -> Outcome B) : Outcome B :=
  match m with
  | Threw e => Threw e
  | Returned a => k a
  end.

Notation "'try!' x <- m ; k" := (obind m (fun x => k))
  (at level 10, x name, m at level 100, k at level 200).

(** [for (...) { ... push(f(x)) }]: the bodies run in order, the first
    [throw] ends the loop. *)
Fixpoint for_push {A B} (f : A -> Outcome B) (xs : list A) : Outcome (list B) :=
  match xs with
  | [] => Returned []
  | x :: rest =>
      try! y <- f x;
      try! ys <- for_push f rest;
      Returned (y :: ys)
  end.

(* ------------------------------------------------------------------ *)
(** ** Numbers *)

(** A JavaScript number: a finite double, written as the rational it
    denotes, or one of [Infinity], [-Infinity] and [NaN]. *)
Inductive Num : Type :=
| Finite (value : Q)
| PosInf
| NegInf
| NaN.

Coercion Finite : Q >-> Num.

(** The arithmetic of doubles (IEEE 754 binary64, round to nearest, ties
    to even), on the values they denote. *)
Module Double.

(** The greatest [e] with [2 ^ e <= a], for a positive [a]. *)
Definition ilog2 (a : Q) : Z :=
  let e := (Z.log2 (Qnum a) - Z.log2 (Zpos (Qden a)))%Z in
  if Qle_bool (2 ^ e) a then e else (e - 1)%Z.

(** The nearest integer, a tie going to the even one. *)
Definition half_even (m : Q) : Z :=
  let f := Qfloor m in
  match Qcompare (m - inject_Z f) (1 # 2) with
  | Lt => f
  | Gt => (f + 1)%Z
  | Eq => if Z.even f then f else (f + 1)%Z
  end.

(** The double nearest to [q]: a significand of 53 bits, the least
    exponent that of the subnormal numbers ([2 ^ -1074]), and an infinity
    for a result of magnitude [2 ^ 1024] or more. *)
Definition of_Q (q : Q) : Num :=
  if Qeq_bool q 0 then Finite 0
  else
    let a := Qabs q in
    let k := Z.max (ilog2 a - 52) (-1074) in
    let r := inject_Z (half_even (a / 2 ^ k)) * 2 ^ k in
    if Qle_bool (2 ^ 1024) r
    then (if Qle_bool 0 q then PosInf else NegInf)
    else Finite (Qred (if Qle_bool 0 q then r else - r)).

(** [- a]. *)
Definition opp (a : Num) : Num :=
  match a with
  | Finite x => Finite (- x)
  | PosInf => NegInf
  | NegInf => PosInf
  | NaN => NaN
  end.

(** The infinity of the sign of [x], [NaN] for zero: an infinity times
    [x]. *)
Definition infinity_times (positive : bool) (x : Q) : Num :=
  if Qeq_bool x 0 then NaN
  else if Bool.eqb positive (Qle_bool 0 x) then PosInf else NegInf.

(** [a * b]. *)
Definition mul (a b : Num) : Num :=
  match a, b with
  | NaN, _ | _, NaN => NaN
  | Finite x, Finite y => of_Q (x * y)
  | Finite x, PosInf | PosInf, Finite x => infinity_times true x
  | Finite x, NegInf | NegInf, Finite x => infinity_times false x
  | PosInf, PosInf | NegInf, NegInf => PosInf
  | PosInf, NegInf | NegInf, PosInf => NegInf
  end.

(** [a + b]. *)
Definition add (a b : Num) : Num :=
  match a, b with
  | NaN, _ | _, NaN => NaN
  | Finite x, Finite y => of_Q (x + y)
  | PosInf, NegInf | NegInf, PosInf => NaN
  | PosInf, _ | _, PosInf => PosInf
  | NegInf, _ | _, NegInf => NegInf
  end.

(** [a - b]. *)
Definition sub (a b : Num) : Num := add a (opp b).

(** [Math.round(a)]: the nearest integer, a tie going up; it is a double
    whenever [a] is one. *)
Definition math_round (a : Num) : Num :=
  match a with
  | Finite x => Finite (inject_Z (Qfloor (x + (1 # 2))))
  | other => other
  end.

(** [a / 100]. *)
Definition div_100 (a : Num) : Num :=
  match a with
  | Finite x => of_Q (x / 100)
  | other => other
  end.

End Double.

(** [Math.round(x * 100) / 100]. *)
Definition round2 (x : Num) : Num :=
  Double.div_100 (Double.math_round (Double.mul x 100)).

(* ------------------------------------------------------------------ *)
(** ** JavaScript objects and values *)

Module Js.

Definition Obj (V : Type) : Type := list (string * V).

(** The own property [key] of [o]; [None] when [o] has none: then [o[key]]
    is [undefined] or a member inherited from [Object.prototype], and in
    neither case a number or a string. *)
Fixpoint get {V} (key : string) (o : Obj V) : option V :=
  match o with
  | [] => None
  | (k, v) :: rest => if String.eqb key k then Some v else get key rest
  end.

(** The own property [key] of [o] is made [v]: an existing property keeps
    its place, a new one goes last. *)
Fixpoint define_property {V} (key : string) (v : V) (o : Obj V) : Obj V :=
  match o with
  | [] => [(key, v)]
  | (k, v0) :: rest =>
      if String.eqb key k then (k, v) :: rest
      else (k, v0) :: define_property key v rest
  end.

(** The names of the members that an object inherits from
    [Object.prototype]; all of them are truthy, none is a number. *)
Definition inherited (key : string) : bool :=
  existsb (String.eqb key)
          ["constructor"; "__defineGetter__"; "__defineSetter__"; "hasOwnProperty";
           "__lookupGetter__"; "__lookupSetter__"; "isPrototypeOf";
           "propertyIsEnumerable"; "toString"; "valueOf"; "__proto__";
           "toLocaleString"].

(** [o[key] = v] where [o] was made by an object literal and [v] is an
    object.  Under the key [__proto__] the assignment runs the setter that
    [o] inherits: it replaces the prototype of [o] and gives [o] no
    property (the handlers write into such objects and never read from
    them, so the prototype is not kept).  Under any other key it makes the
    own property. *)
Definition set {V} (key : string) (v : V) (o : Obj V) : Obj V :=
  if String.eqb key "__proto__" then o else define_property key v o.

(** The object that the assignments [o[k] = v], one for each of the
    entries and in their order, make of an empty [o]. *)
Definition from_assignments {V} (entries : list (string * V)) : Obj V :=
  fold_left (fun o e => set (fst e) (snd e) o) entries [].

(** The entries whose key is not [__proto__]: what [from_assignments]
    gives when the keys are pairwise distinct. *)
Definition assigned {V} (entries : list (string * V)) : list (string * V) :=
  filter (fun e => negb (String.eqb (fst e) "__proto__")) entries.

Definition keys {V} (o : Obj V) : list string := map fst o.

Definition entries {V} (o : Obj V) : list (string * V) := o.

(** The representation invariant of an object. *)
Definition wf {V} (o : Obj V) : Prop := NoDup (keys o).

(** [for (const key in o)] where [o] may be [undefined]: no iteration
    then. *)
Definition for_in_keys {V} (o : option (Obj V)) : list string :=
  match o with
  | None => []
  | Some o => keys o
  end.

(** [o[key]] where [o] may be [undefined]: a [TypeError] then. *)
Definition prop {V} (o : option (Obj V)) (key : string) : Outcome (option V) :=
  match o with
  | None =>
      Threw ("Cannot read properties of undefined (reading '" ++ key ++ "')")
  | Some o => Returned (get key o)
  end.

(** [a !== b] on numbers that may be [undefined]. *)
Definition neq_num (a b : option Q) : bool :=
  match a, b with
  | Some x, Some y => negb (Qeq_bool x y)
  | None, None => false
  | _, _ => true
  end.

(** [a !== b] on strings that may be [undefined]. *)
Definition neq_str (a b : option string) : bool :=
  match a, b with
  | Some x, Some y => negb (String.eqb x y)
  | None, None => false
  | _, _ => true
  end.

(** [a - b] on numbers that may be [undefined]; then it is [NaN]. *)
Definition sub (a b : option Q) : Num :=
  match a, b with
  | Some x, Some y => Double.sub x y
  | _, _ => NaN
  end.

(** [Math.max(0, Math.min(100, x))]. *)
Definition clamp_0_100 (x : Q) : Q := Qmax 0 (Qmin 100 x).

(** [!s] is false exactly for a present, non-empty string. *)
Definition truthy_str (s : option string) : bool :=
  match s with
  | Some s => negb (String.eqb s "")
  | None => false
  end.

End Js.

(* ------------------------------------------------------------------ *)
(** ** Data of the scoring routes *)

Definition Env : Type := Js.Obj Q.

(** The [config] column of a scoring version. *)
Record Config : Type := {
  competency_formulas : option (Js.Obj string);
  final_weights : option (Js.Obj Q)
}.

(** An entry of [scores] in the preview handlers; the [weight] is [None]
    when it is not a number. *)
Record CompetencyScore : Type := {
  raw : Q;
  weight : option Q;
  weighted : Num
}.

Record ScoreResult : Type := {
  sr_final_score : Num;
  sr_competencies : Js.Obj CompetencyScore
}.

(** An entry of [scores] in the compare handlers. *)
Record VersionScore : Type := {
  vs_raw : Q;
  vs_weight : option Q;
  vs_weighted : Num;
  vs_formula : string
}.

(** An element of [comparisons]. *)
Record Comparison : Type := {
  version_name : string;
  version_id : nat;
  description : string;
  final_score : Num;
  competencies : Js.Obj VersionScore;
  formulas : option (Js.Obj string);
  weights : option (Js.Obj Q)
}.

Record WeightChange : Type := {
  wc_competency : string;
  old_weight : option Q;
  new_weight : option Q;
  change : Num
}.

Record FormulaChange : Type := {
  fc_competency : string;
  old_formula : option string;
  new_formula : option string
}.

Record Diff : Type := {
  from : string;
  to : string;
  score_change : Num;
  weight_changes : list WeightChange;
  formula_changes : list FormulaChange
}.

(* ------------------------------------------------------------------ *)
(** ** [calculateDifferences] (scoring.routes.js) *)

(** The loop [for (const key in v1.weights)]. *)
Fixpoint compare_weights (ks : list string) (w1 w2 : option (Js.Obj Q))
  : Outcome (list WeightChange) :=
  match ks with
  | [] => Returned []
  | key :: rest =>
      try! a <- Js.prop w1 key;
      try! b <- Js.prop w2 key;
      try! more <- compare_weights rest w1 w2;
      if Js.neq_num a b
      then Returned ({| wc_competency := key; old_weight := a; new_weight := b;
                        change := Js.sub b a |} :: more)
      else Returned more
  end.

(** The loop [for (const key in v1.formulas)]. *)
Fixpoint compare_formulas (ks : list string) (f1 f2 : option (Js.Obj string))
  : Outcome (list FormulaChange) :=
  match ks with
  | [] => Returned []
  | key :: rest =>
      try! a <- Js.prop f1 key;
      try! b <- Js.prop f2 key;
      try! more <- compare_formulas rest f1 f2;
      if Js.neq_str a b
      then Returned ({| fc_competency := key; old_formula := a;
                        new_formula := b |} :: more)
      else Returned more
  end.

(** The body of the loop over [i]. *)
Definition diff_pair (v1 v2 : Comparison) : Outcome Diff :=
  try! wc <- compare_weights (Js.for_in_keys (weights v1)) (weights v1) (weights v2);
  try! fc <- compare_formulas (Js.for_in_keys (formulas v1)) (formulas v1) (formulas v2);
  Returned {| from := version_name v1;
              to := version_name v2;
              score_change := Double.sub (final_score v2) (final_score v1);
              weight_changes := wc;
              formula_changes := fc |}.

Definition diff_at (comparisons : list Comparison) (i : nat) : Outcome Diff :=
  match nth_error comparisons (i - 1), nth_error comparisons i with
  | Some v1, Some v2 => diff_pair v1 v2
  | _, _ => Threw "Cannot read properties of undefined (reading 'version_name')"
  end.

(** [for (let i = 1; i < comparisons.length; i++)]. *)
Definition calculateDifferences (comparisons : list Comparison) : Outcome (list Diff) :=
  for_push (diff_at comparisons) (seq 1 (List.length comparisons - 1)).

(* ------------------------------------------------------------------ *)
(** ** The store and the handler monad *)

(** A JSON value, for the telemetry the handlers pass through. *)
Unset Elimination Schemes.
Inductive Json : Type :=
| JNull
| JBool (b : bool)
| JNum (q : Q)
| JStr (s : string)
| JArr (items : list Json)
| JObj (props : list (string * Json)).
Set Elimination Schemes.

(** [!v] is false exactly for a truthy value. *)
Definition truthy_json (v : option Json) : bool :=
  match v with
  | None | Some JNull | Some (JBool false) => false
  | Some (JNum q) => negb (Qeq_bool q 0)
  | Some (JStr s) => negb (String.eqb s "")
  | Some _ => true
  end.

(** A row of [scoring_versions]. *)
Record VersionRow : Type := {
  row_id : nat;
  row_game_type : string;
  row_version_name : string;
  row_description : string;
  row_is_active : bool;
  row_config : Config;
  row_created_by : option string
}.

(** A row of [test_sessions]. *)
Record SessionRow : Type := {
  ses_id : nat;
  ses_user_id : string;
  ses_game_type : string;
  ses_scoring_version_id : nat;
  ses_status : string;
  ses_final_scores : ScoreResult;
  ses_completed_at : string
}.

(** A row of [action_receipts]. *)
Record ReceiptRow : Type := {
  rec_session_id : nat;
  rec_raw_data : Json
}.

(** The three tables, and the next value of the id sequence. *)
Record Store : Type := {
  scoring_versions : list VersionRow;
  test_sessions : list SessionRow;
  action_receipts : list ReceiptRow;
  serial : nat
}.

(** The calls the handlers make on the Supabase client. *)
Inductive StoreCall : Type :=
| SelectActive
| SelectVersions
| RpcNextVersionName
| DeactivateActive
| InsertVersion
| InsertSession
| InsertReceipt.

(** What a handler does besides answering, in the order it does it. *)
Inductive Event : Type :=
| Validated (formula : string)
| Tested (formula : string) (variables : Env)
| Evaluated (formula : string) (test_data : option Env)
| Scored (game_type : string) (config : Config) (raw_data : Json)
| Called (call : StoreCall).

Record Run (A : Type) : Type := {
  outcome : Outcome A;
  store_after : Store;
  emitted : list Event
}.

Definition M (A : Type) : Type := Store -> Run A.

Definition ret {A} (a : A) : M A :=
  fun s => {| outcome := Returned a; store_after := s; emitted := [] |}.

Definition throw {A} (message : string) : M A :=
  fun s => {| outcome := Threw message; store_after := s; emitted := [] |}.

Definition bind {A B} (m : M A) (k : A -> M B) : M B :=
  fun s =>
    match m s with
    | {| outcome := Threw e; store_after := s1; emitted := es |} =>
        {| outcome := Threw e; store_after := s1; emitted := es |}
    | {| outcome := Returned a; store_after := s1; emitted := es |} =>
        match k a s1 with
        | {| outcome := o; store_after := s2; emitted := es' |} =>
            {| outcome := o; store_after := s2; emitted := es ++ es' |}
        end
    end.

Notation "'let!' x <- m ; k" := (bind m (fun x => k))
  (at level 10, x name, m at level 100, k at level 200).

Definition emit (e : Event) : M unit :=
  fun s => {| outcome := Returned tt; store_after := s; emitted := [e] |}.

Definition lift {A} (o : Outcome A) : M A :=
  match o with
  | Threw e => throw e
  | Returned a => ret a
  end.

Definition get_store : M Store :=
  fun s => {| outcome := Returned s; store_after := s; emitted := [] |}.

Definition put_store (s' : Store) : M unit :=
  fun _ => {| outcome := Returned tt; store_after := s'; emitted := [] |}.

(** Responses. *)
Inductive Body : Type :=
| Failure (error : string)
| PreviewData (scores : ScoreResult) (test_variables : Env)
| CompareData (comparisons : list Comparison) (differences : option (list Diff))
              (test_data : option Env)
| SaveData (message : string) (data : VersionRow)
| SubmitData (message : string) (session_id : nat) (version_used : string)
             (scores : ScoreResult).

Record Response : Type := {
  status : nat;
  body : Body
}.

(** [res.status(code).json({ success: false, error })]. *)
Definition fail_with (code : nat) (error : string) : Response :=
  {| status := code; body := Failure error |}.

(** [res.json(data)]. *)
Definition ok (data : Body) : Response := {| status := 200; body := data |}.

(** What a request leaves behind. *)
Record Handled : Type := {
  response : Response;
  store : Store;
  trace : list Event
}.

(** [try { ... } catch (error) { res.status(500).json({ success: false,
    error: error.message }) }]. *)
Definition try_catch (handler : M Response) (s : Store) : Handled :=
  match handler s with
  | {| outcome := o; store_after := s'; emitted := es |} =>
      {| response := match o with
                     | Threw e => fail_with 500 e
                     | Returned resp => resp
                     end;
         store := s';
         trace := es |}
  end.

(** Results of the formula evaluator. *)
Inductive Validation : Type :=
| Valid
| Invalid (error : string).

Inductive TestResponse : Type :=
| TestOk (result : Q)
| TestFailed (error : string).

(** [weights[name] || 0]: the weight that [weights] has under the name; 0
    when it has none and inherits nothing under the name; and, for the
    names of [Object.prototype], the inherited member, which is truthy and
    not a number: [None]. *)
Definition weight_or_0 (weights : Js.Obj Q) (name : string) : option Q :=
  match Js.get name weights with
  | Some w => Some w
  | None => if Js.inherited name then None else Some 0
  end.

(** [rawScore * weight]: [NaN] when the weight is not a number. *)
Definition times (rawScore : Q) (weight : option Q) : Num :=
  match weight with
  | Some w => Double.mul rawScore w
  | None => NaN
  end.

(** [o || {}]. *)
Definition or_empty {V} (o : option (Js.Obj V)) : Js.Obj V :=
  match o with
  | Some o => o
  | None => []
  end.

(** Requests. *)
Record PreviewRequest : Type := {
  pv_game_type : option string;
  pv_formulas : option (Js.Obj string);
  pv_weights : option (Js.Obj Q);
  pv_test_variables : option Env
}.

Record CompareRequest : Type := {
  cmp_game_type : option string;
  cmp_version_ids : option (list nat);
  cmp_test_data : option Env
}.

Record SaveRequest : Type := {
  sv_game_type : option string;
  sv_user_id : option string;
  sv_description : option string;
  sv_config : option Config
}.

Record SubmitRequest : Type := {
  sub_game_type : option string;
  sub_user_id : option string;
  sub_raw_data : option Json
}.

(** The own properties of the [exports] object of scoring.routes.js, which
    is what [this] denotes in the arrow functions of the module: the
    module assigns [module.exports = router] and gives [exports] no
    property. *)
Definition module_this : Js.Obj (list Comparison -> Outcome (list Diff)) := [].

(** [this.name(arg)]. *)
Definition call_method {A B} (this : Js.Obj (A -> Outcome B)) (name : string) (arg : A)
  : Outcome B :=
  match Js.get name this with
  | Some f => f arg
  | None => Threw ("this." ++ name ++ " is not a function")
  end.

(* ------------------------------------------------------------------ *)
(** ** The handlers *)

Section Handlers.

(** [formulaEvaluator.validateFormula], [.testFormula] and [.evaluate];
    the last one reports a failure by throwing. *)
Variable validateFormula : string -> Validation.
Variable testFormula : string -> Env -> TestResponse.
Variable evaluate : string -> option Env -> Outcome Q.

(** [scoringCalculator.calculateScores]; a failure is a [throw]. *)
Variable calculateScores : string -> Config -> Json -> Outcome ScoreResult.

(** The stored procedure [get_next_version_name]. *)
Variable get_next_version_name : Store -> string -> string.

(** [new Date().toISOString()]. *)
Variable now : string.

(** The error, if any, with which the store answers a call; a call
    answered with an error has changed nothing. *)
Variable outage : StoreCall -> option string.

(** *** [POST /api/scoring/preview] and [previewScores] *)

(** The loop over [Object.entries(formulas)]; [inl] is the early
    [return res.json(...)]. *)
Fixpoint preview_loop (entries : list (string * string)) (weights : Js.Obj Q)
    (test_variables : Env) (scores : Js.Obj CompetencyScore) (totalWeighted : Num)
  : M (Response + Js.Obj CompetencyScore * Num) :=
  match entries with
  | [] => ret (inr (scores, totalWeighted))
  | (name, formula) :: rest =>
      let! _ <- emit (Tested formula test_variables);
      match testFormula formula test_variables with
      | TestFailed error =>
          ret (inl {| status := 200;
                      body := Failure ("Formula error in " ++ name ++ ": " ++ error) |})
      | TestOk result =>
          let rawScore := Js.clamp_0_100 result in
          let weight := weight_or_0 weights name in
          let weighted := times rawScore weight in
          preview_loop rest weights test_variables
            (Js.set name {| raw := rawScore; weight := weight; weighted := weighted |}
                    scores)
            (Double.add totalWeighted weighted)
      end
  end.

Definition preview_body (missing : string) (req : PreviewRequest) : M Response :=
  match pv_formulas req, pv_weights req, pv_test_variables req with
  | Some formulas, Some weights, Some test_variables =>
      if Js.truthy_str (pv_game_type req) then
        let! r <- preview_loop (Js.entries formulas) weights test_variables [] 0;
        match r with
        | inl early => ret early
        | inr (scores, totalWeighted) =>
            ret (ok (PreviewData {| sr_final_score := round2 totalWeighted;
                                    sr_competencies := scores |}
                                 test_variables))
        end
      else ret (fail_with 400 missing)
  | _, _, _ => ret (fail_with 400 missing)
  end.

(** scoring.routes.js, [router.post('/preview', ...)]. *)
Definition preview_route (req : PreviewRequest) : Store -> Handled :=
  try_catch (preview_body
    "Missing required fields: game_type, formulas, weights, test_variables" req).

(** games.controller.js, [exports.previewScores]. *)
Definition previewScores (req : PreviewRequest) : Store -> Handled :=
  try_catch (preview_body "Missing required fields" req).

(** *** [POST /api/scoring/compare] and [compareVersions] *)

(** [supabase.from('scoring_versions').select('*').eq('game_type',
    game_type).in('id', version_ids)], followed by
    [if (fetchError) throw fetchError]. *)
Definition fetch_versions (game_type : string) (version_ids : list nat)
  : M (list VersionRow) :=
  let! _ <- emit (Called SelectVersions);
  match outage SelectVersions with
  | Some e => throw e
  | None =>
      let! s <- get_store;
      ret (filter (fun v => String.eqb (row_game_type v) game_type
                            && existsb (Nat.eqb (row_id v)) version_ids)
                  (scoring_versions s))
  end.

(** The loop over [Object.entries(version.config.competency_formulas || {})]. *)
Fixpoint score_formulas (entries : list (string * string))
    (final_weights : option (Js.Obj Q)) (test_data : option Env)
    (scores : Js.Obj VersionScore) (totalWeighted : Num)
  : M (Js.Obj VersionScore * Num) :=
  match entries with
  | [] => ret (scores, totalWeighted)
  | (name, formula) :: rest =>
      let! _ <- emit (Evaluated formula test_data);
      let! result <- lift (evaluate formula test_data);
      let rawScore := Js.clamp_0_100 result in
      match final_weights with
      | None =>
          throw ("Cannot read properties of undefined (reading '" ++ name ++ "')")
      | Some weights =>
          let weight := weight_or_0 weights name in
          let weighted := times rawScore weight in
          score_formulas rest final_weights test_data
            (Js.set name {| vs_raw := rawScore; vs_weight := weight;
                            vs_weighted := weighted; vs_formula := formula |} scores)
            (Double.add totalWeighted weighted)
      end
  end.

(** The body of the loop over [versions]. *)
Definition score_version (test_data : option Env) (version : VersionRow)
  : M Comparison :=
  let cfg := row_config version in
  let! r <- score_formulas (Js.entries (or_empty (competency_formulas cfg)))
              (final_weights cfg) test_data [] 0;
  ret {| version_name := row_version_name version;
         version_id := row_id version;
         description := row_description version;
         final_score := round2 (snd r);
         competencies := fst r;
         formulas := competency_formulas cfg;
         weights := final_weights cfg |}.

Fixpoint score_versions (test_data : option Env) (versions : list VersionRow)
  : M (list Comparison) :=
  match versions with
  | [] => ret []
  | version :: rest =>
      let! c <- score_version test_data version;
      let! cs <- score_versions test_data rest;
      ret (c :: cs)
  end.

(** What both handlers do up to the end of the loop over [versions];
    [inl] is an early [return]. *)
Definition compare_prefix (req : CompareRequest) : M (Response + list Comparison) :=
  match cmp_version_ids req with
  | Some version_ids =>
      if Js.truthy_str (cmp_game_type req) && (2 <=? List.length version_ids)%nat then
        let game_type := match cmp_game_type req with Some g => g | None => "" end in
        let! versions <- fetch_versions game_type version_ids;
        if (List.length versions <? 2)%nat
        then ret (inl (fail_with 404 "Could not find all specified versions"))
        else
          let! comparisons <- score_versions (cmp_test_data req) versions;
          ret (inr comparisons)
      else ret (inl (fail_with 400 "Need at least 2 version IDs to compare"))
  | None => ret (inl (fail_with 400 "Need at least 2 version IDs to compare"))
  end.

(** scoring.routes.js, [router.post('/compare', ...)]. *)
Definition compare_route (req : CompareRequest) : Store -> Handled :=
  try_catch (
    let! r <- compare_prefix req;
    match r with
    | inl early => ret early
    | inr comparisons =>
        let! differences <- lift (call_method module_this "calculateDifferences"
                                              comparisons);
        ret (ok (CompareData comparisons (Some differences) (cmp_test_data req)))
    end).

(** games.controller.js, [exports.compareVersions]. *)
Definition compareVersions (req : CompareRequest) : Store -> Handled :=
  try_catch (
    let! r <- compare_prefix req;
    match r with
    | inl early => ret early
    | inr comparisons =>
        ret (ok (CompareData comparisons None (cmp_test_data req)))
    end).

(** *** [POST /api/scoring/save] *)

(** The loop "Validate all formulas"; [Some] is the early [return]. *)
Fixpoint validate_loop (entries : list (string * string)) : M (option Response) :=
  match entries with
  | [] => ret None
  | (name, formula) :: rest =>
      let! _ <- emit (Validated formula);
      match validateFormula formula with
      | Invalid error =>
          ret (Some (fail_with 400 ("Invalid formula for " ++ name ++ ": " ++ error)))
      | Valid => validate_loop rest
      end
  end.

(** [.update({ is_active: false }).eq('game_type', game_type)
    .eq('is_active', true)] on the rows. *)
Definition deactivate (game_type : string) (rows : list VersionRow) : list VersionRow :=
  map (fun v =>
         if String.eqb (row_game_type v) game_type && row_is_active v
         then {| row_id := row_id v; row_game_type := row_game_type v;
                 row_version_name := row_version_name v;
                 row_description := row_description v;
                 row_is_active := false;
                 row_config := row_config v;
                 row_created_by := row_created_by v |}
         else v)
      rows.

(** The update of the save handler; its answer is not looked at. *)
Definition deactivate_active (game_type : string) : M unit :=
  let! _ <- emit (Called DeactivateActive);
  match outage DeactivateActive with
  | Some _ => ret tt
  | None =>
      let! s <- get_store;
      put_store {| scoring_versions := deactivate game_type (scoring_versions s);
                   test_sessions := test_sessions s;
                   action_receipts := action_receipts s;
                   serial := serial s |}
  end.

(** [.insert({...}).select().single()], followed by
    [if (insertError) throw insertError]. *)
Definition insert_version (game_type versionName : string)
    (description : option string) (config : Config) (user_id : option string)
  : M VersionRow :=
  let! _ <- emit (Called InsertVersion);
  match outage InsertVersion with
  | Some e => throw e
  | None =>
      let! s <- get_store;
      let newVersion :=
        {| row_id := serial s;
           row_game_type := game_type;
           row_version_name := versionName;
           row_description :=
             (if Js.truthy_str description
              then match description with Some d => d | None => "" end
              else "Version " ++ versionName);
           row_is_active := true;
           row_config := config;
           row_created_by := user_id |} in
      let! _ <- put_store {| scoring_versions := scoring_versions s ++ [newVersion];
                             test_sessions := test_sessions s;
                             action_receipts := action_receipts s;
                             serial := S (serial s) |};
      ret newVersion
  end.

(** [supabase.rpc('get_next_version_name', ...)], followed by
    [if (versionError) throw versionError]. *)
Definition next_version_name (game_type : string) : M string :=
  let! _ <- emit (Called RpcNextVersionName);
  match outage RpcNextVersionName with
  | Some e => throw e
  | None =>
      let! s <- get_store;
      ret (get_next_version_name s game_type)
  end.

(** scoring.routes.js, [router.post('/save', ...)]. *)
Definition save_route (req : SaveRequest) : Store -> Handled :=
  try_catch (
    match sv_game_type req, sv_config req with
    | Some game_type, Some config =>
        if Js.truthy_str (sv_game_type req) then
          let! invalid <- validate_loop
                            (Js.entries (or_empty (competency_formulas config)));
          match invalid with
          | Some early => ret early
          | None =>
              let! versionName <- next_version_name game_type;
              let! _ <- deactivate_active game_type;
              let! newVersion <- insert_version game_type versionName
                                   (sv_description req) config (sv_user_id req);
              ret (ok (SaveData ("Saved as " ++ versionName) newVersion))
          end
        else ret (fail_with 400 "Missing required fields: game_type, config")
    | _, _ => ret (fail_with 400 "Missing required fields: game_type, config")
    end).

(** *** [POST /api/games/submit] and [submitGame] *)

(** [.single()]: the row when there is exactly one. *)
Definition single {A} (rows : list A) : option A :=
  match rows with
  | [r] => Some r
  | _ => None
  end.

(** [.select('*').eq('game_type', game_type).eq('is_active', true)
    .single()]; [None] stands for [configError || !config]. *)
Definition select_active (game_type : string) : M (option VersionRow) :=
  let! _ <- emit (Called SelectActive);
  match outage SelectActive with
  | Some _ => ret None
  | None =>
      let! s <- get_store;
      ret (single (filter (fun v => String.eqb (row_game_type v) game_type
                                    && row_is_active v)
                          (scoring_versions s)))
  end.

(** The insert into [test_sessions], followed by
    [if (sessionError) throw sessionError]. *)
Definition insert_session (user_id game_type : string) (config : VersionRow)
    (scores : ScoreResult) : M SessionRow :=
  let! _ <- emit (Called InsertSession);
  match outage InsertSession with
  | Some e => throw e
  | None =>
      let! s <- get_store;
      let session :=
        {| ses_id := serial s;
           ses_user_id := user_id;
           ses_game_type := game_type;
           ses_scoring_version_id := row_id config;
           ses_status := "completed";
           ses_final_scores := scores;
           ses_completed_at := now |} in
      let! _ <- put_store {| scoring_versions := scoring_versions s;
                             test_sessions := test_sessions s ++ [session];
                             action_receipts := action_receipts s;
                             serial := S (serial s) |};
      ret session
  end.

(** The insert into [action_receipts], followed by
    [if (receiptError) throw receiptError]. *)
Definition insert_receipt (session : SessionRow) (raw_data : Json) : M unit :=
  let! _ <- emit (Called InsertReceipt);
  match outage InsertReceipt with
  | Some e => throw e
  | None =>
      let! s <- get_store;
      put_store {| scoring_versions := scoring_versions s;
                   test_sessions := test_sessions s;
                   action_receipts :=
                     action_receipts s ++ [{| rec_session_id := ses_id session;
                                              rec_raw_data := raw_data |}];
                   serial := serial s |}
  end.

(** The two submit handlers differ in what they print only. *)
Definition submit_body (req : SubmitRequest) : M Response :=
  match sub_game_type req, sub_user_id req, sub_raw_data req with
  | Some game_type, Some user_id, Some raw_data =>
      if Js.truthy_str (sub_game_type req) && Js.truthy_str (sub_user_id req)
         && truthy_json (sub_raw_data req)
      then
        let! found <- select_active game_type;
        match found with
        | None =>
            ret (fail_with 404
                   ("No active scoring configuration found for " ++ game_type))
        | Some config =>
            let! _ <- emit (Scored game_type (row_config config) raw_data);
            let! scores <- lift (calculateScores game_type (row_config config) raw_data);
            let! session <- insert_session user_id game_type config scores;
            let! _ <- insert_receipt session raw_data;
            ret (ok (SubmitData "Game submitted successfully" (ses_id session)
                                (row_version_name config) scores))
        end
      else ret (fail_with 400 "Missing required fields: game_type, user_id, raw_data")
  | _, _, _ =>
      ret (fail_with 400 "Missing required fields: game_type, user_id, raw_data")
  end.

(** The games router, [router.post('/submit', ...)]. *)
Definition submit_route (req : SubmitRequest) : Store -> Handled :=
  try_catch (submit_body req).

(** games.controller.js, [exports.submitGame]. *)
Definition submitGame (req : SubmitRequest) : Store -> Handled :=
  try_catch (submit_body req).

End Handlers.

(* ------------------------------------------------------------------ *)
(** ** Stand-ins for the absent services, for the examples *)

Module Demo.

(** An evaluator that knows the variable [accuracy] and two constants. *)
Definition evaluate (formula : string) (test_data : option Env) : Outcome Q :=
  if String.eqb formula "accuracy" then
    match test_data with
    | Some env =>
        match Js.get "accuracy" env with
        | Some v => Returned v
        | None => Threw "Undefined variable: accuracy"
        end
    | None => Threw "Undefined variable: accuracy"
    end
  else if String.eqb formula "250" then Returned 250
  else if String.eqb formula "0 - 40" then Returned (- (40))
  else Threw ("Cannot parse: " ++ formula).

Definition testFormula (formula : string) (variables : Env) : TestResponse :=
  match evaluate formula (Some variables) with
  | Returned v => TestOk v
  | Threw e => TestFailed e
  end.

Definition validateFormula (formula : string) : Validation :=
  match evaluate formula (Some [("accuracy", 0)]) with
  | Returned _ => Valid
  | Threw e => Invalid e
  end.

(** A calculator that scores one competency, [accuracy], from the
    telemetry field of that name and fails on anything else. *)
Definition calculateScores (game_type : string) (cfg : Config) (raw_data : Json)
  : Outcome ScoreResult :=
  match raw_data with
  | JObj [("accuracy", JNum a)] =>
      Returned {| sr_final_score := round2 (Js.clamp_0_100 a);
                  sr_competencies :=
                    [("accuracy", {| raw := Js.clamp_0_100 a; weight := Some 1;
                                     weighted := times (Js.clamp_0_100 a) (Some 1) |})] |}
  | _ => Threw "Formula error in accuracy: Undefined variable: accuracy"
  end.

Definition get_next_version_name (s : Store) (game_type : string) : string :=
  match List.length (filter (fun v => String.eqb (row_game_type v) game_type)
                            (scoring_versions s)) with
  | O => "V1"
  | 1%nat => "V2"
  | _ => "V3"
  end.

Definition no_outage (c : StoreCall) : option string := None.

Definition cfg_a : Config :=
  {| competency_formulas := Some [("accuracy", "accuracy")];
     final_weights := Some [("accuracy", 1 # 2)] |}.

(** [cfg_a] with one more weight, [focus]. *)
Definition cfg_b : Config :=
  {| competency_formulas := Some [("accuracy", "accuracy")];
     final_weights := Some [("accuracy", 1 # 2); ("focus", 1 # 2)] |}.

Definition version (id : nat) (name : string) (active : bool) (cfg : Config)
  : VersionRow :=
  {| row_id := id; row_game_type := "memory"; row_version_name := name;
     row_description := "Version " ++ name; row_is_active := active;
     row_config := cfg; row_created_by := None |}.

Definition store_ab : Store :=
  {| scoring_versions := [version 1 "V1" false cfg_a; version 2 "V2" true cfg_b];
     test_sessions := [];
     action_receipts := [];
     serial := 3 |}.

(** Two versions with the same configuration. *)
Definition store_aa : Store :=
  {| scoring_versions := [version 1 "V1" false cfg_a; version 2 "V2" true cfg_a];
     test_sessions := [];
     action_receipts := [];
     serial := 3 |}.

(** Versions whose formulas use no variable. *)
Definition cfg_const (formula : string) : Config :=
  {| competency_formulas := Some [("focus", formula)];
     final_weights := Some [("focus", 1 # 2)] |}.

Definition store_const : Store :=
  {| scoring_versions := [version 1 "V1" false (cfg_const "250");
                          version 2 "V2" true (cfg_const "0 - 40")];
     test_sessions := [];
     action_receipts := [];
     serial := 3 |}.

(** A configuration whose only competency bears the name of a member of
    [Object.prototype] and has no weight. *)
Definition cfg_unweighted : Config :=
  {| competency_formulas := Some [("constructor", "accuracy")];
     final_weights := Some [] |}.

(** Two versions with that configuration. *)
Definition store_unweighted : Store :=
  {| scoring_versions := [version 1 "V1" false cfg_unweighted;
                          version 2 "V2" true cfg_unweighted];
     test_sessions := [];
     action_receipts := [];
     serial := 3 |}.

Definition compare_12 (test_data : option Env) : CompareRequest :=
  {| cmp_game_type := Some "memory";
     cmp_version_ids := Some [1%nat; 2%nat];
     cmp_test_data := test_data |}.

Definition comparison (name : string) (id : nat) (score : Q) (cfg : Config)
  : Comparison :=
  {| version_name := name; version_id := id; description := "Version " ++ name;
     final_score := score; competencies := [];
     formulas := competency_formulas cfg; weights := final_weights cfg |}.

End Demo.

(* ------------------------------------------------------------------ *)
(** ** Vocabulary of the statements *)

(** What [totalWeighted] is after [totalWeighted += w] for each [w] of
    the list, in order, starting from 0. *)
Definition total_of (ws : list Num) : Num := fold_left Double.add ws 0.

(** [r] is [x] rounded to two decimal places, a tie going up: [r] is a
    whole number of hundredths and [x] lies in the half-open interval of
    width one hundredth centred on it, lower end included. *)
Definition rounds_half_up_2dp (x r : Q) : Prop :=
  (exists n : Z, r == inject_Z n / 100) /\
  r - (1 # 200) <= x /\ x < r + (1 # 200).

(** Every [raw] of a list of comparisons. *)
Definition raws_of_comparisons (comparisons : list Comparison) : list Q :=
  flat_map (fun c => map (fun kv => vs_raw (snd kv)) (competencies c)) comparisons.

(** Every [raw] that a response carries. *)
Definition raws_of (r : Response) : list Q :=
  match body r with
  | PreviewData scores _ => map (fun kv => raw (snd kv)) (sr_competencies scores)
  | CompareData comparisons _ _ => raws_of_comparisons comparisons
  | SubmitData _ _ _ scores => map (fun kv => raw (snd kv)) (sr_competencies scores)
  | _ => []
  end.

(** The store calls among the events of a request, in order. *)
Definition store_calls (events : list Event) : list StoreCall :=
  flat_map (fun e => match e with Called c => [c] | _ => [] end) events.

(** The formulas evaluated during a request, each with the environment it
    was evaluated in, in order. *)
Definition evaluations (events : list Event) : list (string * option Env) :=
  flat_map (fun e => match e with Evaluated f d => [(f, d)] | _ => [] end) events.

(** The formulas of a stored version, as the compare loop walks them. *)
Definition version_entries (v : VersionRow) : list (string * string) :=
  Js.entries (or_empty (competency_formulas (row_config v))).

(** The rows the compare handlers fetch. *)
Definition found_versions (game_type : string) (version_ids : list nat) (s : Store)
  : list VersionRow :=
  filter (fun v => String.eqb (row_game_type v) game_type
                   && existsb (Nat.eqb (row_id v)) version_ids)
         (scoring_versions s).

(** The claim that a compare request was answered with structural diffs
    only: nothing was evaluated, and the answer carries the diffs and no
    score. *)
Definition structural_only (h : Handled) : Prop :=
  evaluations (trace h) = [] /\
  exists comparisons differences test_data,
    body (response h) = CompareData comparisons (Some differences) test_data /\
    Forall (fun c => competencies c = []) comparisons.

(** The active versions of a game type. *)
Definition active_versions (game_type : string) (s : Store) : list VersionRow :=
  filter (fun v => String.eqb (row_game_type v) game_type && row_is_active v)
         (scoring_versions s).

(** The store after the update of the save handler. *)
Definition after_deactivation (outage : StoreCall -> option string) (game_type : string)
    (s : Store) : Store :=
  match outage DeactivateActive with
  | Some _ => s
  | None =>
      {| scoring_versions := deactivate game_type (scoring_versions s);
         test_sessions := test_sessions s;
         action_receipts := action_receipts s;
         serial := serial s |}
  end.

(** The row the save handler inserts. *)
Definition new_version (s : Store) (game_type versionName : string) (req : SaveRequest)
    (config : Config) : VersionRow :=
  {| row_id := serial s;
     row_game_type := game_type;
     row_version_name := versionName;
     row_description :=
       (if Js.truthy_str (sv_description req)
        then match sv_description req with Some d => d | None => "" end
        else "Version " ++ versionName);
     row_is_active := true;
     row_config := config;
     row_created_by := sv_user_id req |}.

Definition with_version (s : Store) (row : VersionRow) : Store :=
  {| scoring_versions := scoring_versions s ++ [row];
     test_sessions := test_sessions s;
     action_receipts := action_receipts s;
     serial := S (serial s) |}.

(** The runs of the save handler, case by case. *)
Inductive save_run (validateFormula : string -> Validation)
    (get_next_version_name : Store -> string -> string)
    (outage : StoreCall -> option string) (req : SaveRequest) (s : Store)
  : Handled -> Prop :=
| save_missing :
    Js.truthy_str (sv_game_type req) = false \/ sv_config req = None ->
    save_run validateFormula get_next_version_name outage req s
      {| response := fail_with 400 "Missing required fields: game_type, config";
         store := s; trace := [] |}
| save_invalid game_type config pre name formula error post :
    sv_game_type req = Some game_type -> sv_config req = Some config ->
    Js.entries (or_empty (competency_formulas config))
      = (pre ++ (name, formula) :: post)%list ->
    Forall (fun e => validateFormula (snd e) = Valid) pre ->
    validateFormula formula = Invalid error ->
    save_run validateFormula get_next_version_name outage req s
      {| response := fail_with 400 ("Invalid formula for " ++ name ++ ": " ++ error);
         store := s;
         trace := map (fun e => Validated (snd e)) (pre ++ [(name, formula)]) |}
| save_rpc_failed game_type config e :
    sv_game_type req = Some game_type -> sv_config req = Some config ->
    Forall (fun e => validateFormula (snd e) = Valid)
           (Js.entries (or_empty (competency_formulas config))) ->
    outage RpcNextVersionName = Some e ->
    save_run validateFormula get_next_version_name outage req s
      {| response := fail_with 500 e;
         store := s;
         trace := (map (fun e => Validated (snd e))
                       (Js.entries (or_empty (competency_formulas config)))
                   ++ [Called RpcNextVersionName])%list |}
| save_insert_failed game_type config e :
    sv_game_type req = Some game_type -> sv_config req = Some config ->
    Forall (fun e => validateFormula (snd e) = Valid)
           (Js.entries (or_empty (competency_formulas config))) ->
    outage RpcNextVersionName = None ->
    outage InsertVersion = Some e ->
    save_run validateFormula get_next_version_name outage req s
      {| response := fail_with 500 e;
         store := after_deactivation outage game_type s;
         trace := (map (fun e => Validated (snd e))
                       (Js.entries (or_empty (competency_formulas config)))
                   ++ [Called RpcNextVersionName; Called DeactivateActive;
                       Called InsertVersion])%list |}
| save_done game_type config :
    sv_game_type req = Some game_type -> sv_config req = Some config ->
    Forall (fun e => validateFormula (snd e) = Valid)
           (Js.entries (or_empty (competency_formulas config))) ->
    outage RpcNextVersionName = None ->
    outage InsertVersion = None ->
    let versionName := get_next_version_name s game_type in
    let s1 := after_deactivation outage game_type s in
    let row := new_version s1 game_type versionName req config in
    save_run validateFormula get_next_version_name outage req s
      {| response := ok (SaveData ("Saved as " ++ versionName) row);
         store := with_version s1 row;
         trace := (map (fun e => Validated (snd e))
                       (Js.entries (or_empty (competency_formulas config)))
                   ++ [Called RpcNextVersionName; Called DeactivateActive;
                       Called InsertVersion])%list |}.

(** The session row the submit handlers insert. *)
Definition new_session (now : string) (s : Store) (user_id game_type : string)
    (config : VersionRow) (scores : ScoreResult) : SessionRow :=
  {| ses_id := serial s;
     ses_user_id := user_id;
     ses_game_type := game_type;
     ses_scoring_version_id := row_id config;
     ses_status := "completed";
     ses_final_scores := scores;
     ses_completed_at := now |}.

Definition with_session (s : Store) (session : SessionRow) : Store :=
  {| scoring_versions := scoring_versions s;
     test_sessions := test_sessions s ++ [session];
     action_receipts := action_receipts s;
     serial := S (serial s) |}.

Definition with_receipt (s : Store) (receipt : ReceiptRow) : Store :=
  {| scoring_versions := scoring_versions s;
     test_sessions := test_sessions s;
     action_receipts := action_receipts s ++ [receipt];
     serial := serial s |}.

(** The runs of a submit handler, case by case. *)
Inductive submit_run
    (calculateScores : string -> Config -> Json -> Outcome ScoreResult)
    (now : string) (outage : StoreCall -> option string)
    (req : SubmitRequest) (s : Store)
  : Handled -> Prop :=
| submit_missing :
    submit_run calculateScores now outage req s
      {| response := fail_with 400 "Missing required fields: game_type, user_id, raw_data";
         store := s; trace := [] |}
| submit_no_config game_type :
    sub_game_type req = Some game_type ->
    submit_run calculateScores now outage req s
      {| response := fail_with 404
                       ("No active scoring configuration found for " ++ game_type);
         store := s; trace := [Called SelectActive] |}
| submit_scoring_failed game_type user_id raw_data config e :
    sub_game_type req = Some game_type -> sub_user_id req = Some user_id ->
    sub_raw_data req = Some raw_data ->
    single (active_versions game_type s) = Some config ->
    calculateScores game_type (row_config config) raw_data = Threw e ->
    submit_run calculateScores now outage req s
      {| response := fail_with 500 e;
         store := s;
         trace := [Called SelectActive; Scored game_type (row_config config) raw_data] |}
| submit_session_failed game_type user_id raw_data config scores e :
    sub_game_type req = Some game_type -> sub_user_id req = Some user_id ->
    sub_raw_data req = Some raw_data ->
    single (active_versions game_type s) = Some config ->
    calculateScores game_type (row_config config) raw_data = Returned scores ->
    outage InsertSession = Some e ->
    submit_run calculateScores now outage req s
      {| response := fail_with 500 e;
         store := s;
         trace := [Called SelectActive; Scored game_type (row_config config) raw_data;
                   Called InsertSession] |}
| submit_receipt_failed game_type user_id raw_data config scores e :
    sub_game_type req = Some game_type -> sub_user_id req = Some user_id ->
    sub_raw_data req = Some raw_data ->
    single (active_versions game_type s) = Some config ->
    calculateScores game_type (row_config config) raw_data = Returned scores ->
    outage InsertSession = None ->
    outage InsertReceipt = Some e ->
    submit_run calculateScores now outage req s
      {| response := fail_with 500 e;
         store := with_session s (new_session now s user_id game_type config scores);
         trace := [Called SelectActive; Scored game_type (row_config config) raw_data;
                   Called InsertSession; Called InsertReceipt] |}
| submit_done game_type user_id raw_data config scores :
    sub_game_type req = Some game_type -> sub_user_id req = Some user_id ->
    sub_raw_data req = Some raw_data ->
    single (active_versions game_type s) = Some config ->
    calculateScores game_type (row_config config) raw_data = Returned scores ->
    outage InsertSession = None ->
    outage InsertReceipt = None ->
    let session := new_session now s user_id game_type config scores in
    submit_run calculateScores now outage req s
      {| response := ok (SubmitData "Game submitted successfully" (ses_id session)
                                    (row_version_name config) scores);
         store := with_receipt (with_session s session)
                    {| rec_session_id := ses_id session; rec_raw_data := raw_data |};
         trace := [Called SelectActive; Scored game_type (row_config config) raw_data;
                   Called InsertSession; Called InsertReceipt] |}.

(* ------------------------------------------------------------------ *)
(** ** The other handlers *)

(** An error of the Supabase client: [{ code, message }]. *)
Record StoreError : Type := {
  err_code : string;
  err_message : string
}.

(** The error with which [.single()] answers when the rows are not
    exactly one. *)
Definition not_single : StoreError :=
  {| err_code := "PGRST116";
     err_message := "JSON object requested, multiple (or no) rows returned" |}.

(** The calls of the handlers below on the Supabase client. *)
Inductive Query : Type :=
| DeactivateAll
| ActivateNamed
| GetActive
| ListVersions
| ListResults.

(** [res.status(code).json({ success: false, error })], or
    [res.json({ success: true, ... })]. *)
Inductive Reply (D : Type) : Type :=
| Refused (code : nat) (error : string)
| Answered (data : D).
Arguments Refused {D} code error.
Arguments Answered {D} data.

Record Served (D : Type) : Type := {
  reply : Reply D;
  store_left : Store;
  events : list Event
}.

(** The [try]/[catch] of these handlers. *)
Definition serve {D} (handler : M (Reply D)) (s : Store) : Served D :=
  match handler s with
  | {| outcome := o; store_after := s'; emitted := es |} =>
      {| reply := match o with
                  | Threw e => Refused 500 e
                  | Returned r => r
                  end;
         store_left := s';
         events := es |}
  end.

Record ValidateRequest : Type := {
  vf_formula : option string;
  vf_test_variables : option Env
}.

(** [{ valid: false, error }], or [{ valid: true, variables, test_result }]
    where [test_result] may be [null]. *)
Inductive Verdict : Type :=
| NotValid (error : string)
| IsValid (variables : list string) (test_result : option Q).

Record SetActiveRequest : Type := {
  sa_game_type : option string;
  sa_version_name : option string
}.

(** [{ message, data }] of the set-active route. *)
Record Activated : Type := {
  act_message : string;
  act_data : VersionRow
}.

(** A row of the results route: the session and the embedded
    [scoring_version (version_name, description)], [null] when the session
    refers to no stored version. *)
Record ResultRow : Type := {
  res_session : SessionRow;
  res_scoring_version : option (string * string)
}.

(** A version with its [is_active] column set. *)
Definition with_active (b : bool) (v : VersionRow) : VersionRow :=
  {| row_id := row_id v;
     row_game_type := row_game_type v;
     row_version_name := row_version_name v;
     row_description := row_description v;
     row_is_active := b;
     row_config := row_config v;
     row_created_by := row_created_by v |}.

(** [.update({ is_active: false }).eq('game_type', game_type)] on the rows. *)
Definition deactivate_all (game_type : string) (rows : list VersionRow)
  : list VersionRow :=
  map (fun v => if String.eqb (row_game_type v) game_type
                then with_active false v else v)
      rows.

(** The rows that [.eq('game_type', game_type).eq('version_name',
    version_name)] selects. *)
Definition named (game_type version_name : string) (v : VersionRow) : bool :=
  String.eqb (row_game_type v) game_type
  && String.eqb (row_version_name v) version_name.

(** [.update({ is_active: true })] on the selected rows. *)
Definition activate (game_type version_name : string) (rows : list VersionRow)
  : list VersionRow :=
  map (fun v => if named game_type version_name v then with_active true v else v)
      rows.

Definition with_versions (s : Store) (rows : list VersionRow) : Store :=
  {| scoring_versions := rows;
     test_sessions := test_sessions s;
     action_receipts := action_receipts s;
     serial := serial s |}.

(** [.order(column, { ascending: false })]: the rows with the greatest
    value of the column first. *)
Fixpoint insert_desc {A} (key : A -> nat) (x : A) (l : list A) : list A :=
  match l with
  | [] => [x]
  | y :: rest =>
      if (key y <=? key x)%nat then x :: y :: rest
      else y :: insert_desc key x rest
  end.

Fixpoint order_desc {A} (key : A -> nat) (l : list A) : list A :=
  match l with
  | [] => []
  | x :: rest => insert_desc key x (order_desc key rest)
  end.

Section OtherHandlers.

(** [formulaEvaluator.validateFormula], [.testFormula] and
    [.getFormulaVariables]. *)
Variable validateFormula : string -> Validation.
Variable testFormula : string -> Env -> TestResponse.
Variable getFormulaVariables : string -> list string.

(** The error, if any, with which the store answers a call; a call
    answered with an error has changed nothing. *)
Variable fault : Query -> option StoreError.

(** The column [created_at] of the two tables, which the rows above do
    not carry. *)
Variable version_created_at : VersionRow -> nat.
Variable session_created_at : SessionRow -> nat.

(** *** [POST /api/scoring/validate-formula] and [validateFormula] *)

Definition validate_formula_body (req : ValidateRequest) : M (Reply Verdict) :=
  match vf_formula req with
  | Some formula =>
      if Js.truthy_str (vf_formula req) then
        let! _ <- emit (Validated formula);
        match validateFormula formula with
        | Invalid error => ret (Answered (NotValid error))
        | Valid =>
            match vf_test_variables req with
            | Some test_variables =>
                let! _ <- emit (Tested formula test_variables);
                match testFormula formula test_variables with
                | TestFailed error => ret (Answered (NotValid error))
                | TestOk result =>
                    ret (Answered (IsValid (getFormulaVariables formula) (Some result)))
                end
            | None => ret (Answered (IsValid (getFormulaVariables formula) None))
            end
        end
      else ret (Refused 400 "Formula is required")
  | None => ret (Refused 400 "Formula is required")
  end.

(** scoring.routes.js, [router.post('/validate-formula', ...)]. *)
Definition validate_formula_route (req : ValidateRequest) : Store -> Served Verdict :=
  serve (validate_formula_body req).

(** games.controller.js, [exports.validateFormula]. *)
Definition validateFormula_handler (req : ValidateRequest) : Store -> Served Verdict :=
  serve (validate_formula_body req).

(** *** [POST /api/scoring/set-active] *)

(** The first update of the handler; its answer is not looked at. *)
Definition deactivate_versions (game_type : string) : M unit :=
  match fault DeactivateAll with
  | Some _ => ret tt
  | None =>
      let! s <- get_store;
      put_store (with_versions s (deactivate_all game_type (scoring_versions s)))
  end.

(** The second update, with [.select().single()], followed by
    [if (error) throw error]. *)
Definition activate_version (game_type version_name : string) : M VersionRow :=
  match fault ActivateNamed with
  | Some e => throw (err_message e)
  | None =>
      let! s <- get_store;
      match filter (named game_type version_name) (scoring_versions s) with
      | [v] =>
          let! _ <- put_store (with_versions s
                                 (activate game_type version_name (scoring_versions s)));
          ret (with_active true v)
      | _ => throw (err_message not_single)
      end
  end.

(** scoring.routes.js, [router.post('/set-active', ...)]. *)
Definition set_active_route (req : SetActiveRequest) : Store -> Served Activated :=
  serve (
    match sa_game_type req, sa_version_name req with
    | Some game_type, Some version_name =>
        if Js.truthy_str (sa_game_type req) && Js.truthy_str (sa_version_name req) then
          let! _ <- deactivate_versions game_type;
          let! data <- activate_version game_type version_name;
          ret (Answered {| act_message := version_name ++ " is now active";
                           act_data := data |})
        else ret (Refused 400 "Missing required fields: game_type, version_name")
    | _, _ => ret (Refused 400 "Missing required fields: game_type, version_name")
    end).

(** *** [GET /api/scoring/active/:gameType] *)

(** The select with [.eq('is_active', true).single()]. *)
Definition query_active (gameType : string) (s : Store) : StoreError + VersionRow :=
  match fault GetActive with
  | Some e => inl e
  | None =>
      match single (active_versions gameType s) with
      | Some row => inr row
      | None => inl not_single
      end
  end.

(** scoring.routes.js, [router.get('/active/:gameType', ...)]. *)
Definition get_active_route (gameType : string) : Store -> Served VersionRow :=
  serve (
    let! s <- get_store;
    match query_active gameType s with
    | inl error =>
        if String.eqb (err_code error) "PGRST116"
        then ret (Refused 404 ("No active configuration found for " ++ gameType))
        else throw (err_message error)
    | inr data => ret (Answered data)
    end).

(** *** [GET /api/scoring/versions/:gameType] *)

(** scoring.routes.js, [router.get('/versions/:gameType', ...)]. *)
Definition get_versions_route (gameType : string) : Store -> Served (list VersionRow) :=
  serve (
    match fault ListVersions with
    | Some e => throw (err_message e)
    | None =>
        let! s <- get_store;
        ret (Answered (order_desc version_created_at
                         (filter (fun v => String.eqb (row_game_type v) gameType)
                                 (scoring_versions s))))
    end).

(** *** [GET /api/games/results/:gameType] *)

(** The embedded [scoring_version:scoring_versions(version_name,
    description)] of a session. *)
Definition scoring_version_of (s : Store) (session : SessionRow)
  : option (string * string) :=
  match find (fun v => Nat.eqb (row_id v) (ses_scoring_version_id session))
             (scoring_versions s) with
  | Some v => Some (row_version_name v, row_description v)
  | None => None
  end.

(** The games router, [router.get('/results/:gameType', ...)]. *)
Definition get_results_route (gameType : string) (userId : option string)
  : Store -> Served (list ResultRow) :=
  serve (
    match fault ListResults with
    | Some e => throw (err_message e)
    | None =>
        let! s <- get_store;
        let of_game := filter (fun x => String.eqb (ses_game_type x) gameType)
                              (test_sessions s) in
        let selected :=
          if Js.truthy_str userId
          then filter (fun x => String.eqb (ses_user_id x)
                                  (match userId with Some u => u | None => "" end))
                      of_game
          else of_game in
        ret (Answered (map (fun x => {| res_session := x;
                                        res_scoring_version := scoring_version_of s x |})
                           (order_desc session_created_at selected)))
    end).

End OtherHandlers.

(* ------------------------------------------------------------------ *)
(** ** Vocabulary of the further statements *)

(** Every receipt refers to a session of the store. *)
Definition receipts_refer (s : Store) : Prop :=
  forall r, In r (action_receipts s) ->
  exists x, In x (test_sessions s) /\ ses_id x = rec_session_id r.

(** The score that a preview computes from a formula: under the name of
    the formula, the clamped result of its test, what [weights[name] || 0]
    gives for that name, and their product as doubles. *)
Definition scored_from (testFormula : string -> Env -> TestResponse)
    (ws : Js.Obj Q) (tv : Env) (e : string * string)
    (kv : string * CompetencyScore) : Prop :=
  fst kv = fst e /\
  exists r, testFormula (snd e) tv = TestOk r /\
            snd kv = {| raw := Js.clamp_0_100 r;
                        weight := weight_or_0 ws (fst e);
                        weighted := times (Js.clamp_0_100 r) (weight_or_0 ws (fst e)) |}.

(** The score that the compare handlers compute from a formula of a
    version. *)
Definition version_scored_from (evaluate : string -> option Env -> Outcome Q)
    (ws : Js.Obj Q) (td : option Env) (e : string * string)
    (kv : string * VersionScore) : Prop :=
  fst kv = fst e /\
  exists r, evaluate (snd e) td = Returned r /\
            snd kv = {| vs_raw := Js.clamp_0_100 r;
                        vs_weight := weight_or_0 ws (fst e);
                        vs_weighted := times (Js.clamp_0_100 r)
                                             (weight_or_0 ws (fst e));
                        vs_formula := snd e |}.

(** The comparison that the compare handlers compute from a stored
    version: the columns of the version, the configuration's formulas and
    weights, the score of every formula, assigned under the name of the
    formula, and the rounded total of the weighted scores of all
    formulas. *)
Definition scored_version (evaluate : string -> option Env -> Outcome Q)
    (td : option Env) (v : VersionRow) (c : Comparison) : Prop :=
  version_name c = row_version_name v /\
  version_id c = row_id v /\
  description c = row_description v /\
  formulas c = competency_formulas (row_config v) /\
  weights c = final_weights (row_config v) /\
  exists all,
    Forall2 (version_scored_from evaluate (or_empty (final_weights (row_config v))) td)
            (version_entries v) all /\
    competencies c = Js.from_assignments all /\
    final_score c = round2 (total_of (map (fun kv => vs_weighted (snd kv)) all)).

(** A number that is neither negative nor [NaN]. *)
Definition not_negative (x : Num) : Prop :=
  match x with
  | Finite q => 0 <= q
  | PosInf => True
  | NegInf | NaN => False
  end.

(** What the save route may do to a stored version: nothing, or switch
    an active version of the game type of the request to inactive. *)
Definition kept_by_save (req : SaveRequest) (v v' : VersionRow) : Prop :=
  with_active (row_is_active v) v' = v /\
  (v' = v \/
   (sv_game_type req = Some (row_game_type v) /\
    row_is_active v = true /\ row_is_active v' = false)).

(** Rows in the order of [.order(column, { ascending: false })]. *)
Definition newest_first {A} (created_at : A -> nat) (rows : list A) : Prop :=
  StronglySorted (fun x y => (created_at y <= created_at x)%nat) rows.

(** The sessions that the query parameter [userId] of the results route
    asks for: those of that user, or all of them when the parameter is
    absent or empty. *)
Definition of_user (userId : option string) (x : SessionRow) : bool :=
  match userId with
  | None => true
  | Some u => if String.eqb u "" then true else String.eqb (ses_user_id x) u
  end.

(** What the set-active route may do to a stored version: change its
    column [is_active], and that only on versions of the game type. *)
Definition kept_by_set_active (game_type : string) (v v' : VersionRow) : Prop :=
  with_active (row_is_active v) v' = v /\
  (row_game_type v <> game_type -> v' = v).

(* ------------------------------------------------------------------ *)
(** ** Loops that push *)

Lemma for_push_length {A B} (f : A -> Outcome B) (xs : list A) (ys : list B) :
  for_push f xs = Returned ys -> List.length ys = List.length xs.
Proof.
  revert ys; induction xs as [|x xs IH]; intros ys H; simpl in H.
  - now inversion H.
  - destruct (f x) as [e|y]; simpl in H; [discriminate|].
    destruct (for_push f xs) as [e|ys']; simpl in H; [discriminate|].
    inversion H; subst; simpl. now rewrite (IH ys').
Qed.

Lemma for_push_nth {A B} (f : A -> Outcome B) (xs : list A) (ys : list B) :
  for_push f xs = Returned ys ->
  forall i x, nth_error xs i = Some x ->
  exists y, nth_error ys i = Some y /\ f x = Returned y.
Proof.
  revert ys; induction xs as [|x0 xs IH]; intros ys H i x Hi.
  - destruct i; discriminate.
  - simpl in H.
    destruct (f x0) as [e|y0] eqn:E0; simpl in H; [discriminate|].
    destruct (for_push f xs) as [e|ys'] eqn:E; simpl in H; [discriminate|].
    inversion H; subst; clear H.
    destruct i as [|i]; simpl in Hi |- *.
    + inversion Hi; subst. now exists y0.
    + now apply (IH ys').
Qed.

Lemma for_push_total {A B} (f : A -> Outcome B) (xs : list A) :
  (forall x, In x xs -> exists y, f x = Returned y) ->
  exists ys, for_push f xs = Returned ys.
Proof.
  induction xs as [|x xs IH]; intros H; simpl.
  - now exists [].
  - destruct (H x (or_introl eq_refl)) as [y Hy]; rewrite Hy; simpl.
    destruct IH as [ys Hys]; [intros; apply H; now right|].
    rewrite Hys; simpl. now exists (y :: ys).
Qed.

(* ------------------------------------------------------------------ *)
(** ** [calculateDifferences] *)

Lemma diff_pair_names (v1 v2 : Comparison) (d : Diff) :
  diff_pair v1 v2 = Returned d ->
  from d = version_name v1 /\ to d = version_name v2 /\
  score_change d = Double.sub (final_score v2) (final_score v1).
Proof.
  unfold diff_pair; intros H.
  destruct (compare_weights _ _ _); simpl in H; [discriminate|].
  destruct (compare_formulas _ _ _); simpl in H; [discriminate|].
  inversion H; subst; simpl; auto.
Qed.

(** When it returns, [calculateDifferences] returns one diff less than it
    was given comparisons. *)
Lemma calculateDifferences_length (comparisons : list Comparison) (ds : list Diff) :
  calculateDifferences comparisons = Returned ds ->
  List.length ds = (List.length comparisons - 1)%nat.
Proof.
  unfold calculateDifferences; intros H.
  apply for_push_length in H. now rewrite H, length_seq.
Qed.

(** ... and the diff at position [i] is the one of the comparisons at
    positions [i] and [i + 1]. *)
Lemma calculateDifferences_consecutive (comparisons : list Comparison) (ds : list Diff) :
  calculateDifferences comparisons = Returned ds ->
  forall i, (i < List.length ds)%nat ->
  exists v1 v2 d,
    nth_error comparisons i = Some v1 /\
    nth_error comparisons (S i) = Some v2 /\
    nth_error ds i = Some d /\
    diff_pair v1 v2 = Returned d.
Proof.
  intros H i Hi.
  pose proof (calculateDifferences_length _ H) as Hlen.
  unfold calculateDifferences in H.
  assert (Hseq : nth_error (seq 1 (List.length comparisons - 1)) i = Some (S i)).
  { rewrite nth_error_seq.
    destruct (Nat.ltb_spec i (List.length comparisons - 1)); [reflexivity|lia]. }
  destruct (for_push_nth _ _ H _ Hseq) as [d [Hd Hf]].
  unfold diff_at in Hf. replace (S i - 1)%nat with i in Hf by lia.
  destruct (nth_error comparisons i) as [v1|] eqn:E1; [|discriminate].
  destruct (nth_error comparisons (S i)) as [v2|] eqn:E2; [|discriminate].
  now exists v1, v2, d.
Qed.

(** The diffs follow the comparisons: the one at position [i] goes from
    the version at position [i] to the version at position [i + 1]. *)
Lemma calculateDifferences_in_order (comparisons : list Comparison) (ds : list Diff) :
  calculateDifferences comparisons = Returned ds ->
  forall i, (i < List.length comparisons - 1)%nat ->
  exists v1 v2 d,
    nth_error comparisons i = Some v1 /\
    nth_error comparisons (S i) = Some v2 /\
    nth_error ds i = Some d /\
    from d = version_name v1 /\ to d = version_name v2 /\
    score_change d = Double.sub (final_score v2) (final_score v1).
Proof.
  intros H i Hi.
  rewrite <- (calculateDifferences_length _ H) in Hi.
  destruct (calculateDifferences_consecutive _ H Hi) as [v1 [v2 [d [H1 [H2 [H3 Hd]]]]]].
  apply diff_pair_names in Hd. exists v1, v2, d. tauto.
Qed.

Lemma compare_weights_total (ks : list string) (o1 o2 : Js.Obj Q) :
  exists wc, compare_weights ks (Some o1) (Some o2) = Returned wc.
Proof.
  induction ks as [|k ks [wc IH]]; simpl.
  - now exists [].
  - rewrite IH; simpl. destruct (Js.neq_num _ _); eauto.
Qed.

Lemma compare_formulas_total (ks : list string) (o1 o2 : Js.Obj string) :
  exists fc, compare_formulas ks (Some o1) (Some o2) = Returned fc.
Proof.
  induction ks as [|k ks [fc IH]]; simpl.
  - now exists [].
  - rewrite IH; simpl. destruct (Js.neq_str _ _); eauto.
Qed.

(** [calculateDifferences] returns when every comparison carries its
    weights and its formulas. *)
Lemma calculateDifferences_total (comparisons : list Comparison) :
  (forall c, In c comparisons -> weights c <> None /\ formulas c <> None) ->
  exists ds, calculateDifferences comparisons = Returned ds.
Proof.
  intros Hall. unfold calculateDifferences.
  apply for_push_total. intros i Hi. apply in_seq in Hi.
  unfold diff_at.
  destruct (nth_error comparisons (i - 1)) as [v1|] eqn:E1.
  2:{ apply nth_error_None in E1. lia. }
  destruct (nth_error comparisons i) as [v2|] eqn:E2.
  2:{ apply nth_error_None in E2. lia. }
  destruct (Hall v1 (nth_error_In _ _ E1)) as [Hw1 Hf1].
  destruct (Hall v2 (nth_error_In _ _ E2)) as [Hw2 Hf2].
  unfold diff_pair.
  destruct (weights v1) as [w1|]; [|congruence].
  destruct (weights v2) as [w2|]; [|congruence].
  destruct (formulas v1) as [f1|]; [|congruence].
  destruct (formulas v2) as [f2|]; [|congruence].
  destruct (compare_weights_total (Js.for_in_keys (Some w1)) w1 w2) as [wc ->].
  destruct (compare_formulas_total (Js.for_in_keys (Some f1)) f1 f2) as [fc ->].
  simpl. eauto.
Qed.

(** The weight changes of a diff name properties of the older side only. *)
Lemma compare_weights_keys (ks : list string) (w1 w2 : option (Js.Obj Q))
    (wc : list WeightChange) :
  compare_weights ks w1 w2 = Returned wc ->
  forall c, In c wc -> In (wc_competency c) ks.
Proof.
  revert wc; induction ks as [|k ks IH]; intros wc H c Hc; simpl in H.
  - inversion H; subst. destruct Hc.
  - destruct (Js.prop w1 k) as [e|a]; simpl in H; [discriminate|].
    destruct (Js.prop w2 k) as [e|b]; simpl in H; [discriminate|].
    destruct (compare_weights ks w1 w2) as [e|more]; simpl in H; [discriminate|].
    specialize (IH more eq_refl).
    destruct (Js.neq_num a b); inversion H; subst; clear H.
    + destruct Hc as [<-|Hc]; simpl; [now left|right; now apply IH].
    + right; now apply IH.
Qed.

(* ------------------------------------------------------------------ *)
(** ** Numbers *)

Lemma clamp_0_100_range (x : Q) : 0 <= Js.clamp_0_100 x /\ Js.clamp_0_100 x <= 100.
Proof.
  unfold Js.clamp_0_100; split.
  - apply Q.le_max_l.
  - apply Q.max_lub; [discriminate|apply Q.le_min_l].
Qed.

(* ------------------------------------------------------------------ *)
(** ** Objects *)

Lemma set_In {V} (key : string) (v0 : V) (o : Js.Obj V) (k : string) (v : V) :
  In (k, v) (Js.set key v0 o) -> v = v0 \/ In (k, v) o.
Proof.
  unfold Js.set. destruct (String.eqb key "__proto__"); [auto|].
  induction o as [|[k1 v1] o IH]; simpl; intros H.
  - destruct H as [H|[]]; inversion H; auto.
  - destruct (String.eqb key k1); simpl in H.
    + destruct H as [H|H]; [inversion H; auto|auto].
    + destruct H as [H|H]; [auto|]. destruct (IH H); auto.
Qed.

(** An assignment under [__proto__] adds no property. *)
Lemma set_proto {V} (v : V) (o : Js.Obj V) : Js.set "__proto__" v o = o.
Proof. reflexivity. Qed.

Lemma set_fresh {V} (key : string) (v : V) (o : Js.Obj V) :
  key <> "__proto__" ->
  ~ In key (Js.keys o) -> Js.set key v o = (o ++ [(key, v)])%list.
Proof.
  intros Hp. unfold Js.set.
  destruct (String.eqb_spec key "__proto__") as [E|_]; [now elim Hp|].
  induction o as [|[k1 v1] o IH]; simpl; intros H; [reflexivity|].
  destruct (String.eqb_spec key k1) as [->|Hne]; [tauto|].
  rewrite IH; tauto.
Qed.

(** With pairwise distinct keys, the assignments make one property for
    each entry whose key is not [__proto__], in the order of the
    entries. *)
Lemma fold_set_assigned {V} (all : list (string * V)) :
  forall o : Js.Obj V,
  NoDup (Js.keys o ++ map fst all) ->
  fold_left (fun o e => Js.set (fst e) (snd e) o) all o = (o ++ Js.assigned all)%list.
Proof.
  induction all as [|[k v] all IH]; intros o Hnd; cbn.
  - now rewrite app_nil_r.
  - cbn in Hnd. destruct (String.eqb_spec k "__proto__") as [->|Hne]; cbn.
    + apply IH. eapply NoDup_remove_1; exact Hnd.
    + rewrite set_fresh; [|exact Hne|].
      * rewrite IH; [now rewrite <- app_assoc|].
        unfold Js.keys. rewrite map_app, <- app_assoc. exact Hnd.
      * apply NoDup_remove_2 in Hnd. intros Hc. apply Hnd, in_or_app. now left.
Qed.

Lemma from_assignments_wf {V} (all : list (string * V)) :
  NoDup (map fst all) -> Js.from_assignments all = Js.assigned all.
Proof. intros H. unfold Js.from_assignments. now rewrite fold_set_assigned. Qed.

(* ------------------------------------------------------------------ *)
(** ** Running a handler *)

Lemma bind_run {A B} (m : M A) (k : A -> M B) (s : Store) :
  bind m k s =
  match outcome (m s) with
  | Threw e =>
      {| outcome := Threw e; store_after := store_after (m s); emitted := emitted (m s) |}
  | Returned a =>
      {| outcome := outcome (k a (store_after (m s)));
         store_after := store_after (k a (store_after (m s)));
         emitted := emitted (m s) ++ emitted (k a (store_after (m s))) |}
  end.
Proof.
  unfold bind. destruct (m s) as [[e|a] s1 es]; cbn; [reflexivity|].
  now destruct (k a s1).
Qed.

Lemma try_catch_run (handler : M Response) (s : Store) :
  try_catch handler s =
  {| response := match outcome (handler s) with
                 | Threw e => fail_with 500 e
                 | Returned resp => resp
                 end;
     store := store_after (handler s);
     trace := emitted (handler s) |}.
Proof. unfold try_catch. now destruct (handler s). Qed.

(* ------------------------------------------------------------------ *)
(** ** The preview loop *)

Section Preview.

Variable testFormula : string -> Env -> TestResponse.

(** One turn of the loop. *)
Lemma preview_loop_cons (name formula : string) (rest : list (string * string))
    (ws : Js.Obj Q) (tv : Env) (scores : Js.Obj CompetencyScore) (total : Num)
    (s : Store) :
  preview_loop testFormula ((name, formula) :: rest) ws tv scores total s =
  match testFormula formula tv with
  | TestFailed error =>
      {| outcome := Returned (inl {| status := 200;
                                     body := Failure ("Formula error in " ++ name
                                                      ++ ": " ++ error) |});
         store_after := s; emitted := [Tested formula tv] |}
  | TestOk result =>
      let sc := {| raw := Js.clamp_0_100 result;
                   weight := weight_or_0 ws name;
                   weighted := times (Js.clamp_0_100 result) (weight_or_0 ws name) |} in
      let r := preview_loop testFormula rest ws tv (Js.set name sc scores)
                 (Double.add total (weighted sc)) s in
      {| outcome := outcome r; store_after := store_after r;
         emitted := Tested formula tv :: emitted r |}
  end.
Proof.
  cbn [preview_loop]. rewrite bind_run. cbn.
  destruct (testFormula formula tv); reflexivity.
Qed.

(** The loop ends early with a failure only. *)
Lemma preview_loop_early (es : list (string * string)) (ws : Js.Obj Q) (tv : Env) :
  forall scores total s early,
  outcome (preview_loop testFormula es ws tv scores total s) = Returned (inl early) ->
  exists error, early = {| status := 200; body := Failure error |}.
Proof.
  induction es as [|[name formula] es IH]; intros scores total s early H.
  - discriminate.
  - rewrite preview_loop_cons in H.
    destruct (testFormula formula tv) as [result|error]; cbn in H.
    + eapply IH; eauto.
    + inversion H; eauto.
Qed.

Lemma preview_loop_clamped (es : list (string * string)) (ws : Js.Obj Q) (tv : Env) :
  forall scores total s scores' total',
  outcome (preview_loop testFormula es ws tv scores total s)
    = Returned (inr (scores', total')) ->
  (forall k v, In (k, v) scores -> 0 <= raw v /\ raw v <= 100) ->
  forall k v, In (k, v) scores' -> 0 <= raw v /\ raw v <= 100.
Proof.
  induction es as [|[name formula] es IH]; intros scores total s scores' total' H Hin.
  - cbn in H. inversion H; subst. exact Hin.
  - rewrite preview_loop_cons in H.
    destruct (testFormula formula tv) as [result|error]; cbn in H; [|discriminate].
    eapply IH; [exact H|].
    intros k v Hkv. apply set_In in Hkv. destruct Hkv as [->|Hkv]; [|eauto].
    cbn. apply clamp_0_100_range.
Qed.

(** When the loop ends normally, it has computed a score for every
    formula, in order, assigned each under the name of its formula and
    added up the weighted scores. *)
Lemma preview_loop_scores (es : list (string * string)) (ws : Js.Obj Q) (tv : Env) :
  forall scores total s scores' total',
  outcome (preview_loop testFormula es ws tv scores total s)
    = Returned (inr (scores', total')) ->
  exists all,
    Forall2 (scored_from testFormula ws tv) es all /\
    scores' = fold_left (fun o e => Js.set (fst e) (snd e) o) all scores /\
    total' = fold_left Double.add (map (fun kv => weighted (snd kv)) all) total.
Proof.
  induction es as [|[name formula] es IH]; intros scores total s scores' total' H.
  - cbn in H. inversion H; subst. exists []. split; [constructor|]. split; reflexivity.
  - rewrite preview_loop_cons in H.
    destruct (testFormula formula tv) as [result|error] eqn:Et; cbn in H; [|discriminate].
    apply IH in H. destruct H as [all [Hall [Hs Ht]]].
    exists ((name, {| raw := Js.clamp_0_100 result;
                      weight := weight_or_0 ws name;
                      weighted := times (Js.clamp_0_100 result)
                                        (weight_or_0 ws name) |}) :: all).
    split; [|split; [exact Hs|exact Ht]].
    constructor; [|exact Hall].
    split; [reflexivity|]. exists result. cbn. auto.
Qed.

(** The answers of a preview handler: a failure, or scores. *)
Lemma preview_body_answers (missing : string) (req : PreviewRequest) (s : Store) :
  (exists code error,
     response (try_catch (preview_body testFormula missing req) s)
       = fail_with code error) \/
  (exists formulas ws tv scores total,
     pv_formulas req = Some formulas /\
     outcome (preview_loop testFormula (Js.entries formulas) ws tv [] 0 s)
       = Returned (inr (scores, total)) /\
     response (try_catch (preview_body testFormula missing req) s)
       = ok (PreviewData {| sr_final_score := round2 total;
                            sr_competencies := scores |} tv)).
Proof.
  rewrite try_catch_run. cbn [response]. unfold preview_body.
  destruct (pv_formulas req) as [formulas|]; [|left; cbn; eauto].
  destruct (pv_weights req) as [ws|]; [|left; cbn; eauto].
  destruct (pv_test_variables req) as [tv|]; [|left; cbn; eauto].
  destruct (Js.truthy_str (pv_game_type req)); [|left; cbn; eauto].
  rewrite bind_run.
  destruct (outcome (preview_loop _ _ _ _ _ _ _)) as [e|[early|[sc total]]] eqn:E;
    cbn.
  - left; eauto.
  - apply preview_loop_early in E. destruct E as [error ->]. left.
    exists 200%nat, error. reflexivity.
  - right. exists formulas, ws, tv, sc, total. auto.
Qed.

End Preview.

(* ------------------------------------------------------------------ *)
(** ** The compare loops *)

Section Compare.

Variable evaluate : string -> option Env -> Outcome Q.
Variable outage : StoreCall -> option string.

(** One turn of the loop over the formulas of a version. *)
Lemma score_formulas_cons (name formula : string) (rest : list (string * string))
    (fw : option (Js.Obj Q)) (td : option Env) (scores : Js.Obj VersionScore)
    (total : Num) (s : Store) :
  score_formulas evaluate ((name, formula) :: rest) fw td scores total s =
  match evaluate formula td with
  | Threw e =>
      {| outcome := Threw e; store_after := s; emitted := [Evaluated formula td] |}
  | Returned result =>
      match fw with
      | None =>
          {| outcome := Threw ("Cannot read properties of undefined (reading '"
                               ++ name ++ "')");
             store_after := s; emitted := [Evaluated formula td] |}
      | Some ws =>
          let sc := {| vs_raw := Js.clamp_0_100 result;
                       vs_weight := weight_or_0 ws name;
                       vs_weighted := times (Js.clamp_0_100 result)
                                            (weight_or_0 ws name);
                       vs_formula := formula |} in
          let r := score_formulas evaluate rest fw td (Js.set name sc scores)
                     (Double.add total (vs_weighted sc)) s in
          {| outcome := outcome r; store_after := store_after r;
             emitted := Evaluated formula td :: emitted r |}
      end
  end.
Proof.
  cbn [score_formulas]. rewrite bind_run. cbn.
  destruct (evaluate formula td) as [e|result]; cbn; [reflexivity|].
  destruct fw as [ws|]; cbn; [|reflexivity].
  now destruct (score_formulas _ _ _ _ _ _ _).
Qed.

(** The loop neither reads nor writes the store. *)
Lemma score_formulas_store (es : list (string * string)) (fw : option (Js.Obj Q))
    (td : option Env) :
  forall scores total s s',
  store_after (score_formulas evaluate es fw td scores total s) = s /\
  outcome (score_formulas evaluate es fw td scores total s)
    = outcome (score_formulas evaluate es fw td scores total s') /\
  emitted (score_formulas evaluate es fw td scores total s)
    = emitted (score_formulas evaluate es fw td scores total s').
Proof.
  induction es as [|[name formula] es IH]; intros scores total s s'.
  - simpl; auto.
  - rewrite !score_formulas_cons.
    destruct (evaluate formula td) as [e|result]; simpl; auto.
    destruct fw as [ws|]; simpl; auto.
    destruct (IH (Js.set name
                    {| vs_raw := Js.clamp_0_100 result;
                       vs_weight := weight_or_0 ws name;
                       vs_weighted := times (Js.clamp_0_100 result)
                                            (weight_or_0 ws name);
                       vs_formula := formula |} scores)
                 (Double.add total (times (Js.clamp_0_100 result)
                                          (weight_or_0 ws name))) s s')
      as [H1 [H2 H3]].
    repeat split; [exact H1|exact H2|now rewrite H3].
Qed.

Lemma score_formulas_clamped (es : list (string * string)) (fw : option (Js.Obj Q))
    (td : option Env) :
  forall scores total s r,
  outcome (score_formulas evaluate es fw td scores total s) = Returned r ->
  (forall k v, In (k, v) scores -> 0 <= vs_raw v /\ vs_raw v <= 100) ->
  forall k v, In (k, v) (fst r) -> 0 <= vs_raw v /\ vs_raw v <= 100.
Proof.
  induction es as [|[name formula] es IH]; intros scores total s r H Hin.
  - simpl in H. inversion H; subst. exact Hin.
  - rewrite score_formulas_cons in H.
    destruct (evaluate formula td) as [e|result]; simpl in H; [discriminate|].
    destruct fw as [ws|]; simpl in H; [|discriminate].
    eapply IH; [exact H|].
    intros k v Hkv. apply set_In in Hkv. destruct Hkv as [->|Hkv]; [|eauto].
    simpl. apply clamp_0_100_range.
Qed.

(** When the loop ends normally, it has computed a score for every
    formula, in order, assigned each under the name of its formula and
    added up the weighted scores. *)
Lemma score_formulas_scores (es : list (string * string)) (fw : option (Js.Obj Q))
    (td : option Env) :
  forall scores total s r,
  outcome (score_formulas evaluate es fw td scores total s) = Returned r ->
  exists all,
    Forall2 (version_scored_from evaluate (or_empty fw) td) es all /\
    fst r = fold_left (fun o e => Js.set (fst e) (snd e) o) all scores /\
    snd r = fold_left Double.add (map (fun kv => vs_weighted (snd kv)) all) total.
Proof.
  induction es as [|[name formula] es IH]; intros scores total s r H.
  - simpl in H. inversion H; subst. exists []. split; [constructor|]. split; reflexivity.
  - rewrite score_formulas_cons in H.
    destruct (evaluate formula td) as [e|result] eqn:Ee; simpl in H; [discriminate|].
    destruct fw as [ws|]; simpl in H; [|discriminate].
    apply IH in H. destruct H as [all [Hall [Hs Ht]]].
    exists ((name, {| vs_raw := Js.clamp_0_100 result;
                      vs_weight := weight_or_0 ws name;
                      vs_weighted := times (Js.clamp_0_100 result)
                                           (weight_or_0 ws name);
                      vs_formula := formula |}) :: all).
    split; [|split; [exact Hs|exact Ht]].
    constructor; [|exact Hall].
    split; [reflexivity|]. exists result. cbn. auto.
Qed.

(** When the loop ends normally, every formula has been evaluated, in
    order, in the environment the request carried. *)
Lemma score_formulas_evaluations (es : list (string * string))
    (fw : option (Js.Obj Q)) (td : option Env) :
  forall scores total s r,
  outcome (score_formulas evaluate es fw td scores total s) = Returned r ->
  evaluations (emitted (score_formulas evaluate es fw td scores total s))
    = map (fun e => (snd e, td)) es.
Proof.
  induction es as [|[name formula] es IH]; intros scores total s r H.
  - reflexivity.
  - rewrite score_formulas_cons in H |- *.
    destruct (evaluate formula td) as [e|result]; simpl in H; [discriminate|].
    destruct fw as [ws|]; simpl in H; [|discriminate].
    simpl. f_equal. eapply IH; eauto.
Qed.

Lemma score_version_run (td : option Env) (v : VersionRow) (s : Store) :
  let r := score_formulas evaluate (version_entries v) (final_weights (row_config v))
             td [] 0 s in
  score_version evaluate td v s =
  {| outcome := match outcome r with
                | Threw e => Threw e
                | Returned x =>
                    Returned {| version_name := row_version_name v;
                                version_id := row_id v;
                                description := row_description v;
                                final_score := round2 (snd x);
                                competencies := fst x;
                                formulas := competency_formulas (row_config v);
                                weights := final_weights (row_config v) |}
                end;
     store_after := s;
     emitted := emitted r |}.
Proof.
  unfold score_version, version_entries. rewrite bind_run. cbn zeta.
  destruct (score_formulas_store (Js.entries (or_empty (competency_formulas (row_config v))))
              (final_weights (row_config v)) td [] 0 s s) as [Hs _].
  destruct (outcome (score_formulas _ _ _ _ _ _ _)) eqn:E; cbn.
  - now rewrite Hs.
  - now rewrite Hs, app_nil_r.
Qed.

Lemma score_versions_cons (td : option Env) (v : VersionRow) (vs : list VersionRow)
    (s : Store) :
  score_versions evaluate td (v :: vs) s =
  match outcome (score_version evaluate td v s) with
  | Threw e =>
      {| outcome := Threw e; store_after := s;
         emitted := emitted (score_version evaluate td v s) |}
  | Returned c =>
      let r := score_versions evaluate td vs s in
      {| outcome := match outcome r with
                    | Threw e => Threw e
                    | Returned cs => Returned (c :: cs)
                    end;
         store_after := store_after r;
         emitted := emitted (score_version evaluate td v s) ++ emitted r |}
  end.
Proof.
  cbn [score_versions]. rewrite bind_run.
  assert (Hs : store_after (score_version evaluate td v s) = s)
    by (rewrite score_version_run; reflexivity).
  destruct (outcome (score_version evaluate td v s)) as [e|c] eqn:E.
  - now rewrite Hs.
  - rewrite Hs, bind_run. cbn zeta.
    destruct (outcome (score_versions evaluate td vs s)); cbn.
    + reflexivity.
    + now rewrite app_nil_r.
Qed.

Lemma score_versions_store (td : option Env) (vs : list VersionRow) (s : Store) :
  store_after (score_versions evaluate td vs s) = s.
Proof.
  induction vs as [|v vs IH]; [reflexivity|].
  rewrite score_versions_cons.
  destruct (outcome (score_version evaluate td v s)); simpl; auto.
Qed.

(** The comparisons are the scored versions, one for one and in order. *)
Lemma score_versions_each (td : option Env) (vs : list VersionRow) (s : Store) :
  forall cs,
  outcome (score_versions evaluate td vs s) = Returned cs ->
  Forall2 (fun v c => outcome (score_version evaluate td v s) = Returned c) vs cs.
Proof.
  induction vs as [|v vs IH]; intros cs H.
  - simpl in H. inversion H. constructor.
  - rewrite score_versions_cons in H.
    destruct (outcome (score_version evaluate td v s)) as [e|c] eqn:E;
      simpl in H; [discriminate|].
    destruct (outcome (score_versions evaluate td vs s)) as [e|cs'] eqn:E';
      [discriminate|].
    inversion H; subst. constructor; auto.
Qed.

(** The comparison of a version carries the scores of its formulas. *)
Lemma score_version_scored (td : option Env) (v : VersionRow) (s : Store)
    (c : Comparison) :
  outcome (score_version evaluate td v s) = Returned c -> scored_version evaluate td v c.
Proof.
  rewrite score_version_run. cbn [outcome].
  destruct (outcome (score_formulas _ _ _ _ _ _ _)) as [e|x] eqn:E; [discriminate|].
  intros H. inversion H; subst c; clear H.
  apply score_formulas_scores in E. destruct E as [all [Hall [Hs Ht]]].
  unfold scored_version. cbn.
  repeat (split; [reflexivity|]).
  exists all. split; [exact Hall|]. split; [exact Hs|]. now rewrite Ht.
Qed.

Lemma score_versions_scored (td : option Env) (vs : list VersionRow) (s : Store)
    (cs : list Comparison) :
  outcome (score_versions evaluate td vs s) = Returned cs ->
  Forall2 (scored_version evaluate td) vs cs.
Proof.
  intros H. apply score_versions_each in H.
  eapply Forall2_impl; [|exact H].
  intros v c Hc. eapply score_version_scored; exact Hc.
Qed.

Lemma score_versions_evaluations (td : option Env) (vs : list VersionRow) (s : Store) :
  forall cs,
  outcome (score_versions evaluate td vs s) = Returned cs ->
  evaluations (emitted (score_versions evaluate td vs s))
    = flat_map (fun v => map (fun e => (snd e, td)) (version_entries v)) vs.
Proof.
  induction vs as [|v vs IH]; intros cs H.
  - reflexivity.
  - rewrite score_versions_cons in H |- *.
    destruct (outcome (score_version evaluate td v s)) as [e|c] eqn:E;
      simpl in H; [discriminate|].
    destruct (outcome (score_versions evaluate td vs s)) as [e|cs'] eqn:E';
      [discriminate|].
    simpl. unfold evaluations in *. rewrite flat_map_app. f_equal.
    + rewrite score_version_run in E |- *. simpl in E |- *.
      destruct (outcome (score_formulas _ _ _ _ _ _ _)) as [e|x] eqn:E2; [discriminate|].
      eapply score_formulas_evaluations; eauto.
    + eapply IH; eauto.
Qed.

End Compare.

(* ------------------------------------------------------------------ *)
(** ** The compare handlers *)

Section CompareHandlers.

Variable evaluate : string -> option Env -> Outcome Q.
Variable outage : StoreCall -> option string.

Lemma fetch_versions_run (game_type : string) (version_ids : list nat) (s : Store) :
  fetch_versions outage game_type version_ids s =
  {| outcome := match outage SelectVersions with
                | Some e => Threw e
                | None => Returned (found_versions game_type version_ids s)
                end;
     store_after := s;
     emitted := [Called SelectVersions] |}.
Proof.
  unfold fetch_versions, found_versions. cbn.
  destruct (outage SelectVersions); reflexivity.
Qed.

(** The common part of the two handlers, case by case. *)
Lemma compare_prefix_run (req : CompareRequest) (s : Store) :
  (exists code error,
     compare_prefix evaluate outage req s =
     {| outcome := Returned (inl (fail_with code error)); store_after := s;
        emitted := match code with 400%nat => [] | _ => [Called SelectVersions] end |})
  \/
  (exists e, outage SelectVersions = Some e /\
     compare_prefix evaluate outage req s =
     {| outcome := Threw e; store_after := s; emitted := [Called SelectVersions] |})
  \/
  (exists game_type version_ids,
     cmp_game_type req = Some game_type /\
     cmp_version_ids req = Some version_ids /\
     let versions := found_versions game_type version_ids s in
     let r := score_versions evaluate (cmp_test_data req) versions s in
     (2 <= List.length versions)%nat /\
     compare_prefix evaluate outage req s =
     {| outcome := match outcome r with
                   | Threw e => Threw e
                   | Returned comparisons => Returned (inr comparisons)
                   end;
        store_after := s;
        emitted := Called SelectVersions :: emitted r |}).
Proof.
  unfold compare_prefix.
  destruct (cmp_version_ids req) as [ids|].
  2:{ left. exists 400%nat. eexists. reflexivity. }
  destruct (cmp_game_type req) as [gt|].
  2:{ left. exists 400%nat. eexists. reflexivity. }
  destruct (Js.truthy_str (Some gt) && (2 <=? List.length ids)%nat).
  2:{ left. exists 400%nat. eexists. reflexivity. }
  rewrite bind_run, fetch_versions_run. cbn [outcome store_after emitted].
  destruct (outage SelectVersions) as [e|] eqn:Eo.
  { right; left. exists e. auto. }
  destruct (Nat.ltb_spec (List.length (found_versions gt ids s)) 2) as [Hlt|Hge].
  { left. exists 404%nat. eexists. reflexivity. }
  right; right. exists gt, ids. cbn zeta. repeat split; auto.
  rewrite bind_run, score_versions_store.
  destruct (outcome (score_versions _ _ _ _)); cbn; [reflexivity|].
  now rewrite app_nil_r.
Qed.

(** An early answer of the common part is a failure. *)
Lemma compare_prefix_early (req : CompareRequest) (s : Store) (early : Response) :
  outcome (compare_prefix evaluate outage req s) = Returned (inl early) ->
  exists code error, early = fail_with code error.
Proof.
  destruct (compare_prefix_run req s)
    as [[code [error ->]]|[[e [_ ->]]|[gt [ids [_ [_ [_ ->]]]]]]]; cbn; intros H.
  - inversion H; eauto.
  - discriminate.
  - destruct (outcome (score_versions _ _ _ _)); discriminate.
Qed.

(** The common part ends with comparisons only after it has fetched at
    least two versions and scored each of them. *)
Lemma compare_prefix_scored (req : CompareRequest) (s : Store)
    (comparisons : list Comparison) :
  outcome (compare_prefix evaluate outage req s) = Returned (inr comparisons) ->
  exists game_type version_ids,
    cmp_game_type req = Some game_type /\
    cmp_version_ids req = Some version_ids /\
    let versions := found_versions game_type version_ids s in
    (2 <= List.length versions)%nat /\
    outcome (score_versions evaluate (cmp_test_data req) versions s)
      = Returned comparisons /\
    emitted (compare_prefix evaluate outage req s)
      = Called SelectVersions
          :: emitted (score_versions evaluate (cmp_test_data req) versions s).
Proof.
  destruct (compare_prefix_run req s)
    as [[code [error ->]]|[[e [_ ->]]|[gt [ids [Hg [Hi [Hlen ->]]]]]]]; cbn; intros H.
  - discriminate.
  - discriminate.
  - exists gt, ids. repeat split; auto.
    destruct (outcome (score_versions _ _ _ _)); inversion H; reflexivity.
Qed.

(** The two handlers do the same things; they differ in the answer. *)
Lemma compare_route_trace (req : CompareRequest) (s : Store) :
  trace (compare_route evaluate outage req s)
    = trace (compareVersions evaluate outage req s) /\
  store (compare_route evaluate outage req s)
    = store (compareVersions evaluate outage req s).
Proof.
  unfold compare_route, compareVersions. rewrite !try_catch_run, !bind_run.
  destruct (outcome (compare_prefix evaluate outage req s)) as [e|[early|cs]];
    cbn; auto.
Qed.

(** The route never answers with comparisons and differences: the call
    [this.calculateDifferences(comparisons)] throws. *)
Lemma compare_route_no_data (req : CompareRequest) (s : Store) :
  exists code error,
    response (compare_route evaluate outage req s) = fail_with code error.
Proof.
  unfold compare_route. rewrite try_catch_run, bind_run.
  destruct (outcome (compare_prefix evaluate outage req s)) as [e|[early|cs]] eqn:E;
    cbn; eauto.
  apply compare_prefix_early in E. exact E.
Qed.

(** The answers of [compareVersions]: a failure, or the comparisons. *)
Lemma compareVersions_answers (req : CompareRequest) (s : Store) :
  (exists code error,
     response (compareVersions evaluate outage req s) = fail_with code error) \/
  (exists comparisons,
     outcome (compare_prefix evaluate outage req s) = Returned (inr comparisons) /\
     response (compareVersions evaluate outage req s)
       = ok (CompareData comparisons None (cmp_test_data req)) /\
     trace (compareVersions evaluate outage req s)
       = emitted (compare_prefix evaluate outage req s)).
Proof.
  unfold compareVersions. rewrite try_catch_run, bind_run.
  destruct (outcome (compare_prefix evaluate outage req s)) as [e|[early|cs]] eqn:E;
    cbn.
  - left; eauto.
  - left. apply compare_prefix_early in E. exact E.
  - right. exists cs. repeat split. now rewrite app_nil_r.
Qed.

End CompareHandlers.

(* ------------------------------------------------------------------ *)
(** ** The save handler *)

Section Save.

Variable validateFormula : string -> Validation.
Variable get_next_version_name : Store -> string -> string.
Variable outage : StoreCall -> option string.

(** One turn of the validation loop. *)
Lemma validate_loop_cons (name formula : string) (rest : list (string * string))
    (s : Store) :
  validate_loop validateFormula ((name, formula) :: rest) s =
  match validateFormula formula with
  | Invalid error =>
      {| outcome := Returned (Some (fail_with 400 ("Invalid formula for " ++ name
                                                   ++ ": " ++ error)));
         store_after := s; emitted := [Validated formula] |}
  | Valid =>
      let r := validate_loop validateFormula rest s in
      {| outcome := outcome r; store_after := store_after r;
         emitted := Validated formula :: emitted r |}
  end.
Proof.
  cbn [validate_loop]. rewrite bind_run. cbn.
  destruct (validateFormula formula); reflexivity.
Qed.

(** The validation loop, case by case: it stops at the first formula
    that is not valid, and it leaves the store alone. *)
Lemma validate_loop_run (es : list (string * string)) (s : Store) :
  (Forall (fun e => validateFormula (snd e) = Valid) es /\
   validate_loop validateFormula es s =
   {| outcome := Returned None; store_after := s;
      emitted := map (fun e => Validated (snd e)) es |})
  \/
  (exists pre name formula error post,
     es = (pre ++ (name, formula) :: post)%list /\
     Forall (fun e => validateFormula (snd e) = Valid) pre /\
     validateFormula formula = Invalid error /\
     validate_loop validateFormula es s =
     {| outcome := Returned (Some (fail_with 400 ("Invalid formula for " ++ name
                                                  ++ ": " ++ error)));
        store_after := s;
        emitted := map (fun e => Validated (snd e)) (pre ++ [(name, formula)]) |}).
Proof.
  induction es as [|[name formula] es IH].
  - left. split; [constructor|reflexivity].
  - rewrite validate_loop_cons.
    destruct (validateFormula formula) as [|error] eqn:Ev.
    + destruct IH as [[Hf ->]|[pre [n [f [err [post [E [Hf [Hi ->]]]]]]]]].
      * left. split; [constructor; auto|reflexivity].
      * right. exists ((name, formula) :: pre), n, f, err, post.
        rewrite E. repeat split; auto.
    + right. exists [], name, formula, error, es. repeat split; auto.
Qed.

Lemma save_route_run (req : SaveRequest) (s : Store) :
  save_run validateFormula get_next_version_name outage req s
    (save_route validateFormula get_next_version_name outage req s).
Proof.
  unfold save_route.
  destruct (sv_game_type req) as [game_type|] eqn:Eg.
  2:{ apply save_missing. rewrite Eg. now left. }
  destruct (sv_config req) as [config|] eqn:Ec.
  2:{ apply save_missing. now right. }
  destruct (Js.truthy_str (Some game_type)) eqn:Et.
  2:{ apply save_missing. left. now rewrite Eg. }
  unfold try_catch, bind at 1.
  destruct (validate_loop_run (Js.entries (or_empty (competency_formulas config))) s)
    as [[Hf ->]|[pre [n [f [err [post [E [Hf [Hi ->]]]]]]]]].
  - unfold next_version_name, deactivate_active, insert_version.
    pose proof (@save_insert_failed validateFormula get_next_version_name outage
                  req s game_type config) as Hfail.
    pose proof (@save_done validateFormula get_next_version_name outage
                  req s game_type config Eg Ec Hf) as Hdone.
    unfold after_deactivation in Hfail, Hdone.
    destruct (outage RpcNextVersionName) as [e|] eqn:E1; cbn.
    { eapply save_rpc_failed; eauto. }
    destruct (outage DeactivateActive) as [e2|] eqn:E2; cbn;
      destruct (outage InsertVersion) as [e3|] eqn:E3; cbn;
      rewrite ?app_nil_r;
      try (eapply Hfail; eauto; fail);
      try (apply Hdone; reflexivity).
  - cbn. rewrite app_nil_r. eapply save_invalid; eauto.
Qed.

End Save.

(* ------------------------------------------------------------------ *)
(** ** The submit handlers *)

Section Submit.

Variable calculateScores : string -> Config -> Json -> Outcome ScoreResult.
Variable now : string.
Variable outage : StoreCall -> option string.

Lemma submit_body_run (req : SubmitRequest) (s : Store) :
  submit_run calculateScores now outage req s
    (try_catch (submit_body calculateScores now outage req) s).
Proof.
  unfold submit_body.
  destruct (sub_game_type req) as [game_type|] eqn:Eg; [|apply submit_missing].
  destruct (sub_user_id req) as [user_id|] eqn:Eu; [|apply submit_missing].
  destruct (sub_raw_data req) as [raw_data|] eqn:Er; [|apply submit_missing].
  destruct (Js.truthy_str (Some game_type) && Js.truthy_str (Some user_id)
            && truthy_json (Some raw_data)); [|apply submit_missing].
  unfold try_catch, select_active, insert_session, insert_receipt.
  destruct (outage SelectActive) as [e0|] eqn:E0; cbn.
  { now apply submit_no_config. }
  fold (active_versions game_type s).
  destruct (single (active_versions game_type s)) as [config|] eqn:Ec; cbn.
  2:{ now apply submit_no_config. }
  destruct (calculateScores game_type (row_config config) raw_data) as [e|scores] eqn:Es;
    cbn.
  { eapply submit_scoring_failed; eauto. }
  destruct (outage InsertSession) as [e1|] eqn:E1; cbn.
  { eapply submit_session_failed; eauto. }
  destruct (outage InsertReceipt) as [e2|] eqn:E2; cbn.
  { eapply submit_receipt_failed; eauto. }
  eapply submit_done; eauto.
Qed.

Lemma submit_route_run (req : SubmitRequest) (s : Store) :
  submit_run calculateScores now outage req s
    (submit_route calculateScores now outage req s).
Proof. apply submit_body_run. Qed.

Lemma submitGame_run (req : SubmitRequest) (s : Store) :
  submit_run calculateScores now outage req s
    (submitGame calculateScores now outage req s).
Proof. apply submit_body_run. Qed.

End Submit.

(* ------------------------------------------------------------------ *)
(** ** Comparing versions *)

Lemma neq_num_refl (a : option Q) : Js.neq_num a a = false.
Proof. destruct a as [x|]; simpl; [now rewrite Qeq_bool_refl|reflexivity]. Qed.

Lemma neq_str_refl (a : option string) : Js.neq_str a a = false.
Proof. destruct a as [x|]; simpl; [now rewrite String.eqb_refl|reflexivity]. Qed.

Lemma compare_weights_same (w : option (Js.Obj Q)) (ks : list string) :
  (w = None -> ks = []) -> compare_weights ks w w = Returned [].
Proof.
  intros Hw. induction ks as [|k ks IH]; simpl; [reflexivity|].
  destruct w as [o|]; [|now discriminate Hw].
  simpl. rewrite IH by discriminate. simpl. now rewrite neq_num_refl.
Qed.

Lemma compare_formulas_same (f : option (Js.Obj string)) (ks : list string) :
  (f = None -> ks = []) -> compare_formulas ks f f = Returned [].
Proof.
  intros Hf. induction ks as [|k ks IH]; simpl; [reflexivity|].
  destruct f as [o|]; [|now discriminate Hf].
  simpl. rewrite IH by discriminate. simpl. now rewrite neq_str_refl.
Qed.

(** The arithmetic on well-known values: the double nearest to 0.1; the
    sum of the doubles nearest to 0.1 and 0.2, which is not the double
    nearest to 0.3; a tie, which goes to the even significand; the least
    subnormal number and the underflow to zero; the overflow. *)
Lemma double_arithmetic :
  Double.of_Q (1 # 10) = Finite (3602879701896397 # 36028797018963968) /\
  Double.add (Double.of_Q (1 # 10)) (Double.of_Q (2 # 10)) = Finite (1351079888211149 # 4503599627370496) /\
  Double.of_Q (3 # 10) = Finite (5404319552844595 # 18014398509481984) /\
  Double.of_Q (inject_Z (2 ^ 53 + 1)) = Finite (inject_Z (2 ^ 53)) /\
  Double.of_Q (inject_Z (2 ^ 53 + 3)) = Finite (inject_Z (2 ^ 53 + 4)) /\
  Double.of_Q (2 ^ (-1074)) = Finite (Qred (2 ^ (-1074))) /\
  Double.of_Q (2 ^ (-1075)) = Finite 0 /\
  Double.mul (Double.of_Q (inject_Z (10 ^ 308))) 100 = PosInf /\
  Double.sub PosInf PosInf = NaN.
Proof. repeat split; vm_compute; reflexivity. Qed.

(** [x - x]: zero for a finite [x], [NaN] for an infinity and for
    [NaN]. *)
Lemma sub_same (x : Num) :
  Double.sub x x = match x with Finite _ => Finite 0 | _ => NaN end.
Proof.
  destruct x as [v| | |]; try reflexivity.
  unfold Double.sub, Double.opp, Double.add, Double.of_Q.
  assert (E : Qeq_bool (v + - v) 0 = true) by (apply Qeq_bool_iff; ring).
  now rewrite E.
Qed.

(** Two comparisons with the same weights, formulas and final score: no
    weight change, no formula change, and the difference of the final
    score with itself. *)
Lemma diff_pair_same (v1 v2 : Comparison) :
  weights v1 = weights v2 -> formulas v1 = formulas v2 ->
  final_score v1 = final_score v2 ->
  exists d, diff_pair v1 v2 = Returned d /\
            weight_changes d = [] /\ formula_changes d = [] /\
            score_change d = match final_score v1 with
                             | Finite _ => Finite 0
                             | _ => NaN
                             end.
Proof.
  intros Hw Hf Hs. unfold diff_pair. rewrite <- Hw, <- Hf, <- Hs.
  rewrite compare_weights_same by (intros ->; reflexivity).
  rewrite compare_formulas_same by (intros ->; reflexivity).
  simpl. eexists. split; [reflexivity|]. cbn.
  split; [reflexivity|]. split; [reflexivity|]. apply sub_same.
Qed.

Lemma calculateDifferences_two (v1 v2 : Comparison) :
  calculateDifferences [v1; v2] =
  match diff_pair v1 v2 with
  | Threw e => Threw e
  | Returned d => Returned [d]
  end.
Proof.
  unfold calculateDifferences; simpl. unfold diff_at; simpl.
  now destruct (diff_pair v1 v2).
Qed.

(** A comparison compared with itself, whatever carries it. *)
Lemma calculateDifferences_same (c : Comparison) :
  exists d, calculateDifferences [c; c] = Returned [d] /\
            weight_changes d = [] /\ formula_changes d = [] /\
            score_change d = match final_score c with
                             | Finite _ => Finite 0
                             | _ => NaN
                             end.
Proof.
  destruct (diff_pair_same c c eq_refl eq_refl eq_refl) as [d [Hd H]].
  exists d. now rewrite calculateDifferences_two, Hd.
Qed.

(** The weight changes of a diff name weights of the older side only. *)
Lemma weight_changes_old_keys (v1 v2 : Comparison) (d : Diff) :
  diff_pair v1 v2 = Returned d ->
  forall c, In c (weight_changes d) -> In (wc_competency c) (Js.for_in_keys (weights v1)).
Proof.
  unfold diff_pair; intros H c Hc.
  destruct (compare_weights _ _ _) as [e|wc] eqn:E; simpl in H; [discriminate|].
  destruct (compare_formulas _ _ _); simpl in H; [discriminate|].
  inversion H; subst; simpl in Hc.
  eapply compare_weights_keys; eauto.
Qed.

(** C1 (as the code has it): the route [POST /api/scoring/compare] calls
    [this.calculateDifferences(comparisons)], and [this] is the exports
    object of the module, which has no such property: on a request for two
    stored versions the call throws, the handler answers 500 with the
    message of the [TypeError], and no differences are returned -- although
    [calculateDifferences], called on the same comparisons, returns the one
    diff from V1 to V2. *)
Theorem compare_route_differences_not_returned :
  let req := Demo.compare_12 (Some [("accuracy", 80)]) in
  compare_route Demo.evaluate Demo.no_outage req Demo.store_ab
  = {| response := fail_with 500 "this.calculateDifferences is not a function";
       store := Demo.store_ab;
       trace := [Called SelectVersions;
                 Evaluated "accuracy" (Some [("accuracy", 80)]);
                 Evaluated "accuracy" (Some [("accuracy", 80)])] |}
  /\ exists comparisons d,
       outcome (compare_prefix Demo.evaluate Demo.no_outage req Demo.store_ab)
         = Returned (inr comparisons) /\
       List.length comparisons = 2%nat /\
       calculateDifferences comparisons = Returned [d] /\
       from d = "V1" /\ to d = "V2".
Proof.
  split; [vm_compute; reflexivity|].
  eexists; eexists. split; [vm_compute; reflexivity|].
  split; [reflexivity|]. split; [vm_compute; reflexivity|].
  split; reflexivity.
Qed.

(** C2 (as the code has it): the loop of [calculateDifferences] over the
    weights walks the properties of the older side only.  Version V2 adds
    the weight [focus], absent from V1; the diff from V1 to V2 has an empty
    list of weight changes. *)
Theorem added_weight_not_reported :
  let v1 := Demo.comparison "V1" 1 40 Demo.cfg_a in
  let v2 := Demo.comparison "V2" 2 40 Demo.cfg_b in
  Js.prop (weights v1) "focus" = Returned None /\
  Js.prop (weights v2) "focus" = Returned (Some (1 # 2)) /\
  exists d, calculateDifferences [v1; v2] = Returned [d] /\
            weight_changes d = [] /\ formula_changes d = [].
Proof.
  split; [reflexivity|]. split; [reflexivity|].
  eexists. split; [vm_compute; reflexivity|]. split; reflexivity.
Qed.

(** Two stored versions that carry the same configuration, scored in the
    same test environment -- or both without one -- and handed to
    [calculateDifferences], give one diff, with no weight change and no
    formula change.  The two final scores are the same; the score change
    is 0 when that final score is a finite number, and [NaN] when it is an
    infinity or [NaN]. *)
Lemma compare_with_itself (evaluate : string -> option Env -> Outcome Q)
    (test_data : option Env) (va vb : VersionRow) (s : Store)
    (comparisons : list Comparison) :
  row_config va = row_config vb ->
  outcome (score_versions evaluate test_data [va; vb] s) = Returned comparisons ->
  exists c1 c2 d,
    comparisons = [c1; c2] /\
    final_score c1 = final_score c2 /\
    calculateDifferences comparisons = Returned [d] /\
    weight_changes d = [] /\ formula_changes d = [] /\
    score_change d = match final_score c1 with
                     | Finite _ => Finite 0
                     | _ => NaN
                     end.
Proof.
  intros Hcfg H.
  apply score_versions_each in H.
  inversion H as [|v1 c1 vs1 cs1 H1 Hrest]; subst.
  inversion Hrest as [|v2 c2 vs2 cs2 H2 Hnil]; subst.
  inversion Hnil; subst.
  rewrite score_version_run in H1, H2. cbn [outcome] in H1, H2.
  unfold version_entries in H1, H2. rewrite <- Hcfg in H2.
  destruct (outcome (score_formulas _ _ _ _ _ _ _)) as [e|x]; [discriminate|].
  inversion H1; inversion H2; subst.
  destruct (diff_pair_same
              {| version_name := row_version_name va; version_id := row_id va;
                 description := row_description va; final_score := round2 (snd x);
                 competencies := fst x;
                 formulas := competency_formulas (row_config va);
                 weights := final_weights (row_config va) |}
              {| version_name := row_version_name vb; version_id := row_id vb;
                 description := row_description vb; final_score := round2 (snd x);
                 competencies := fst x;
                 formulas := competency_formulas (row_config va);
                 weights := final_weights (row_config va) |}
              eq_refl eq_refl eq_refl) as [d [Hd Hrest']].
  eexists; eexists; exists d. split; [reflexivity|]. split; [reflexivity|].
  now rewrite calculateDifferences_two, Hd.
Qed.

(** C7 (as the code has it): a configuration compared with itself does
    not always give a score change of 0.  The configuration has one
    competency, named [constructor], and gives it no weight.  The compare
    handlers read [final_weights["constructor"]], which every object
    inherits from [Object.prototype]: the weight is the inherited function,
    the weighted score and the final score are [NaN].  For two versions
    with this configuration, scored on the same test data,
    [calculateDifferences] reports no weight change, no formula change,
    and the score change [NaN - NaN], which is [NaN]. *)
Theorem self_comparison_score_change_is_nan :
  let req := Demo.compare_12 (Some [("accuracy", 80)]) in
  exists c1 c2 d,
    map row_config (scoring_versions Demo.store_unweighted)
      = [Demo.cfg_unweighted; Demo.cfg_unweighted] /\
    outcome (compare_prefix Demo.evaluate Demo.no_outage req Demo.store_unweighted)
      = Returned (inr [c1; c2]) /\
    competencies c1
      = [("constructor", {| vs_raw := 80; vs_weight := None; vs_weighted := NaN;
                            vs_formula := "accuracy" |})] /\
    competencies c2 = competencies c1 /\
    final_score c1 = NaN /\ final_score c2 = NaN /\
    calculateDifferences [c1; c2] = Returned [d] /\
    weight_changes d = [] /\ formula_changes d = [] /\
    score_change d = NaN.
Proof.
  cbv zeta. eexists; eexists; eexists.
  split; [reflexivity|]. split; [vm_compute; reflexivity|].
  split; [vm_compute; reflexivity|]. split; [reflexivity|].
  split; [reflexivity|]. split; [reflexivity|].
  split; [vm_compute; reflexivity|]. repeat split.
Qed.

(* ------------------------------------------------------------------ *)
(** ** Scores *)

Lemma score_versions_clamped (evaluate : string -> option Env -> Outcome Q)
    (td : option Env) (vs : list VersionRow) (s : Store) (cs : list Comparison) :
  outcome (score_versions evaluate td vs s) = Returned cs ->
  forall c k v, In c cs -> In (k, v) (competencies c) ->
  0 <= vs_raw v /\ vs_raw v <= 100.
Proof.
  intros H c k v Hc Hkv.
  apply score_versions_each in H.
  induction H as [|v0 c0 vs0 cs0 H0 _ IH]; [destruct Hc|].
  destruct Hc as [<-|Hc]; [|now apply IH].
  rewrite score_version_run in H0. cbn [outcome] in H0.
  destruct (outcome (score_formulas _ _ _ _ _ _ _)) as [e|x] eqn:E; [discriminate|].
  inversion H0; subst c0; simpl in Hkv.
  eapply score_formulas_clamped; eauto. intros ? ? [].
Qed.

(** C4: every [raw] in an answer of the preview handlers and of
    [compareVersions], and every [raw] of the comparisons that the two
    compare handlers compute, lies between 0 and 100, whatever the
    formulas evaluate to. *)
Theorem raw_scores_within_0_100
    (testFormula : string -> Env -> TestResponse)
    (evaluate : string -> option Env -> Outcome Q)
    (outage : StoreCall -> option string)
    (preview : PreviewRequest) (compare : CompareRequest) (s : Store) (x : Q) :
  In x (raws_of (response (preview_route testFormula preview s))) \/
  In x (raws_of (response (previewScores testFormula preview s))) \/
  In x (raws_of (response (compareVersions evaluate outage compare s))) \/
  (exists comparisons,
     outcome (compare_prefix evaluate outage compare s) = Returned (inr comparisons) /\
     In x (raws_of_comparisons comparisons)) ->
  0 <= x /\ x <= 100.
Proof.
  assert (Hpreview : forall missing,
            In x (raws_of (response (try_catch
                    (preview_body testFormula missing preview) s))) ->
            0 <= x /\ x <= 100).
  { intros missing Hx.
    destruct (preview_body_answers testFormula missing preview s)
      as [[code [error E]]|[formulas [ws [tv [sc [total [_ [Hloop E]]]]]]]];
      rewrite E in Hx; cbn in Hx; [destruct Hx|].
    apply in_map_iff in Hx. destruct Hx as [[k v] [<- Hkv]].
    eapply preview_loop_clamped; eauto. intros ? ? []. }
  assert (Hcompare : forall cs,
            outcome (compare_prefix evaluate outage compare s) = Returned (inr cs) ->
            In x (raws_of_comparisons cs) -> 0 <= x /\ x <= 100).
  { intros cs Hp Hx.
    apply compare_prefix_scored in Hp.
    destruct Hp as [gt [ids [_ [_ [_ [Hsc _]]]]]].
    apply in_flat_map in Hx. destruct Hx as [c [Hc Hx]].
    apply in_map_iff in Hx. destruct Hx as [[k v] [<- Hkv]].
    eapply score_versions_clamped; eauto. }
  intros [Hx|[Hx|[Hx|[cs [Hp Hx]]]]].
  - exact (Hpreview _ Hx).
  - exact (Hpreview _ Hx).
  - destruct (compareVersions_answers evaluate outage compare s)
      as [[code [error E]]|[cs [Hp [E _]]]];
      rewrite E in Hx; cbn in Hx; [destruct Hx|].
    exact (Hcompare cs Hp Hx).
  - exact (Hcompare cs Hp Hx).
Qed.

Lemma raw_scores_within_0_100_witness :
  let preview := {| pv_game_type := Some "memory";
                    pv_formulas := Some [("focus", "250"); ("calm", "0 - 40")];
                    pv_weights := Some [("focus", 1 # 2)];
                    pv_test_variables := Some [("accuracy", 80)] |} in
  map (fun f => Demo.testFormula (snd f) [("accuracy", 80)])
      [("focus", "250"); ("calm", "0 - 40")] = [TestOk 250; TestOk (- (40))] /\
  raws_of (response (preview_route Demo.testFormula preview Demo.store_ab)) = [100; 0] /\
  0 <= 100 /\ 100 <= 100.
Proof.
  cbv zeta. split; [reflexivity|]. split; [reflexivity|].
  apply (@raw_scores_within_0_100 Demo.testFormula Demo.evaluate Demo.no_outage
           {| pv_game_type := Some "memory";
              pv_formulas := Some [("focus", "250"); ("calm", "0 - 40")];
              pv_weights := Some [("focus", 1 # 2)];
              pv_test_variables := Some [("accuracy", 80)] |}
           (Demo.compare_12 None) Demo.store_ab 100).
  left. vm_compute. left. reflexivity.
Defined.

(** What a preview answers with scores: the scores of all formulas, as
    assigned, and the rounded total of all weighted scores. *)
Lemma preview_scores (testFormula : string -> Env -> TestResponse)
    (missing : string) (req : PreviewRequest) (s : Store)
    (scores : ScoreResult) (tv : Env) :
  body (response (try_catch (preview_body testFormula missing req) s))
    = PreviewData scores tv ->
  exists formulas ws all,
    pv_formulas req = Some formulas /\
    pv_weights req = Some ws /\
    pv_test_variables req = Some tv /\
    Forall2 (scored_from testFormula ws tv) formulas all /\
    sr_competencies scores = Js.from_assignments all /\
    sr_final_score scores = round2 (total_of (map (fun kv => weighted (snd kv)) all)).
Proof.
  rewrite try_catch_run. cbn [response]. unfold preview_body.
  destruct (pv_formulas req) as [formulas|]; [|cbn; discriminate].
  destruct (pv_weights req) as [ws|]; [|cbn; discriminate].
  destruct (pv_test_variables req) as [tv0|]; [|cbn; discriminate].
  destruct (Js.truthy_str (pv_game_type req)); [|cbn; discriminate].
  rewrite bind_run.
  destruct (outcome (preview_loop _ _ _ _ _ _ _)) as [e|[early|[sc total]]] eqn:E;
    cbn; intros H.
  - discriminate.
  - apply preview_loop_early in E. destruct E as [error ->]. discriminate.
  - inversion H; subst; cbn.
    apply preview_loop_scores in E. destruct E as [all [Hall [Hs Ht]]].
    exists formulas, ws, all. rewrite Hs, Ht. auto 10.
Qed.

(** [Math.round(x * 100) / 100] is not the rounding to two decimals with a
    tie going up.  The double nearest to 0.015 is below 0.015, so that its
    rounding to two decimals is 0.01; its product with 100 is rounded to
    the double 1.5, which [Math.round] takes to 2: the result is the double
    nearest to 0.02.  And the double nearest to 1.005 is taken to 1. *)
Lemma round2_is_not_half_up :
  exists x : Q,
    Double.of_Q (15 # 1000) = Finite x /\
    x < 15 # 1000 /\
    rounds_half_up_2dp x (1 # 100) /\
    round2 x = Double.of_Q (2 # 100) /\
    round2 (Double.of_Q (1005 # 1000)) = Finite 1.
Proof.
  eexists. split; [vm_compute; reflexivity|].
  split; [reflexivity|]. split.
  - split; [exists 1%Z; reflexivity|]. split; [discriminate|reflexivity].
  - split; vm_compute; reflexivity.
Qed.

(** A competency named as a member of [Object.prototype] and without a
    weight makes the final score of a preview [NaN]. *)
Lemma preview_inherited_weight :
  let req := {| pv_game_type := Some "memory";
                pv_formulas := Some [("constructor", "accuracy")];
                pv_weights := Some [];
                pv_test_variables := Some [("accuracy", 80)] |} in
  response (preview_route Demo.testFormula req Demo.store_ab)
  = ok (PreviewData
          {| sr_final_score := NaN;
             sr_competencies :=
               [("constructor", {| raw := 80; weight := None; weighted := NaN |})] |}
          [("accuracy", 80)]).
Proof. vm_compute. reflexivity. Qed.

(** C5 (as the code has it): the final score of a preview is not the
    rounded sum of the weighted scores of its competencies.  The request
    has two formulas, [accuracy] and [__proto__], each with the weight 0.5.
    The handlers compute a score for both and add both weighted scores, 40
    and 50, to the total; but the assignment [scores["__proto__"] = ...]
    runs the setter that [scores] inherits and gives [scores] no property.
    The answer lists the one competency [accuracy], whose weighted score is
    40, and has the final score 90. *)
Theorem final_score_counts_unlisted_competency :
  let req := {| pv_game_type := Some "memory";
                pv_formulas := Some [("accuracy", "accuracy"); ("__proto__", "250")];
                pv_weights := Some [("accuracy", 1 # 2); ("__proto__", 1 # 2)];
                pv_test_variables := Some [("accuracy", 80)] |} in
  let answer :=
    ok (PreviewData
          {| sr_final_score := 90;
             sr_competencies :=
               [("accuracy", {| raw := 80; weight := Some (1 # 2); weighted := 40 |})] |}
          [("accuracy", 80)]) in
  response (preview_route Demo.testFormula req Demo.store_ab) = answer /\
  response (previewScores Demo.testFormula req Demo.store_ab) = answer /\
  round2 (total_of [Finite 40]) = 40.
Proof.
  cbv zeta. split; [vm_compute; reflexivity|]. split; vm_compute; reflexivity.
Qed.

(* ------------------------------------------------------------------ *)
(** ** Comparing without a test environment *)

(** Whatever the evaluator answers, and with or without [test_data], the
    compare handlers evaluate the first formula of the first fetched
    version as soon as two versions are fetched. *)
Lemma compare_evaluates_first_formula
    (evaluate : string -> option Env -> Outcome Q)
    (outage : StoreCall -> option string)
    (req : CompareRequest) (s : Store)
    (game_type : string) (version_ids : list nat)
    (v : VersionRow) (vs : list VersionRow)
    (name formula : string) (more : list (string * string)) :
  cmp_game_type req = Some game_type ->
  cmp_version_ids req = Some version_ids ->
  Js.truthy_str (Some game_type) && (2 <=? List.length version_ids)%nat = true ->
  outage SelectVersions = None ->
  found_versions game_type version_ids s = v :: vs ->
  vs <> [] ->
  version_entries v = (name, formula) :: more ->
  exists tail,
    evaluations (trace (compareVersions evaluate outage req s))
      = (formula, cmp_test_data req) :: tail /\
    evaluations (trace (compare_route evaluate outage req s))
      = (formula, cmp_test_data req) :: tail.
Proof.
  intros Hg Hi Hok Ho Hfound Hvs Hentries.
  rewrite (proj1 (compare_route_trace evaluate outage req s)).
  enough (exists tail,
            evaluations (trace (compareVersions evaluate outage req s))
              = (formula, cmp_test_data req) :: tail)
    as [tail Ht] by (exists tail; auto).
  unfold compareVersions. rewrite try_catch_run, bind_run. cbn [trace].
  assert (Hp : exists o tail,
             compare_prefix evaluate outage req s =
             {| outcome := o; store_after := s;
                emitted := Called SelectVersions
                             :: Evaluated formula (cmp_test_data req) :: tail |}).
  { unfold compare_prefix. rewrite Hi, Hg, Hok.
    rewrite bind_run, fetch_versions_run, Ho. cbn [outcome store_after emitted].
    rewrite Hfound.
    destruct vs as [|v2 vs]; [congruence|]. cbn [List.length Nat.ltb Nat.leb].
    rewrite bind_run, score_versions_cons, score_version_run.
    cbn [outcome store_after emitted]. rewrite Hentries, score_formulas_cons.
    destruct (evaluate formula (cmp_test_data req)) as [e|result];
      cbn [outcome store_after emitted app]; [eauto|].
    destruct (final_weights (row_config v)) as [ws|];
      cbn [outcome store_after emitted app]; [|eauto].
    destruct (outcome (score_formulas _ _ _ _ _ _ _));
      cbn [outcome store_after emitted app]; [eauto|].
    destruct (outcome (score_versions _ _ _ _));
      cbn [outcome store_after emitted app]; rewrite score_versions_store; eauto. }
  destruct Hp as [o [tail ->]]. cbn [outcome store_after emitted].
  destruct o as [e|[early|cs]]; cbn; eauto.
Qed.

(** C6 (as the code has it): a compare request without [test_data], for
    two stored versions whose formulas use no variable.  Both handlers
    evaluate the formulas, with [undefined] for the environment;
    [compareVersions] answers with the scored versions and no diff, and
    the route answers with a failure. *)
Lemma compare_without_test_data_evaluates :
  let req := Demo.compare_12 None in
  let h := compareVersions Demo.evaluate Demo.no_outage req Demo.store_const in
  let h' := compare_route Demo.evaluate Demo.no_outage req Demo.store_const in
  cmp_test_data req = None /\
  evaluations (trace h) = [("250", None); ("0 - 40", None)] /\
  evaluations (trace h') = [("250", None); ("0 - 40", None)] /\
  raws_of (response h) = [100; 0] /\
  ~ structural_only h /\ ~ structural_only h'.
Proof.
  cbv zeta. split; [reflexivity|]. split; [reflexivity|]. split; [reflexivity|].
  split; [reflexivity|].
  split; intros [H _]; vm_compute in H; discriminate.
Qed.

(** C6 (amended): when [compareVersions] answers with comparisons -- with
    or without [test_data] in the request -- every formula of every
    fetched version has been evaluated, in order, in the environment of
    the request ([undefined] when it carries none); the route has made the
    same evaluations; the answer carries no diff and, for each fetched
    version, in order, one comparison built from these evaluations: the
    columns of the version, its formulas and weights, for every formula
    the score (the result of the evaluation clamped to 0..100 as raw
    score, [final_weights[name] || 0] as weight, their product as weighted
    score) assigned under the name of the formula, and as final score
    [Math.round(total * 100) / 100] of the total of all weighted scores. *)
Theorem compare_evaluates_every_formula
    (evaluate : string -> option Env -> Outcome Q)
    (outage : StoreCall -> option string)
    (req : CompareRequest) (s : Store)
    (comparisons : list Comparison) (differences : option (list Diff))
    (td : option Env) :
  body (response (compareVersions evaluate outage req s))
    = CompareData comparisons differences td ->
  exists game_type version_ids,
    cmp_game_type req = Some game_type /\
    cmp_version_ids req = Some version_ids /\
    evaluations (trace (compareVersions evaluate outage req s))
      = flat_map (fun v => map (fun e => (snd e, cmp_test_data req)) (version_entries v))
                 (found_versions game_type version_ids s) /\
    evaluations (trace (compare_route evaluate outage req s))
      = evaluations (trace (compareVersions evaluate outage req s)) /\
    List.length comparisons = List.length (found_versions game_type version_ids s) /\
    Forall2 (scored_version evaluate (cmp_test_data req))
            (found_versions game_type version_ids s) comparisons /\
    differences = None /\ td = cmp_test_data req.
Proof.
  intros Hb.
  destruct (compareVersions_answers evaluate outage req s)
    as [[code [error E]]|[cs [Hp [E Ht]]]]; rewrite E in Hb; cbn in Hb;
    [discriminate|].
  inversion Hb; subst; clear Hb.
  apply compare_prefix_scored in Hp.
  destruct Hp as [gt [ids [Hg [Hi [_ [Hsc Hem]]]]]].
  exists gt, ids. split; [exact Hg|]. split; [exact Hi|].
  split.
  { rewrite Ht, Hem. cbn. eapply score_versions_evaluations; eauto. }
  split.
  { now rewrite (proj1 (compare_route_trace evaluate outage req s)). }
  split.
  { apply score_versions_each in Hsc. symmetry. eapply Forall2_length; eauto. }
  split; [|auto].
  eapply score_versions_scored; exact Hsc.
Qed.

Lemma compare_evaluates_every_formula_witness :
  let req := Demo.compare_12 None in
  exists comparisons,
    body (response (compareVersions Demo.evaluate Demo.no_outage req Demo.store_const))
      = CompareData comparisons None None /\
    map final_score comparisons = [round2 50; round2 0] /\
    map competencies comparisons
      = [[("focus", {| vs_raw := 100; vs_weight := Some (1 # 2); vs_weighted := 50;
                       vs_formula := "250" |})];
         [("focus", {| vs_raw := 0; vs_weight := Some (1 # 2); vs_weighted := 0;
                       vs_formula := "0 - 40" |})]] /\
    evaluations (trace (compareVersions Demo.evaluate Demo.no_outage req
                                        Demo.store_const))
      = [("250", None); ("0 - 40", None)] /\
    Forall2 (scored_version Demo.evaluate None)
            (scoring_versions Demo.store_const) comparisons.
Proof.
  cbv zeta. eexists. split; [vm_compute; reflexivity|].
  split; [vm_compute; reflexivity|]. split; [vm_compute; reflexivity|].
  destruct (@compare_evaluates_every_formula Demo.evaluate Demo.no_outage
              (Demo.compare_12 None) Demo.store_const _ None None eq_refl)
    as [gt [ids [Hg [Hi [He [_ [_ [Hsc _]]]]]]]].
  inversion Hg; inversion Hi; subst. split; [exact He|exact Hsc].
Defined.

(* ------------------------------------------------------------------ *)
(** ** Submitting a game *)

(** C3: when a submit handler has called the scoring calculator and the
    calculator has failed, the answer is the 500 failure with the message
    of the error, it carries no score, the store is as it was -- no
    session, no telemetry -- and no insert has been attempted. *)
Theorem scoring_failure_aborts_submit
    (calculateScores : string -> Config -> Json -> Outcome ScoreResult)
    (now : string) (outage : StoreCall -> option string)
    (req : SubmitRequest) (s : Store) (h : Handled)
    (game_type : string) (config : Config) (raw_data : Json) (e : string) :
  h = submit_route calculateScores now outage req s \/
  h = submitGame calculateScores now outage req s ->
  In (Scored game_type config raw_data) (trace h) ->
  calculateScores game_type config raw_data = Threw e ->
  response h = fail_with 500 e /\
  raws_of (response h) = [] /\
  store h = s /\
  test_sessions (store h) = test_sessions s /\
  action_receipts (store h) = action_receipts s /\
  store_calls (trace h) = [SelectActive].
Proof.
  intros Hh Hin Hthrew.
  assert (Hrun : submit_run calculateScores now outage req s h).
  { destruct Hh as [-> | ->]; [apply submit_route_run|apply submitGame_run]. }
  clear Hh. destruct Hrun; cbn in Hin;
    repeat match goal with
           | H : _ \/ _ |- _ => destruct H
           | H : False |- _ => destruct H
           | H : Called _ = Scored _ _ _ |- _ => discriminate H
           | H : Scored _ _ _ = Scored _ _ _ |- _ => inversion H; subst; clear H
           end;
    try congruence.
  assert (e0 = e) by congruence. subst e0.
  cbn. repeat split.
Qed.

Lemma scoring_failure_aborts_submit_witness :
  let req := {| sub_game_type := Some "memory";
                sub_user_id := Some "user-1";
                sub_raw_data := Some (JObj [("speed", JNum 3)]) |} in
  let h := submit_route Demo.calculateScores "2024-01-01T00:00:00.000Z"
                        Demo.no_outage req Demo.store_ab in
  trace h = [Called SelectActive;
             Scored "memory" Demo.cfg_b (JObj [("speed", JNum 3)])] /\
  response h = fail_with 500 "Formula error in accuracy: Undefined variable: accuracy" /\
  store h = Demo.store_ab.
Proof.
  cbv zeta. split; [reflexivity|].
  destruct (@scoring_failure_aborts_submit Demo.calculateScores
              "2024-01-01T00:00:00.000Z" Demo.no_outage
              {| sub_game_type := Some "memory";
                 sub_user_id := Some "user-1";
                 sub_raw_data := Some (JObj [("speed", JNum 3)]) |}
              Demo.store_ab _ "memory" Demo.cfg_b (JObj [("speed", JNum 3)])
              "Formula error in accuracy: Undefined variable: accuracy"
              (or_introl eq_refl))
    as [Hr [_ [Hs _]]].
  - right; left; reflexivity.
  - reflexivity.
  - split; [exact Hr|exact Hs].
Defined.

(** C10: a submit handler inserts the receipt only after the store has
    accepted the session, which carries the scores of the calculator.
    When the insert of the receipt is then answered with an error, the
    handler answers with the 500 failure, and the store keeps the session
    and has no new receipt; otherwise the store has both. *)
Theorem receipt_failure_keeps_session
    (calculateScores : string -> Config -> Json -> Outcome ScoreResult)
    (now : string) (outage : StoreCall -> option string)
    (req : SubmitRequest) (s : Store) (h : Handled) :
  h = submit_route calculateScores now outage req s \/
  h = submitGame calculateScores now outage req s ->
  In (Called InsertReceipt) (trace h) ->
  store_calls (trace h) = [SelectActive; InsertSession; InsertReceipt] /\
  outage InsertSession = None /\
  exists session game_type config raw_data,
    test_sessions (store h) = (test_sessions s ++ [session])%list /\
    In (Scored game_type config raw_data) (trace h) /\
    calculateScores game_type config raw_data = Returned (ses_final_scores session) /\
    match outage InsertReceipt with
    | Some e =>
        response h = fail_with 500 e /\
        action_receipts (store h) = action_receipts s
    | None =>
        status (response h) = 200%nat /\
        action_receipts (store h)
          = (action_receipts s ++ [{| rec_session_id := ses_id session;
                                      rec_raw_data := raw_data |}])%list
    end.
Proof.
  intros Hh Hin.
  assert (Hrun : submit_run calculateScores now outage req s h).
  { destruct Hh as [-> | ->]; [apply submit_route_run|apply submitGame_run]. }
  clear Hh. destruct Hrun; cbn in Hin;
    repeat match goal with
           | H : _ \/ _ |- _ => destruct H
           | H : False |- _ => destruct H
           | H : Called _ = Called _ |- _ => discriminate H
           | H : Scored _ _ _ = Called _ |- _ => discriminate H
           end.
  - cbn. split; [reflexivity|]. split; [assumption|].
    exists (new_session now s user_id game_type config scores),
           game_type, (row_config config), raw_data.
    split; [reflexivity|]. split; [now right; left|]. split; [assumption|].
    match goal with H : outage InsertReceipt = _ |- _ => rewrite H end. auto.
  - cbn. split; [reflexivity|]. split; [assumption|].
    exists (new_session now s user_id game_type config scores),
           game_type, (row_config config), raw_data.
    split; [reflexivity|]. split; [now right; left|]. split; [assumption|].
    match goal with H : outage InsertReceipt = _ |- _ => rewrite H end. auto.
Qed.

Lemma receipt_failure_keeps_session_witness :
  let outage := fun c => match c with
                         | InsertReceipt => Some "canceling statement due to statement timeout"
                         | _ => None
                         end in
  let req := {| sub_game_type := Some "memory";
                sub_user_id := Some "user-1";
                sub_raw_data := Some (JObj [("accuracy", JNum 80)]) |} in
  let h := submit_route Demo.calculateScores "2024-01-01T00:00:00.000Z" outage req
                        Demo.store_ab in
  response h = fail_with 500 "canceling statement due to statement timeout" /\
  map ses_id (test_sessions (store h)) = [3%nat] /\
  map (fun x => sr_final_score (ses_final_scores x)) (test_sessions (store h))
    = [round2 80] /\
  action_receipts (store h) = [] /\
  store_calls (trace h) = [SelectActive; InsertSession; InsertReceipt].
Proof.
  cbv zeta.
  destruct (@receipt_failure_keeps_session Demo.calculateScores
              "2024-01-01T00:00:00.000Z"
              (fun c => match c with
                        | InsertReceipt => Some "canceling statement due to statement timeout"
                        | _ => None
                        end)
              {| sub_game_type := Some "memory";
                 sub_user_id := Some "user-1";
                 sub_raw_data := Some (JObj [("accuracy", JNum 80)]) |}
              Demo.store_ab _ (or_introl eq_refl))
    as [Hcalls [_ [session [gt [cfg [raw [_ [_ [_ [Hresp Hrec]]]]]]]]]].
  - cbn. right; right; right; left; reflexivity.
  - split; [exact Hresp|]. split; [reflexivity|]. split; [reflexivity|].
    split; [exact Hrec|exact Hcalls].
Defined.

(* ------------------------------------------------------------------ *)
(** ** Saving a version *)

Lemma store_calls_validated (es : list (string * string)) :
  store_calls (map (fun e => Validated (snd e)) es) = [].
Proof. induction es; cbn; auto. Qed.

Lemma store_calls_after_validation (es : list (string * string)) (cs : list StoreCall) :
  store_calls (map (fun e => Validated (snd e)) es ++ map Called cs) = cs.
Proof.
  unfold store_calls. rewrite flat_map_app.
  fold (store_calls (map (fun e => Validated (snd e)) es)).
  rewrite store_calls_validated. cbn.
  induction cs; cbn; [reflexivity|]. now f_equal.
Qed.

Lemma valid_not_exists_invalid (validateFormula : string -> Validation)
    (es : list (string * string)) :
  Forall (fun e => validateFormula (snd e) = Valid) es ->
  Exists (fun e => validateFormula (snd e) <> Valid) es -> False.
Proof.
  intros Hf He. apply Exists_exists in He. destruct He as [x [Hx Hn]].
  rewrite Forall_forall in Hf. auto.
Qed.

(** C8: in the save handler the validation of the formulas comes before
    every call on the store, and a call on the store is made only after
    every formula of the configuration has been found valid.  When a
    formula of the configuration is not valid, the answer is the 400
    failure that names the competency of such a formula, the store is as
    it was, and no call on the store has been made. *)
Theorem save_validates_before_persisting
    (validateFormula : string -> Validation)
    (get_next_version_name : Store -> string -> string)
    (outage : StoreCall -> option string)
    (req : SaveRequest) (s : Store) (h : Handled) :
  h = save_route validateFormula get_next_version_name outage req s ->
  (exists checked calls,
     trace h = (map Validated checked ++ map Called calls)%list /\
     (calls = [] -> store h = s) /\
     (calls <> [] ->
      exists config,
        sv_config req = Some config /\
        checked = map snd (Js.entries (or_empty (competency_formulas config))) /\
        Forall (fun f => validateFormula f = Valid) checked))
  /\
  (forall config,
     sv_config req = Some config ->
     Js.truthy_str (sv_game_type req) = true ->
     Exists (fun e => validateFormula (snd e) <> Valid)
            (Js.entries (or_empty (competency_formulas config))) ->
     exists name formula error,
       In (name, formula) (Js.entries (or_empty (competency_formulas config))) /\
       validateFormula formula = Invalid error /\
       response h = fail_with 400 ("Invalid formula for " ++ name ++ ": " ++ error) /\
       store h = s /\
       store_calls (trace h) = []).
Proof.
  intros ->.
  destruct (save_route_run validateFormula get_next_version_name outage req s)
    as [Hmiss
       | game_type config pre name formula error post Hg Hc Hes Hpre Hinv
       | game_type config e Hg Hc Hall Hrpc
       | game_type config e Hg Hc Hall Hrpc Hins
       | game_type config Hg Hc Hall Hrpc Hins]; cbn [trace store response].
  - split.
    + exists [], []. split; [reflexivity|]. split; [reflexivity|congruence].
    + intros config Hc Ht _. destruct Hmiss; congruence.
  - split.
    + exists (map snd (pre ++ [(name, formula)])), [].
      rewrite map_map, app_nil_r. split; [reflexivity|].
      split; [reflexivity|congruence].
    + intros config0 Hc0 _ _. assert (config0 = config) by congruence. subst config0.
      exists name, formula, error. rewrite Hes.
      split; [apply in_or_app; right; now left|].
      split; [exact Hinv|]. split; [reflexivity|]. split; [reflexivity|].
      apply store_calls_validated.
  - split.
    + exists (map snd (Js.entries (or_empty (competency_formulas config)))),
             [RpcNextVersionName].
      rewrite map_map. split; [reflexivity|]. split; [discriminate|].
      intros _. exists config. split; [exact Hc|]. split; [reflexivity|].
      now apply Forall_map.
    + intros config0 Hc0 _ Hex. assert (config0 = config) by congruence. subst config0.
      destruct (valid_not_exists_invalid _ Hall Hex).
  - split.
    + exists (map snd (Js.entries (or_empty (competency_formulas config)))),
             [RpcNextVersionName; DeactivateActive; InsertVersion].
      rewrite map_map. split; [reflexivity|]. split; [discriminate|].
      intros _. exists config. split; [exact Hc|]. split; [reflexivity|].
      now apply Forall_map.
    + intros config0 Hc0 _ Hex. assert (config0 = config) by congruence. subst config0.
      destruct (valid_not_exists_invalid _ Hall Hex).
  - split.
    + exists (map snd (Js.entries (or_empty (competency_formulas config)))),
             [RpcNextVersionName; DeactivateActive; InsertVersion].
      rewrite map_map. split; [reflexivity|]. split; [discriminate|].
      intros _. exists config. split; [exact Hc|]. split; [reflexivity|].
      now apply Forall_map.
    + intros config0 Hc0 _ Hex. assert (config0 = config) by congruence. subst config0.
      destruct (valid_not_exists_invalid _ Hall Hex).
Qed.

Lemma save_validates_before_persisting_witness :
  let config := {| competency_formulas :=
                     Some [("accuracy", "accuracy"); ("focus", "250 +"); ("calm", "250")];
                   final_weights := Some [("accuracy", 1 # 2)] |} in
  let req := {| sv_game_type := Some "memory"; sv_user_id := Some "user-1";
                sv_description := None; sv_config := Some config |} in
  let h := save_route Demo.validateFormula Demo.get_next_version_name Demo.no_outage
                      req Demo.store_ab in
  Demo.validateFormula "250 +" = Invalid "Cannot parse: 250 +" /\
  trace h = [Validated "accuracy"; Validated "250 +"] /\
  exists name formula error,
    In (name, formula) (Js.entries (or_empty (competency_formulas config))) /\
    Demo.validateFormula formula = Invalid error /\
    response h = fail_with 400 ("Invalid formula for " ++ name ++ ": " ++ error) /\
    store h = Demo.store_ab /\
    store_calls (trace h) = [].
Proof.
  cbv zeta. split; [reflexivity|]. split; [reflexivity|].
  refine (proj2 (@save_validates_before_persisting Demo.validateFormula
                   Demo.get_next_version_name Demo.no_outage
                   {| sv_game_type := Some "memory"; sv_user_id := Some "user-1";
                      sv_description := None;
                      sv_config :=
                        Some {| competency_formulas :=
                                  Some [("accuracy", "accuracy"); ("focus", "250 +");
                                        ("calm", "250")];
                                final_weights := Some [("accuracy", 1 # 2)] |} |}
                   Demo.store_ab _ eq_refl)
                _ eq_refl eq_refl _).
  apply Exists_cons_tl, Exists_cons_hd. cbn. discriminate.
Defined.

Lemma deactivate_none_active (game_type : string) (rows : list VersionRow) :
  filter (fun v => String.eqb (row_game_type v) game_type && row_is_active v)
         (deactivate game_type rows) = [].
Proof.
  induction rows as [|v rows IH]; cbn; [reflexivity|].
  destruct (String.eqb (row_game_type v) game_type && row_is_active v) eqn:E; cbn.
  - apply andb_prop in E. destruct E as [E _]. rewrite E. cbn. exact IH.
  - rewrite E. exact IH.
Qed.

(** When the store carries out the update, a successful save leaves the
    inserted version as the only active one of its game type. *)
Lemma save_activates_only_new_version
    (validateFormula : string -> Validation)
    (get_next_version_name : Store -> string -> string)
    (outage : StoreCall -> option string)
    (req : SaveRequest) (s : Store) (message : string) (row : VersionRow) :
  outage DeactivateActive = None ->
  response (save_route validateFormula get_next_version_name outage req s)
    = ok (SaveData message row) ->
  row_is_active row = true /\
  sv_game_type req = Some (row_game_type row) /\
  active_versions (row_game_type row)
    (store (save_route validateFormula get_next_version_name outage req s)) = [row].
Proof.
  intros Hd.
  destruct (save_route_run validateFormula get_next_version_name outage req s)
    as [Hmiss
       | game_type config pre name formula error post Hg Hc Hes Hpre Hinv
       | game_type config e Hg Hc Hall Hrpc
       | game_type config e Hg Hc Hall Hrpc Hins
       | game_type config Hg Hc Hall Hrpc Hins]; cbn [trace store response];
    try discriminate.
  intros H. inversion H; subst; clear H. cbn.
  split; [reflexivity|]. split; [exact Hg|].
  unfold active_versions, with_version. cbn.
  subst row0 s1. unfold after_deactivation. rewrite Hd. cbn.
  rewrite filter_app, deactivate_none_active. cbn.
  now rewrite String.eqb_refl.
Qed.

(** C9 (as the code has it): the save handler does not look at the answer
    of the update that deactivates the active version.  The store has V2
    active for the game type and answers the update with an error; the
    handler inserts V3 as active and answers with success: V2 and V3 are
    both active. *)
Theorem save_leaves_two_active_versions :
  let outage := fun c => match c with
                         | DeactivateActive => Some "canceling statement due to statement timeout"
                         | _ => None
                         end in
  let req := {| sv_game_type := Some "memory"; sv_user_id := Some "user-1";
                sv_description := None; sv_config := Some Demo.cfg_a |} in
  let h := save_route Demo.validateFormula Demo.get_next_version_name outage req
                      Demo.store_ab in
  map row_version_name (active_versions "memory" Demo.store_ab) = ["V2"] /\
  status (response h) = 200%nat /\
  store_calls (trace h) = [RpcNextVersionName; DeactivateActive; InsertVersion] /\
  map row_version_name (active_versions "memory" (store h)) = ["V2"; "V3"].
Proof. cbv zeta. repeat split. Qed.


(* ------------------------------------------------------------------ *)
(** ** More on [calculateDifferences] *)

Lemma for_push_ext {A B} (f g : A -> Outcome B) (xs : list A) :
  (forall x, In x xs -> f x = g x) -> for_push f xs = for_push g xs.
Proof.
  induction xs as [|x xs IH]; intros H; cbn; [reflexivity|].
  rewrite (H x (or_introl eq_refl)), IH; [reflexivity|].
  intros y Hy. apply H. now right.
Qed.

Lemma for_push_map {A B C} (f : B -> Outcome C) (h : A -> B) (xs : list A) :
  for_push f (map h xs) = for_push (fun x => f (h x)) xs.
Proof. induction xs as [|x xs IH]; cbn; [reflexivity|]. now rewrite IH. Qed.

(** The loop over [i], one pair at a time. *)
Lemma calculateDifferences_step (v1 v2 : Comparison) (rest : list Comparison) :
  calculateDifferences (v1 :: v2 :: rest) =
  (try! d <- diff_pair v1 v2;
   try! ds <- calculateDifferences (v2 :: rest);
   Returned (d :: ds)).
Proof.
  unfold calculateDifferences.
  cbn [List.length Nat.sub]. rewrite !Nat.sub_0_r.
  cbn [seq for_push]. unfold diff_at at 1. cbn [Nat.sub nth_error].
  rewrite <- seq_shift, for_push_map.
  rewrite (for_push_ext (fun x => diff_at (v1 :: v2 :: rest) (S x)) (diff_at (v2 :: rest)));
    [reflexivity|].
  intros i Hi. apply in_seq in Hi. unfold diff_at.
  destruct i as [|j]; [lia|]. cbn [Nat.sub nth_error]. now rewrite Nat.sub_0_r.
Qed.

(** The weight loop, as a filter over the names of the older side. *)
Lemma compare_weights_filter (ks : list string) (w1 : Js.Obj Q) (w2 : option (Js.Obj Q))
    (wc : list WeightChange) :
  compare_weights ks (Some w1) w2 = Returned wc ->
  wc = map (fun k => {| wc_competency := k;
                        old_weight := Js.get k w1;
                        new_weight := Js.get k (or_empty w2);
                        change := Js.sub (Js.get k (or_empty w2)) (Js.get k w1) |})
           (filter (fun k => Js.neq_num (Js.get k w1) (Js.get k (or_empty w2))) ks).
Proof.
  revert wc. induction ks as [|k ks IH]; intros wc H; cbn in H.
  - now inversion H.
  - destruct w2 as [o2|]; cbn in H; [|discriminate].
    destruct (compare_weights ks (Some w1) (Some o2)) as [e|more]; cbn in H;
      [discriminate|].
    specialize (IH more eq_refl). cbn [filter or_empty] in IH |- *.
    destruct (Js.neq_num (Js.get k w1) (Js.get k o2)); inversion H; subst wc; cbn;
      now rewrite <- IH.
Qed.

Lemma compare_formulas_filter (ks : list string) (f1 : Js.Obj string)
    (f2 : option (Js.Obj string)) (fc : list FormulaChange) :
  compare_formulas ks (Some f1) f2 = Returned fc ->
  fc = map (fun k => {| fc_competency := k;
                        old_formula := Js.get k f1;
                        new_formula := Js.get k (or_empty f2) |})
           (filter (fun k => Js.neq_str (Js.get k f1) (Js.get k (or_empty f2))) ks).
Proof.
  revert fc. induction ks as [|k ks IH]; intros fc H; cbn in H.
  - now inversion H.
  - destruct f2 as [o2|]; cbn in H; [|discriminate].
    destruct (compare_formulas ks (Some f1) (Some o2)) as [e|more]; cbn in H;
      [discriminate|].
    specialize (IH more eq_refl). cbn [filter or_empty] in IH |- *.
    destruct (Js.neq_str (Js.get k f1) (Js.get k o2)); inversion H; subst fc; cbn;
      now rewrite <- IH.
Qed.

(** X2: the changes of a diff are exactly the names of the older side
    whose value differs on the newer side, in the order of the older side
    and each once, with the old value, the new value ([undefined] for a
    name the newer side lacks) and, for a weight, the difference ([NaN]
    then); a formula counts as changed when its text differs. *)
Theorem changes_are_differing_names_of_older_side (v1 v2 : Comparison) (d : Diff)
    (w1 : Js.Obj Q) (f1 : Js.Obj string) :
  diff_pair v1 v2 = Returned d ->
  weights v1 = Some w1 ->
  formulas v1 = Some f1 ->
  weight_changes d
    = map (fun k => {| wc_competency := k;
                       old_weight := Js.get k w1;
                       new_weight := Js.get k (or_empty (weights v2));
                       change := Js.sub (Js.get k (or_empty (weights v2)))
                                        (Js.get k w1) |})
          (filter (fun k => Js.neq_num (Js.get k w1)
                                       (Js.get k (or_empty (weights v2))))
                  (Js.keys w1)) /\
  formula_changes d
    = map (fun k => {| fc_competency := k;
                       old_formula := Js.get k f1;
                       new_formula := Js.get k (or_empty (formulas v2)) |})
          (filter (fun k => Js.neq_str (Js.get k f1)
                                       (Js.get k (or_empty (formulas v2))))
                  (Js.keys f1)).
Proof.
  unfold diff_pair. intros H Hw Hf. rewrite Hw, Hf in H. cbn [Js.for_in_keys] in H.
  destruct (compare_weights _ _ _) as [e|wc] eqn:Ew; cbn [obind] in H; [discriminate|].
  destruct (compare_formulas _ _ _) as [e|fc] eqn:Ef; cbn [obind] in H; [discriminate|].
  inversion H; subst d; cbn [weight_changes formula_changes].
  split; [now apply compare_weights_filter|now apply compare_formulas_filter].
Qed.

Lemma changes_are_differing_names_of_older_side_witness :
  let older := {| competency_formulas := Some [("focus", "accuracy"); ("calm", "250")];
                  final_weights := Some [("focus", 3 # 10); ("calm", 1 # 2)] |} in
  let newer := {| competency_formulas := Some [("focus", "accuracy")];
                  final_weights := Some [("focus", 1 # 2)] |} in
  exists d,
    diff_pair (Demo.comparison "V1" 1 40 older) (Demo.comparison "V2" 2 40 newer)
      = Returned d /\
    weight_changes d
      = [ {| wc_competency := "focus"; old_weight := Some (3 # 10);
             new_weight := Some (1 # 2);
             change := Js.sub (Some (1 # 2)) (Some (3 # 10)) |};
          {| wc_competency := "calm"; old_weight := Some (1 # 2);
             new_weight := None; change := NaN |} ] /\
    formula_changes d
      = [ {| fc_competency := "calm"; old_formula := Some "250";
             new_formula := None |} ].
Proof.
  cbv zeta. eexists. split; [reflexivity|].
  exact (@changes_are_differing_names_of_older_side
           (Demo.comparison "V1" 1 40
              {| competency_formulas := Some [("focus", "accuracy"); ("calm", "250")];
                 final_weights := Some [("focus", 3 # 10); ("calm", 1 # 2)] |})
           (Demo.comparison "V2" 2 40
              {| competency_formulas := Some [("focus", "accuracy")];
                 final_weights := Some [("focus", 1 # 2)] |})
           _ _ _ eq_refl eq_refl eq_refl).
Defined.

Lemma compare_weights_undefined (k : string) (ks : list string) (w1 : Js.Obj Q) :
  exists e, compare_weights (k :: ks) (Some w1) None = Threw e.
Proof. cbn. eauto. Qed.

(** X3: [calculateDifferences] throws a [TypeError] as soon as a
    comparison without a [weights] object follows one that has a weight,
    wherever the pair stands in the list. *)
Theorem missing_weights_object_throws (pre post : list Comparison)
    (v1 v2 : Comparison) :
  Js.for_in_keys (weights v1) <> [] ->
  weights v2 = None ->
  exists e, calculateDifferences (pre ++ v1 :: v2 :: post) = Threw e.
Proof.
  intros Hk Hn. induction pre as [|p pre [e IH]].
  - cbn [app]. rewrite calculateDifferences_step. unfold diff_pair. rewrite Hn.
    destruct (weights v1) as [w1|]; [|now destruct Hk].
    cbn [Js.for_in_keys] in *. destruct (Js.keys w1) as [|k ks]; [now destruct Hk|].
    destruct (compare_weights_undefined k ks w1) as [e ->]. cbn. eauto.
  - cbn [app]. destruct pre as [|p2 pre]; cbn [app] in *.
    + rewrite calculateDifferences_step, IH.
      destruct (diff_pair p v1); cbn; eauto.
    + rewrite calculateDifferences_step, IH.
      destruct (diff_pair p p2); cbn; eauto.
Qed.

Lemma missing_weights_object_throws_witness :
  let bare := {| competency_formulas := None; final_weights := None |} in
  calculateDifferences [Demo.comparison "V1" 1 40 Demo.cfg_a;
                        Demo.comparison "V2" 2 0 bare]
  = Threw "Cannot read properties of undefined (reading 'accuracy')".
Proof.
  cbv zeta.
  destruct (@missing_weights_object_throws [] []
              (Demo.comparison "V1" 1 40 Demo.cfg_a)
              (Demo.comparison "V2" 2 0
                 {| competency_formulas := None; final_weights := None |}))
    as [e He].
  - discriminate.
  - reflexivity.
  - reflexivity.
Defined.

(* ------------------------------------------------------------------ *)
(** ** More on the preview handlers *)

Section PreviewMore.

Variable testFormula : string -> Env -> TestResponse.

Lemma preview_loop_store (es : list (string * string)) (ws : Js.Obj Q) (tv : Env) :
  forall scores total s,
  store_after (preview_loop testFormula es ws tv scores total s) = s.
Proof.
  induction es as [|[name formula] es IH]; intros scores total s; [reflexivity|].
  rewrite preview_loop_cons. destruct (testFormula formula tv); cbn; auto.
Qed.

(** The loop stops at the first formula whose test fails. *)
Lemma preview_loop_first_failure (pre post : list (string * string))
    (name formula error : string) (ws : Js.Obj Q) (tv : Env) :
  Forall (fun e => exists r, testFormula (snd e) tv = TestOk r) pre ->
  testFormula formula tv = TestFailed error ->
  forall scores total s,
  preview_loop testFormula (pre ++ (name, formula) :: post) ws tv scores total s =
  {| outcome := Returned (inl {| status := 200;
                                 body := Failure ("Formula error in " ++ name
                                                  ++ ": " ++ error) |});
     store_after := s;
     emitted := map (fun e => Tested (snd e) tv) (pre ++ [(name, formula)]) |}.
Proof.
  intros Hpre Hf. induction Hpre as [|[n f] pre [r Hr] _ IH]; intros scores total s.
  - cbn [app]. rewrite preview_loop_cons, Hf. reflexivity.
  - cbn [app]. rewrite preview_loop_cons. cbn [snd] in Hr. rewrite Hr. cbv zeta.
    rewrite IH. reflexivity.
Qed.

End PreviewMore.

Lemma scored_from_names (testFormula : string -> Env -> TestResponse)
    (ws : Js.Obj Q) (tv : Env) (es : list (string * string))
    (all : list (string * CompetencyScore)) :
  Forall2 (scored_from testFormula ws tv) es all -> map fst all = map fst es.
Proof.
  induction 1 as [|e kv es all [Hn _] _ IH]; [reflexivity|].
  cbn. now rewrite Hn, IH.
Qed.

(** X4: a preview that answers with scores has computed a score for each
    formula of the request, in the order of the formulas: the raw score is
    the clamped result of testing the formula on the test variables, the
    weight is what [weights[name] || 0] gives (the weight of that name; 0
    when there is none; not a number when there is none and the name is one
    of [Object.prototype]), the weighted score is their product as doubles.
    The answer lists these scores, in order and under the names of the
    formulas, except that of a formula named [__proto__]; its final score
    is [Math.round(total * 100) / 100] for the total of the weighted scores
    of all formulas, in order.  The formulas of the request are an object:
    their names are pairwise distinct. *)
Theorem preview_scores_follow_formulas
    (testFormula : string -> Env -> TestResponse)
    (req : PreviewRequest) (s : Store) (h : Handled)
    (scores : ScoreResult) (tv : Env) :
  h = preview_route testFormula req s \/ h = previewScores testFormula req s ->
  Js.wf (or_empty (pv_formulas req)) ->
  body (response h) = PreviewData scores tv ->
  exists formulas ws all,
    pv_formulas req = Some formulas /\
    pv_weights req = Some ws /\
    pv_test_variables req = Some tv /\
    Forall2 (scored_from testFormula ws tv) formulas all /\
    sr_competencies scores = Js.assigned all /\
    sr_final_score scores = round2 (total_of (map (fun kv => weighted (snd kv)) all)).
Proof.
  intros Hh Hwf Hb.
  assert (Hdata : exists formulas ws all,
             pv_formulas req = Some formulas /\
             pv_weights req = Some ws /\
             pv_test_variables req = Some tv /\
             Forall2 (scored_from testFormula ws tv) formulas all /\
             sr_competencies scores = Js.from_assignments all /\
             sr_final_score scores
               = round2 (total_of (map (fun kv => weighted (snd kv)) all))).
  { destruct Hh as [-> | ->]; eapply preview_scores; exact Hb. }
  destruct Hdata as [formulas [ws [all [Hf [Hw [Ht [Hall [Hsc Hfinal]]]]]]]].
  rewrite Hf in Hwf. cbn in Hwf.
  exists formulas, ws, all.
  rewrite Hsc, from_assignments_wf; [auto 10|].
  rewrite (scored_from_names Hall). exact Hwf.
Qed.

Lemma preview_scores_follow_formulas_witness :
  let req := {| pv_game_type := Some "memory";
                pv_formulas := Some [("accuracy", "accuracy"); ("__proto__", "250");
                                     ("focus", "250")];
                pv_weights := Some [("accuracy", 1 # 4); ("__proto__", 1 # 2)];
                pv_test_variables := Some [("accuracy", 80)] |} in
  exists scores,
    body (response (preview_route Demo.testFormula req Demo.store_ab))
      = PreviewData scores [("accuracy", 80)] /\
    sr_competencies scores
      = [("accuracy", {| raw := 80; weight := Some (1 # 4); weighted := 20 |});
         ("focus", {| raw := 100; weight := Some 0; weighted := 0 |})] /\
    sr_final_score scores = 70.
Proof.
  cbv zeta. eexists. split; [vm_compute; reflexivity|].
  assert (Hwf : Js.wf (or_empty (Some [("accuracy", "accuracy"); ("__proto__", "250");
                                       ("focus", "250")]))).
  { repeat constructor; simpl; intuition discriminate. }
  destruct (@preview_scores_follow_formulas Demo.testFormula
              {| pv_game_type := Some "memory";
                 pv_formulas := Some [("accuracy", "accuracy"); ("__proto__", "250");
                                      ("focus", "250")];
                 pv_weights := Some [("accuracy", 1 # 4); ("__proto__", 1 # 2)];
                 pv_test_variables := Some [("accuracy", 80)] |}
              Demo.store_ab _ _ _ (or_introl eq_refl) Hwf eq_refl)
    as [formulas [ws [all [_ [_ [_ [_ [Hsc Hfinal]]]]]]]].
  split; reflexivity.
Defined.

(** The rounding to a double of a number that is not negative is not
    negative. *)
Lemma of_Q_not_negative (q : Q) : 0 <= q -> not_negative (Double.of_Q q).
Proof.
  intros Hq. unfold Double.of_Q.
  destruct (Qeq_bool q 0); [cbn; apply Qle_refl|].
  assert (Hle : Qle_bool 0 q = true) by now apply Qle_bool_iff.
  rewrite Hle.
  set (a := Qabs q). set (k := Z.max (Double.ilog2 a - 52) (-1074)).
  destruct (Qle_bool (2 ^ 1024) (inject_Z (Double.half_even (a / 2 ^ k)) * 2 ^ k));
    [exact I|].
  cbn [not_negative]. rewrite Qred_correct.
  assert (Hp : 0 < 2 ^ k) by (apply Qpower_0_lt; reflexivity).
  assert (Ha : 0 <= a / 2 ^ k).
  { apply Qle_shift_div_l; [exact Hp|]. rewrite Qmult_0_l. apply Qabs_nonneg. }
  assert (Hn : (0 <= Double.half_even (a / 2 ^ k))%Z).
  { assert (Hf : (0 <= Qfloor (a / 2 ^ k))%Z).
    { apply Qfloor_resp_le in Ha. exact Ha. }
    unfold Double.half_even.
    destruct (Qcompare _ _); [destruct (Z.even _)| |]; lia. }
  apply Qmult_le_0_compat; [|now apply Qlt_le_weak].
  rewrite Zle_Qle in Hn. exact Hn.
Qed.

Lemma add_not_negative (a b : Num) :
  not_negative a -> not_negative b -> not_negative (Double.add a b).
Proof.
  destruct a as [x| | |], b as [y| | |]; cbn; try tauto.
  intros Hx Hy. apply of_Q_not_negative.
  rewrite <- (Qplus_0_l 0). now apply Qplus_le_compat.
Qed.

Lemma round2_not_negative (x : Num) : not_negative x -> not_negative (round2 x).
Proof.
  destruct x as [q| | |]; cbn [not_negative]; try tauto.
  intros Hq. unfold round2. cbn [Double.mul].
  assert (H : not_negative (Double.of_Q (q * 100))).
  { apply of_Q_not_negative. apply Qmult_le_0_compat; [exact Hq|discriminate]. }
  destruct (Double.of_Q (q * 100)) as [y| | |]; cbn in H |- *; try tauto.
  apply of_Q_not_negative.
  assert (Hf : (0 <= Qfloor (y + (1 # 2)))%Z).
  { assert (H0 : 0 <= y + (1 # 2)).
    { rewrite <- (Qplus_0_l 0). apply Qplus_le_compat; [exact H|discriminate]. }
    apply Qfloor_resp_le in H0. exact H0. }
  rewrite Zle_Qle in Hf.
  apply Qle_shift_div_l; [reflexivity|]. rewrite Qmult_0_l. exact Hf.
Qed.

Lemma weight_or_0_not_negative (ws : Js.Obj Q) (name : string) (w : Q) :
  (forall k w, In (k, w) ws -> 0 <= w) ->
  weight_or_0 ws name = Some w -> 0 <= w.
Proof.
  intros Hw. unfold weight_or_0.
  destruct (Js.get name ws) as [w0|] eqn:Eg.
  - intros H; inversion H; subst w0. clear H.
    induction ws as [|[k0 w0] ws IH]; [discriminate|].
    cbn in Eg. destruct (String.eqb name k0).
    + inversion Eg; subst. apply (Hw k0). now left.
    + apply IH; [|exact Eg]. intros k w' Hin. apply (Hw k). now right.
  - destruct (Js.inherited name); [discriminate|].
    intros H; inversion H. apply Qle_refl.
Qed.

(** X5: when the weights of a preview request are finite numbers, none of
    them negative, and every formula named as a member of
    [Object.prototype] has a weight of its own, no weighted score and no
    total is negative or [NaN]: the final score of the answer is a number
    that is not negative, or [Infinity]. *)
Theorem preview_final_score_not_negative
    (testFormula : string -> Env -> TestResponse)
    (req : PreviewRequest) (s : Store) (h : Handled)
    (scores : ScoreResult) (tv : Env) :
  h = preview_route testFormula req s \/ h = previewScores testFormula req s ->
  (forall k w, In (k, w) (or_empty (pv_weights req)) -> 0 <= w) ->
  (forall name formula,
     In (name, formula) (or_empty (pv_formulas req)) ->
     Js.inherited name = true ->
     Js.get name (or_empty (pv_weights req)) <> None) ->
  body (response h) = PreviewData scores tv ->
  not_negative (sr_final_score scores) /\
  forall name c, In (name, c) (sr_competencies scores) ->
                 exists w, weight c = Some w /\ 0 <= w /\ not_negative (weighted c).
Proof.
  intros Hh Hpos Hown Hb.
  assert (Hdata : exists formulas ws all,
             pv_formulas req = Some formulas /\
             pv_weights req = Some ws /\
             pv_test_variables req = Some tv /\
             Forall2 (scored_from testFormula ws tv) formulas all /\
             sr_competencies scores = Js.from_assignments all /\
             sr_final_score scores
               = round2 (total_of (map (fun kv => weighted (snd kv)) all))).
  { destruct Hh as [-> | ->]; eapply preview_scores; exact Hb. }
  destruct Hdata as [formulas [ws [all [Hf [Hw [Ht [Hall [Hsc Hfinal]]]]]]]].
  rewrite Hf, Hw in Hown. rewrite Hw in Hpos. cbn in Hown, Hpos.
  assert (Hgood : Forall (fun kv => exists w, weight (snd kv) = Some w /\ 0 <= w /\
                                              not_negative (weighted (snd kv))) all).
  { clear Hsc Hfinal Hf. induction Hall as [|e kv es all [Hn [r [_ Hkv]]] _ IH];
      constructor.
    - assert (He : exists w, weight_or_0 ws (fst e) = Some w).
      { unfold weight_or_0.
        destruct (Js.get (fst e) ws) as [w|] eqn:Eg; [now exists w|].
        destruct (Js.inherited (fst e)) eqn:Ei; [|now exists 0].
        exfalso. apply (Hown (fst e) (snd e)); [left; now destruct e|exact Ei|exact Eg]. }
      destruct He as [w He]. exists w. rewrite Hkv. cbn. rewrite He.
      pose proof (weight_or_0_not_negative ws (fst e) Hpos He) as H0.
      split; [reflexivity|]. split; [exact H0|].
      cbn. apply of_Q_not_negative.
      apply Qmult_le_0_compat; [apply clamp_0_100_range|exact H0].
    - apply IH. intros name formula Hin. apply (Hown name formula). now right. }
  split.
  - rewrite Hfinal. apply round2_not_negative.
    unfold total_of.
    assert (Hacc : forall acc, not_negative acc ->
              not_negative (fold_left Double.add
                              (map (fun kv => weighted (snd kv)) all) acc)).
    { clear - Hgood. induction Hgood as [|kv all [w [_ [_ Hkv]]] _ IH]; intros acc Ha;
        [exact Ha|].
      cbn. apply IH. now apply add_not_negative. }
    apply Hacc. cbn. apply Qle_refl.
  - intros name c Hin. rewrite Hsc in Hin.
    assert (Hsub : forall (l : list (string * CompetencyScore)) o,
              In (name, c) (fold_left (fun o e => Js.set (fst e) (snd e) o) l o) ->
              In (name, c) o \/ exists k, In (k, c) l).
    { induction l as [|[k v] l IHl]; intros o Ho; [now left|].
      cbn in Ho. apply IHl in Ho. destruct Ho as [Ho|[k' Hk']].
      - apply set_In in Ho. destruct Ho as [->|Ho]; [|now left].
        right. exists k. now left.
      - right. exists k'. now right. }
    apply Hsub in Hin. destruct Hin as [[]|[k Hk]].
    rewrite Forall_forall in Hgood. exact (Hgood (k, c) Hk).
Qed.

Lemma preview_final_score_not_negative_witness :
  let req := {| pv_game_type := Some "memory";
                pv_formulas := Some [("accuracy", "accuracy"); ("constructor", "250")];
                pv_weights := Some [("accuracy", 1 # 2); ("constructor", 3 # 4)];
                pv_test_variables := Some [("accuracy", 80)] |} in
  exists scores,
    body (response (preview_route Demo.testFormula req Demo.store_ab))
      = PreviewData scores [("accuracy", 80)] /\
    sr_final_score scores = 115 /\
    not_negative (sr_final_score scores).
Proof.
  cbv zeta. eexists. split; [vm_compute; reflexivity|].
  split; [reflexivity|].
  refine (proj1 (@preview_final_score_not_negative Demo.testFormula
            {| pv_game_type := Some "memory";
               pv_formulas := Some [("accuracy", "accuracy"); ("constructor", "250")];
               pv_weights := Some [("accuracy", 1 # 2); ("constructor", 3 # 4)];
               pv_test_variables := Some [("accuracy", 80)] |}
            Demo.store_ab _ _ _ (or_introl eq_refl) _ _ eq_refl)).
  - cbn. intros k w [H|[H|[]]]; inversion H; subst; discriminate.
  - cbn. intros name formula [H|[H|[]]] _; inversion H; subst; discriminate.
Defined.

(** X6: a preview stops at the first formula whose test fails: it answers
    with the failure that names the competency of that formula and carries
    the error of the test, it has tested the formulas up to that one and
    none after it, and it answers no score. *)
Theorem preview_stops_at_first_failure
    (testFormula : string -> Env -> TestResponse)
    (req : PreviewRequest) (s : Store)
    (pre post : list (string * string)) (name formula error : string)
    (ws : Js.Obj Q) (tv : Env) :
  Js.truthy_str (pv_game_type req) = true ->
  pv_formulas req = Some (pre ++ (name, formula) :: post)%list ->
  pv_weights req = Some ws ->
  pv_test_variables req = Some tv ->
  Forall (fun e => exists r, testFormula (snd e) tv = TestOk r) pre ->
  testFormula formula tv = TestFailed error ->
  preview_route testFormula req s
  = {| response := {| status := 200;
                      body := Failure ("Formula error in " ++ name ++ ": " ++ error) |};
       store := s;
       trace := map (fun e => Tested (snd e) tv) (pre ++ [(name, formula)]) |} /\
  previewScores testFormula req s = preview_route testFormula req s.
Proof.
  intros Hg Hf Hw Ht Hpre Hfail.
  assert (H : forall missing,
             try_catch (preview_body testFormula missing req) s
             = {| response := {| status := 200;
                                 body := Failure ("Formula error in " ++ name
                                                  ++ ": " ++ error) |};
                  store := s;
                  trace := map (fun e => Tested (snd e) tv)
                               (pre ++ [(name, formula)]) |}).
  { intros missing. rewrite try_catch_run. unfold preview_body.
    rewrite Hf, Hw, Ht, Hg, bind_run. unfold Js.entries.
    erewrite preview_loop_first_failure; [|exact Hpre|exact Hfail].
    cbn. now rewrite app_nil_r. }
  unfold preview_route, previewScores. rewrite !H. auto.
Qed.

Lemma preview_stops_at_first_failure_witness :
  let req := {| pv_game_type := Some "memory";
                pv_formulas := Some [("focus", "250"); ("calm", "250 +");
                                     ("accuracy", "accuracy")];
                pv_weights := Some [("focus", 1 # 2)];
                pv_test_variables := Some [] |} in
  preview_route Demo.testFormula req Demo.store_ab
  = {| response := {| status := 200;
                      body := Failure "Formula error in calm: Cannot parse: 250 +" |};
       store := Demo.store_ab;
       trace := [Tested "250" []; Tested "250 +" []] |}.
Proof.
  cbv zeta.
  refine (proj1 (@preview_stops_at_first_failure Demo.testFormula
                   {| pv_game_type := Some "memory";
                      pv_formulas := Some [("focus", "250"); ("calm", "250 +");
                                           ("accuracy", "accuracy")];
                      pv_weights := Some [("focus", 1 # 2)];
                      pv_test_variables := Some [] |}
                   Demo.store_ab [("focus", "250")] [("accuracy", "accuracy")]
                   "calm" "250 +" "Cannot parse: 250 +" [("focus", 1 # 2)] []
                   eq_refl eq_refl eq_refl eq_refl _ eq_refl)).
  constructor; [|constructor]. exists 250. reflexivity.
Defined.

(* ------------------------------------------------------------------ *)
(** ** More on the compare handlers *)

Lemma version_scored_from_names (evaluate : string -> option Env -> Outcome Q)
    (ws : Js.Obj Q) (td : option Env) (es : list (string * string))
    (all : list (string * VersionScore)) :
  Forall2 (version_scored_from evaluate ws td) es all -> map fst all = map fst es.
Proof.
  induction 1 as [|e kv es all [Hn _] _ IH]; [reflexivity|].
  cbn. now rewrite Hn, IH.
Qed.

Lemma filter_by_one_id (p : VersionRow -> bool) (id : nat) (rows : list VersionRow) :
  NoDup (map row_id rows) ->
  (forall v, p v = true -> row_id v = id) ->
  (List.length (filter p rows) <= 1)%nat.
Proof.
  intros Hnd Hp. induction rows as [|v rows IH]; cbn; [lia|].
  inversion Hnd as [|x l Hnotin Hnd']; subst.
  destruct (p v) eqn:Ev; [|now apply IH].
  cbn. enough (filter p rows = []) as -> by (cbn; lia).
  destruct (filter p rows) as [|w ws] eqn:Ef; [reflexivity|].
  exfalso. apply Hnotin.
  assert (Hw : In w (filter p rows)) by (rewrite Ef; now left).
  apply filter_In in Hw. destruct Hw as [Hin Hpw].
  rewrite (Hp v Ev), <- (Hp w Hpw). now apply in_map.
Qed.

(** X7: a version cannot be compared with itself by naming it twice: when
    the ids of the stored versions are distinct and every requested id is
    the same one, both compare handlers answer 404, after the one select
    and without evaluating any formula. *)
Theorem compare_same_id_twice_not_found
    (evaluate : string -> option Env -> Outcome Q)
    (outage : StoreCall -> option string)
    (req : CompareRequest) (s : Store)
    (game_type : string) (version_ids : list nat) (id : nat) :
  cmp_game_type req = Some game_type ->
  game_type <> "" ->
  cmp_version_ids req = Some version_ids ->
  (2 <= List.length version_ids)%nat ->
  (forall i, In i version_ids -> i = id) ->
  NoDup (map row_id (scoring_versions s)) ->
  outage SelectVersions = None ->
  compareVersions evaluate outage req s
  = {| response := fail_with 404 "Could not find all specified versions";
       store := s;
       trace := [Called SelectVersions] |} /\
  compare_route evaluate outage req s = compareVersions evaluate outage req s.
Proof.
  intros Hg Hne Hi Hlen Hall Hnd Ho.
  assert (Hp : compare_prefix evaluate outage req s
               = {| outcome := Returned (inl (fail_with 404
                                 "Could not find all specified versions"));
                    store_after := s; emitted := [Called SelectVersions] |}).
  { unfold compare_prefix. rewrite Hi, Hg.
    assert (Ht : Js.truthy_str (Some game_type) = true).
    { cbn. destruct (String.eqb_spec game_type ""); [contradiction|reflexivity]. }
    rewrite Ht. apply Nat.leb_le in Hlen. rewrite Hlen. cbn [andb].
    rewrite bind_run, fetch_versions_run, Ho. cbn [outcome store_after emitted].
    assert (Hfew : (List.length (found_versions game_type version_ids s) <? 2)%nat = true).
    { apply Nat.ltb_lt. unfold found_versions.
      enough (List.length
                (filter (fun v => ((row_game_type v =? game_type)%string
                                   && existsb (Nat.eqb (row_id v)) version_ids))
                        (scoring_versions s)) <= 1)%nat by lia.
      apply filter_by_one_id with (id := id); [exact Hnd|].
      intros v Hv. apply andb_prop in Hv. destruct Hv as [_ Hv].
      apply existsb_exists in Hv. destruct Hv as [i [Hin Heq]].
      apply Nat.eqb_eq in Heq. rewrite Heq. now apply Hall. }
    rewrite Hfew. reflexivity. }
  unfold compare_route, compareVersions. rewrite !try_catch_run, !bind_run, Hp.
  cbn. auto.
Qed.

Lemma compare_same_id_twice_not_found_witness :
  let req := {| cmp_game_type := Some "memory";
                cmp_version_ids := Some [1%nat; 1%nat];
                cmp_test_data := Some [("accuracy", 80)] |} in
  compareVersions Demo.evaluate Demo.no_outage req Demo.store_aa
  = {| response := fail_with 404 "Could not find all specified versions";
       store := Demo.store_aa;
       trace := [Called SelectVersions] |}.
Proof.
  cbv zeta.
  refine (proj1 (@compare_same_id_twice_not_found Demo.evaluate Demo.no_outage
                   {| cmp_game_type := Some "memory";
                      cmp_version_ids := Some [1%nat; 1%nat];
                      cmp_test_data := Some [("accuracy", 80)] |}
                   Demo.store_aa "memory" [1%nat; 1%nat] 1%nat
                   eq_refl _ eq_refl _ _ _ eq_refl)).
  - discriminate.
  - cbn. lia.
  - cbn. intros i [H|[H|[]]]; auto.
  - cbn. repeat constructor; cbn; intuition discriminate.
Defined.

(** X8: when [compareVersions] answers, its comparisons are the fetched
    versions, one for one and in the order of the store: each echoes the
    id, name, description, formulas and weights of its version.  When the
    formulas of the version have pairwise distinct names, the comparison
    lists, in order and under the names of the formulas, the scores
    computed for them, except that of a formula named [__proto__], and its
    final score is [Math.round(total * 100) / 100] for the total of the
    weighted scores of all formulas. *)
Theorem comparisons_echo_versions
    (evaluate : string -> option Env -> Outcome Q)
    (outage : StoreCall -> option string)
    (req : CompareRequest) (s : Store)
    (comparisons : list Comparison) (differences : option (list Diff))
    (td : option Env) :
  body (response (compareVersions evaluate outage req s))
    = CompareData comparisons differences td ->
  exists game_type version_ids,
    cmp_game_type req = Some game_type /\
    cmp_version_ids req = Some version_ids /\
    Forall2 (fun v c =>
               version_id c = row_id v /\
               version_name c = row_version_name v /\
               description c = row_description v /\
               formulas c = competency_formulas (row_config v) /\
               weights c = final_weights (row_config v) /\
               (Js.wf (version_entries v) ->
                exists all,
                  Forall2 (version_scored_from evaluate
                             (or_empty (final_weights (row_config v)))
                             (cmp_test_data req))
                          (version_entries v) all /\
                  competencies c = Js.assigned all /\
                  final_score c
                  = round2 (total_of (map (fun kv => vs_weighted (snd kv)) all))))
            (found_versions game_type version_ids s) comparisons.
Proof.
  intros Hb.
  destruct (compareVersions_answers evaluate outage req s)
    as [[code [error E]]|[cs [Hp [E Ht]]]]; rewrite E in Hb; cbn in Hb;
    [discriminate|].
  inversion Hb; subst; clear Hb.
  apply compare_prefix_scored in Hp.
  destruct Hp as [gt [ids [Hg [Hi [_ [Hsc _]]]]]].
  exists gt, ids. split; [exact Hg|]. split; [exact Hi|].
  apply score_versions_scored in Hsc.
  eapply Forall2_impl; [|exact Hsc]. intros v c Hv. cbv beta in Hv.
  destruct Hv as [Hname [Hid [Hd [Hf [Hw [all [Hall [Hc Hfinal]]]]]]]].
  repeat (split; [assumption|]).
  intros Hwf. exists all. split; [exact Hall|]. split; [|exact Hfinal].
  rewrite Hc. apply from_assignments_wf.
  rewrite (version_scored_from_names Hall). exact Hwf.
Qed.

Lemma comparisons_echo_versions_witness :
  let req := Demo.compare_12 (Some [("accuracy", 80)]) in
  exists comparisons,
    body (response (compareVersions Demo.evaluate Demo.no_outage req Demo.store_ab))
      = CompareData comparisons None (Some [("accuracy", 80)]) /\
    map version_name comparisons = ["V1"; "V2"] /\
    map weights comparisons
      = [final_weights Demo.cfg_a; final_weights Demo.cfg_b] /\
    map final_score comparisons = [Finite 40; Finite 40] /\
    Forall2 (fun v c => version_id c = row_id v)
            (scoring_versions Demo.store_ab) comparisons.
Proof.
  cbv zeta. eexists. split; [vm_compute; reflexivity|].
  destruct (@comparisons_echo_versions Demo.evaluate Demo.no_outage
              (Demo.compare_12 (Some [("accuracy", 80)])) Demo.store_ab
              _ None (Some [("accuracy", 80)]) eq_refl)
    as [gt [ids [Hg [Hi Hall]]]].
  inversion Hg; inversion Hi; subst.
  split; [reflexivity|]. split; [reflexivity|]. split; [reflexivity|].
  eapply Forall2_impl; [|exact Hall]. intros v c H. exact (proj1 H).
Defined.

(* ------------------------------------------------------------------ *)
(** ** More on the submit handlers *)

Section SubmitMore.

Variable calculateScores : string -> Config -> Json -> Outcome ScoreResult.
Variable now : string.
Variable outage : StoreCall -> option string.

(** The three fields of the request, all present and truthy. *)
Lemma submit_fields (req : SubmitRequest) :
  (Js.truthy_str (sub_game_type req) && Js.truthy_str (sub_user_id req)
   && truthy_json (sub_raw_data req)) = true ->
  exists game_type user_id raw_data,
    sub_game_type req = Some game_type /\
    sub_user_id req = Some user_id /\
    sub_raw_data req = Some raw_data.
Proof.
  intros H. apply andb_prop in H. destruct H as [H H3].
  apply andb_prop in H. destruct H as [H1 H2].
  destruct (sub_game_type req) as [g|]; [|discriminate].
  destruct (sub_user_id req) as [u|]; [|discriminate].
  destruct (sub_raw_data req) as [r|]; [|discriminate].
  exists g, u, r. auto.
Qed.

Lemma submit_refused (req : SubmitRequest) (s : Store) :
  (Js.truthy_str (sub_game_type req) && Js.truthy_str (sub_user_id req)
   && truthy_json (sub_raw_data req)) = false ->
  try_catch (submit_body calculateScores now outage req) s
  = {| response := fail_with 400 "Missing required fields: game_type, user_id, raw_data";
       store := s; trace := [] |}.
Proof.
  intros H. unfold submit_body.
  destruct (sub_game_type req) as [g|]; [|reflexivity].
  destruct (sub_user_id req) as [u|]; [|reflexivity].
  destruct (sub_raw_data req) as [r|]; [|reflexivity].
  rewrite H. reflexivity.
Qed.

Lemma submit_not_found (req : SubmitRequest) (s : Store) (game_type : string) :
  (Js.truthy_str (sub_game_type req) && Js.truthy_str (sub_user_id req)
   && truthy_json (sub_raw_data req)) = true ->
  sub_game_type req = Some game_type ->
  outage SelectActive <> None \/ single (active_versions game_type s) = None ->
  try_catch (submit_body calculateScores now outage req) s
  = {| response := fail_with 404
                     ("No active scoring configuration found for " ++ game_type);
       store := s; trace := [Called SelectActive] |}.
Proof.
  intros Ht Hg Hnone.
  destruct (submit_fields req Ht) as [g [u [r [Hg' [Hu Hr]]]]].
  unfold submit_body. rewrite Ht, Hg', Hu, Hr.
  assert (g = game_type) by congruence. subst g.
  unfold try_catch, select_active.
  destruct (outage SelectActive) as [e0|] eqn:E0; cbn; [reflexivity|].
  fold (active_versions game_type s).
  destruct Hnone as [Hc|Hc]; [congruence|]. rewrite Hc. reflexivity.
Qed.

Lemma submit_found (req : SubmitRequest) (s : Store)
    (game_type : string) (raw_data : Json) (config : VersionRow) :
  (Js.truthy_str (sub_game_type req) && Js.truthy_str (sub_user_id req)
   && truthy_json (sub_raw_data req)) = true ->
  sub_game_type req = Some game_type ->
  sub_raw_data req = Some raw_data ->
  outage SelectActive = None ->
  single (active_versions game_type s) = Some config ->
  exists tail,
    trace (try_catch (submit_body calculateScores now outage req) s)
      = Called SelectActive :: Scored game_type (row_config config) raw_data :: tail /\
    forall message session_id version_used scores,
      response (try_catch (submit_body calculateScores now outage req) s)
        = ok (SubmitData message session_id version_used scores) ->
      version_used = row_version_name config /\
      calculateScores game_type (row_config config) raw_data = Returned scores.
Proof.
  intros Ht Hg Hr Ho Hc.
  destruct (submit_fields req Ht) as [g [u [r [Hg' [Hu Hr']]]]].
  unfold submit_body. rewrite Ht, Hg', Hu, Hr'.
  assert (g = game_type) by congruence. assert (r = raw_data) by congruence. subst g r.
  unfold try_catch, select_active, insert_session, insert_receipt.
  rewrite Ho. cbn. fold (active_versions game_type s). rewrite Hc. cbn.
  destruct (calculateScores game_type (row_config config) raw_data) as [e|scores] eqn:Es;
    cbn.
  { eexists; split; [reflexivity|]. discriminate. }
  destruct (outage InsertSession) as [e1|] eqn:E1; cbn.
  { eexists; split; [reflexivity|]. discriminate. }
  destruct (outage InsertReceipt) as [e2|] eqn:E2; cbn.
  { eexists; split; [reflexivity|]. discriminate. }
  eexists; split; [reflexivity|].
  intros m sid vu sc H. inversion H; subst. auto.
Qed.

End SubmitMore.

Lemma single_length {A} (l : list A) : List.length l <> 1%nat -> single l = None.
Proof. destruct l as [|a [|b l]]; cbn; intros H; congruence. Qed.

(** X9: a submit finds its configuration with [.single()]: when the game
    type has no active version, or more than one, both submit handlers
    answer 404 after the one select; the calculator is not called and the
    store is left as it was. *)
Theorem submit_needs_exactly_one_active_version
    (calculateScores : string -> Config -> Json -> Outcome ScoreResult)
    (now : string) (outage : StoreCall -> option string)
    (req : SubmitRequest) (s : Store) (game_type : string) :
  (Js.truthy_str (sub_game_type req) && Js.truthy_str (sub_user_id req)
   && truthy_json (sub_raw_data req)) = true ->
  sub_game_type req = Some game_type ->
  List.length (active_versions game_type s) <> 1%nat ->
  submit_route calculateScores now outage req s
  = {| response := fail_with 404
                     ("No active scoring configuration found for " ++ game_type);
       store := s; trace := [Called SelectActive] |} /\
  submitGame calculateScores now outage req s
  = submit_route calculateScores now outage req s.
Proof.
  intros Ht Hg Hlen. split; [|reflexivity].
  apply submit_not_found; auto. right. now apply single_length.
Qed.

Lemma submit_needs_exactly_one_active_version_witness :
  let two_active :=
    {| scoring_versions := [Demo.version 1 "V1" true Demo.cfg_a;
                            Demo.version 2 "V2" true Demo.cfg_b];
       test_sessions := []; action_receipts := []; serial := 3 |} in
  let req := {| sub_game_type := Some "memory";
                sub_user_id := Some "user-1";
                sub_raw_data := Some (JObj [("accuracy", JNum 80)]) |} in
  List.length (active_versions "memory" two_active) = 2%nat /\
  submit_route Demo.calculateScores "2024-01-01T00:00:00.000Z" Demo.no_outage req
               two_active
  = {| response := fail_with 404 "No active scoring configuration found for memory";
       store := two_active; trace := [Called SelectActive] |}.
Proof.
  cbv zeta. split; [reflexivity|].
  refine (proj1 (@submit_needs_exactly_one_active_version Demo.calculateScores
                   "2024-01-01T00:00:00.000Z" Demo.no_outage
                   {| sub_game_type := Some "memory";
                      sub_user_id := Some "user-1";
                      sub_raw_data := Some (JObj [("accuracy", JNum 80)]) |}
                   {| scoring_versions := [Demo.version 1 "V1" true Demo.cfg_a;
                                           Demo.version 2 "V2" true Demo.cfg_b];
                      test_sessions := []; action_receipts := []; serial := 3 |}
                   "memory" eq_refl eq_refl _)).
  cbn. discriminate.
Defined.

(** X10: a submit that answers with success has stored what it answers:
    the session whose id is in the answer, for the user and the game type
    of the request, with the scores of the answer, the status
    [completed] and the id of the active version, whose name is in the
    answer; and the receipt of that session, with the raw data of the
    request as it came.  The versions are as they were. *)
Theorem submit_success_is_persisted
    (calculateScores : string -> Config -> Json -> Outcome ScoreResult)
    (now : string) (outage : StoreCall -> option string)
    (req : SubmitRequest) (s : Store) (h : Handled)
    (message : string) (session_id : nat) (version_used : string)
    (scores : ScoreResult) :
  h = submit_route calculateScores now outage req s \/
  h = submitGame calculateScores now outage req s ->
  response h = ok (SubmitData message session_id version_used scores) ->
  exists game_type user_id raw_data config,
    sub_game_type req = Some game_type /\
    sub_user_id req = Some user_id /\
    sub_raw_data req = Some raw_data /\
    single (active_versions game_type s) = Some config /\
    version_used = row_version_name config /\
    calculateScores game_type (row_config config) raw_data = Returned scores /\
    test_sessions (store h)
      = (test_sessions s ++ [{| ses_id := session_id;
                                ses_user_id := user_id;
                                ses_game_type := game_type;
                                ses_scoring_version_id := row_id config;
                                ses_status := "completed";
                                ses_final_scores := scores;
                                ses_completed_at := now |}])%list /\
    action_receipts (store h)
      = (action_receipts s ++ [{| rec_session_id := session_id;
                                  rec_raw_data := raw_data |}])%list /\
    scoring_versions (store h) = scoring_versions s.
Proof.
  intros Hh Hr.
  assert (Hrun : submit_run calculateScores now outage req s h).
  { destruct Hh as [-> | ->]; [apply submit_route_run|apply submitGame_run]. }
  clear Hh. destruct Hrun; cbn in Hr; try discriminate.
  inversion Hr; subst; clear Hr.
  exists game_type, user_id, raw_data, config. cbn. repeat split; auto.
Qed.

Lemma submit_success_is_persisted_witness :
  let req := {| sub_game_type := Some "memory";
                sub_user_id := Some "user-1";
                sub_raw_data := Some (JObj [("accuracy", JNum 80)]) |} in
  let h := submit_route Demo.calculateScores "2024-01-01T00:00:00.000Z"
                        Demo.no_outage req Demo.store_ab in
  exists scores,
    response h = ok (SubmitData "Game submitted successfully" 3 "V2" scores) /\
    map ses_id (test_sessions (store h)) = [3%nat] /\
    action_receipts (store h)
      = [{| rec_session_id := 3; rec_raw_data := JObj [("accuracy", JNum 80)] |}].
Proof.
  cbv zeta. eexists. split; [vm_compute; reflexivity|].
  destruct (@submit_success_is_persisted Demo.calculateScores
              "2024-01-01T00:00:00.000Z" Demo.no_outage
              {| sub_game_type := Some "memory";
                 sub_user_id := Some "user-1";
                 sub_raw_data := Some (JObj [("accuracy", JNum 80)]) |}
              Demo.store_ab _ "Game submitted successfully" 3%nat "V2" _
              (or_introl eq_refl) eq_refl)
    as [gt [uid [raw [cfg [_ [_ [Hraw [_ [_ [_ [Hs [Hr _]]]]]]]]]]]].
  inversion Hraw; subst raw.
  split; [rewrite Hs; reflexivity|exact Hr].
Defined.

Lemma receipts_refer_app (s s' : Store) (new_sessions : list SessionRow) :
  test_sessions s' = (test_sessions s ++ new_sessions)%list ->
  action_receipts s' = action_receipts s ->
  receipts_refer s -> receipts_refer s'.
Proof.
  intros Hs Hr H r Hin. rewrite Hr in Hin. destruct (H r Hin) as [x [Hx Hid]].
  exists x. rewrite Hs. split; [apply in_or_app; now left|exact Hid].
Qed.

(** X11: a submit only appends: whatever it answers, the versions are
    untouched, the sessions and the receipts that were stored are still
    there, unchanged and in place, at most one session is added, and a
    receipt is added only with its session; so if every stored receipt
    referred to a stored session before, every one does after. *)
Theorem submit_only_appends
    (calculateScores : string -> Config -> Json -> Outcome ScoreResult)
    (now : string) (outage : StoreCall -> option string)
    (req : SubmitRequest) (s : Store) (h : Handled) :
  h = submit_route calculateScores now outage req s \/
  h = submitGame calculateScores now outage req s ->
  scoring_versions (store h) = scoring_versions s /\
  (exists new_sessions new_receipts,
     test_sessions (store h) = (test_sessions s ++ new_sessions)%list /\
     action_receipts (store h) = (action_receipts s ++ new_receipts)%list /\
     (List.length new_receipts <= List.length new_sessions <= 1)%nat /\
     forall r, In r new_receipts ->
               exists x, In x new_sessions /\ ses_id x = rec_session_id r) /\
  (receipts_refer s -> receipts_refer (store h)).
Proof.
  intros Hh.
  assert (Hrun : submit_run calculateScores now outage req s h).
  { destruct Hh as [-> | ->]; [apply submit_route_run|apply submitGame_run]. }
  clear Hh.
  assert (Hsame : store h = s ->
            scoring_versions (store h) = scoring_versions s /\
            (exists new_sessions new_receipts,
               test_sessions (store h) = (test_sessions s ++ new_sessions)%list /\
               action_receipts (store h) = (action_receipts s ++ new_receipts)%list /\
               (List.length new_receipts <= List.length new_sessions <= 1)%nat /\
               forall r, In r new_receipts ->
                         exists x, In x new_sessions /\ ses_id x = rec_session_id r) /\
            (receipts_refer s -> receipts_refer (store h))).
  { intros ->. split; [reflexivity|]. split; [|auto].
    exists [], []. rewrite !app_nil_r. cbn. repeat split; auto. intros r []. }
  destruct Hrun; try (apply Hsame; reflexivity); cbn [store].
  - split; [reflexivity|]. split.
    + exists [new_session now s user_id game_type config scores], [].
      cbn. rewrite app_nil_r.
      split; [reflexivity|]. split; [reflexivity|]. split; [lia|]. intros r [].
    + eapply receipts_refer_app; reflexivity.
  - split; [reflexivity|]. split.
    + exists [session], [{| rec_session_id := ses_id session; rec_raw_data := raw_data |}].
      cbn. split; [reflexivity|]. split; [reflexivity|]. split; [lia|].
      intros r [<-|[]]. exists session. split; [now left|reflexivity].
    + intros Hrefer r Hin. cbn in Hin |- *.
      apply in_app_or in Hin. destruct Hin as [Hin|[<-|[]]].
      * destruct (Hrefer r Hin) as [x [Hx Hid]]. exists x.
        split; [apply in_or_app; now left|exact Hid].
      * eexists. split; [apply in_or_app; right; now left|reflexivity].
Qed.

Lemma submit_only_appends_witness :
  let req := {| sub_game_type := Some "memory";
                sub_user_id := Some "user-1";
                sub_raw_data := Some (JObj [("accuracy", JNum 80)]) |} in
  let h := submit_route Demo.calculateScores "2024-01-01T00:00:00.000Z"
                        Demo.no_outage req Demo.store_ab in
  scoring_versions (store h) = scoring_versions Demo.store_ab /\
  List.length (test_sessions (store h)) = 1%nat /\
  receipts_refer (store h).
Proof.
  cbv zeta.
  destruct (@submit_only_appends Demo.calculateScores "2024-01-01T00:00:00.000Z"
              Demo.no_outage
              {| sub_game_type := Some "memory";
                 sub_user_id := Some "user-1";
                 sub_raw_data := Some (JObj [("accuracy", JNum 80)]) |}
              Demo.store_ab _ (or_introl eq_refl)) as [Hv [_ Hrefer]].
  split; [exact Hv|]. split; [reflexivity|].
  apply Hrefer. intros r [].
Defined.

(** X12: the submit handlers answer 400 exactly when one of [game_type],
    [user_id] and [raw_data] is missing or falsy (an empty string, or raw
    data that is [0], [false] or [null]); then nothing is read or written.
    In every other case the first thing they do is the select of the active
    version. *)
Theorem submit_refuses_exactly_falsy_fields
    (calculateScores : string -> Config -> Json -> Outcome ScoreResult)
    (now : string) (outage : StoreCall -> option string)
    (req : SubmitRequest) (s : Store) :
  let complete := Js.truthy_str (sub_game_type req) && Js.truthy_str (sub_user_id req)
                  && truthy_json (sub_raw_data req) in
  let h := submit_route calculateScores now outage req s in
  (complete = false <-> status (response h) = 400%nat) /\
  (complete = false <-> trace h = []) /\
  (complete = false -> store h = s) /\
  (complete = true -> exists tail, trace h = Called SelectActive :: tail) /\
  submitGame calculateScores now outage req s = h.
Proof.
  cbv zeta.
  destruct (Js.truthy_str (sub_game_type req) && Js.truthy_str (sub_user_id req)
            && truthy_json (sub_raw_data req)) eqn:Ht.
  - destruct (submit_fields req Ht) as [g [u [r [Hg [Hu Hr]]]]].
    assert (H : status (response (submit_route calculateScores now outage req s))
                  <> 400%nat /\
                exists tail, trace (submit_route calculateScores now outage req s)
                             = Called SelectActive :: tail).
    { unfold submit_route, submit_body. rewrite Ht, Hg, Hu, Hr.
      unfold try_catch, select_active, insert_session, insert_receipt.
      destruct (outage SelectActive) as [e0|]; cbn.
      { split; [discriminate|eexists; reflexivity]. }
      destruct (single _) as [config|]; cbn.
      2:{ split; [discriminate|eexists; reflexivity]. }
      destruct (calculateScores g (row_config config) r) as [e|scores]; cbn.
      { split; [discriminate|eexists; reflexivity]. }
      destruct (outage InsertSession) as [e1|]; cbn.
      { split; [discriminate|eexists; reflexivity]. }
      destruct (outage InsertReceipt) as [e2|]; cbn;
        (split; [discriminate|eexists; reflexivity]). }
    destruct H as [Hstatus [tail Htrace]].
    split; [split; [discriminate|intros Hc; now elim Hstatus]|].
    split; [split; [discriminate|intros Hc; rewrite Htrace in Hc; discriminate]|].
    split; [discriminate|]. split; [|reflexivity]. intros _. now exists tail.
  - unfold submit_route. rewrite (submit_refused calculateScores now outage req s Ht).
    cbn. split; [tauto|]. split; [tauto|]. split; [reflexivity|].
    split; [discriminate|]. unfold submitGame.
    now rewrite (submit_refused calculateScores now outage req s Ht).
Qed.

(* ------------------------------------------------------------------ *)
(** ** More on the save route *)

Lemma with_active_same (v : VersionRow) : with_active (row_is_active v) v = v.
Proof. now destruct v. Qed.

Lemma kept_by_save_same (req : SaveRequest) (rows : list VersionRow) :
  Forall2 (kept_by_save req) rows rows.
Proof.
  induction rows as [|v rows IH]; constructor; auto.
  split; [apply with_active_same|now left].
Qed.

Lemma kept_by_save_deactivate (req : SaveRequest) (game_type : string)
    (rows : list VersionRow) :
  sv_game_type req = Some game_type ->
  Forall2 (kept_by_save req) rows (deactivate game_type rows).
Proof.
  intros Hg. induction rows as [|v rows IH]; cbn; constructor; auto.
  destruct (String.eqb (row_game_type v) game_type && row_is_active v) eqn:E.
  - apply andb_prop in E. destruct E as [E1 E2]. apply String.eqb_eq in E1.
    split; [destruct v; cbn in *; now subst|].
    right. cbn. rewrite E1. auto.
  - split; [apply with_active_same|now left].
Qed.

Lemma kept_by_save_after (req : SaveRequest) (outage : StoreCall -> option string)
    (game_type : string) (s : Store) :
  sv_game_type req = Some game_type ->
  Forall2 (kept_by_save req) (scoring_versions s)
          (scoring_versions (after_deactivation outage game_type s)) /\
  test_sessions (after_deactivation outage game_type s) = test_sessions s /\
  action_receipts (after_deactivation outage game_type s) = action_receipts s.
Proof.
  intros Hg. unfold after_deactivation. destruct (outage DeactivateActive); cbn.
  - split; [apply kept_by_save_same|auto].
  - split; [now apply kept_by_save_deactivate|auto].
Qed.

(** X13: what a save can change.  Sessions and receipts are never touched.
    Each stored version is still there, in place, and keeps its id, game
    type, name, description, configuration and author; the only column that
    can change is [is_active], from true to false, on versions of the game
    type of the request.  At most one version is added, and one is added
    exactly when the route answers with success: the version of the answer,
    active, for the game type, the configuration and the user of the
    request. *)
Theorem save_changes_only_activity
    (validateFormula : string -> Validation)
    (get_next_version_name : Store -> string -> string)
    (outage : StoreCall -> option string)
    (req : SaveRequest) (s : Store) :
  let h := save_route validateFormula get_next_version_name outage req s in
  test_sessions (store h) = test_sessions s /\
  action_receipts (store h) = action_receipts s /\
  exists kept added,
    scoring_versions (store h) = (kept ++ added)%list /\
    Forall2 (kept_by_save req) (scoring_versions s) kept /\
    ((added = [] /\ status (response h) <> 200%nat) \/
     exists message row,
       added = [row] /\
       response h = ok (SaveData message row) /\
       row_is_active row = true /\
       sv_game_type req = Some (row_game_type row) /\
       sv_config req = Some (row_config row) /\
       row_created_by row = sv_user_id req).
Proof.
  cbv zeta.
  destruct (save_route_run validateFormula get_next_version_name outage req s)
    as [Hmiss
       | game_type config pre name formula error post Hg Hc Hes Hpre Hinv
       | game_type config e Hg Hc Hall Hrpc
       | game_type config e Hg Hc Hall Hrpc Hins
       | game_type config Hg Hc Hall Hrpc Hins]; cbn [trace store response].
  1-3: split; [reflexivity|]; split; [reflexivity|];
       exists (scoring_versions s), []; rewrite app_nil_r;
       split; [reflexivity|]; split; [apply kept_by_save_same|];
       left; split; [reflexivity|cbn; discriminate].
  - destruct (kept_by_save_after req outage s Hg) as [Hk [Hs Hr]].
    split; [exact Hs|]. split; [exact Hr|].
    exists (scoring_versions (after_deactivation outage game_type s)), [].
    rewrite app_nil_r. split; [reflexivity|]. split; [exact Hk|].
    left. split; [reflexivity|cbn; discriminate].
  - destruct (kept_by_save_after req outage s Hg) as [Hk [Hs Hr]].
    subst s1. cbn. split; [exact Hs|]. split; [exact Hr|].
    exists (scoring_versions (after_deactivation outage game_type s)), [row].
    split; [reflexivity|]. split; [exact Hk|].
    right. exists ("Saved as " ++ versionName), row. subst row. cbn. auto 10.
Qed.

(** X14: the save route is not atomic.  When the version name was obtained
    and the deactivation carried out, a save that answers 500 has failed at
    the insert: the game type of the request is left with no active version
    and no version was added, so a complete submit for that game type is
    answered with 404 until a version is activated. *)
Theorem failed_insert_leaves_no_active_version
    (validateFormula : string -> Validation)
    (get_next_version_name : Store -> string -> string)
    (outage : StoreCall -> option string)
    (req : SaveRequest) (s : Store)
    (calculateScores : string -> Config -> Json -> Outcome ScoreResult)
    (now : string) (later : StoreCall -> option string) (sub : SubmitRequest) :
  outage RpcNextVersionName = None ->
  outage DeactivateActive = None ->
  status (response (save_route validateFormula get_next_version_name outage req s))
    = 500%nat ->
  (Js.truthy_str (sub_game_type sub) && Js.truthy_str (sub_user_id sub)
   && truthy_json (sub_raw_data sub)) = true ->
  sub_game_type sub = sv_game_type req ->
  let left := store (save_route validateFormula get_next_version_name outage req s) in
  exists game_type,
    sv_game_type req = Some game_type /\
    active_versions game_type left = [] /\
    scoring_versions left = deactivate game_type (scoring_versions s) /\
    submit_route calculateScores now later sub left
    = {| response := fail_with 404
                       ("No active scoring configuration found for " ++ game_type);
         store := left; trace := [Called SelectActive] |}.
Proof.
  intros Hrpc Hd Hst Ht Hsame. cbv zeta. revert Hst.
  destruct (save_route_run validateFormula get_next_version_name outage req s)
    as [Hmiss
       | game_type config pre name formula error post Hg Hc Hes Hpre Hinv
       | game_type config e Hg Hc Hall Hrpc'
       | game_type config e Hg Hc Hall Hrpc' Hins
       | game_type config Hg Hc Hall Hrpc' Hins]; cbn [trace store response];
    cbn; try discriminate; try congruence.
  intros _. exists game_type.
  assert (Hnone : active_versions game_type (after_deactivation outage game_type s) = []).
  { unfold active_versions, after_deactivation. rewrite Hd. cbn.
    apply deactivate_none_active. }
  split; [exact Hg|]. split; [exact Hnone|]. split.
  { unfold after_deactivation. now rewrite Hd. }
  apply submit_not_found; [exact Ht|congruence|].
  right. now rewrite Hnone.
Qed.

Lemma failed_insert_leaves_no_active_version_witness :
  let outage := fun c => match c with
                         | InsertVersion => Some "duplicate key value violates unique constraint"
                         | _ => None
                         end in
  let req := {| sv_game_type := Some "memory"; sv_user_id := Some "user-1";
                sv_description := None; sv_config := Some Demo.cfg_a |} in
  let sub := {| sub_game_type := Some "memory";
                sub_user_id := Some "user-1";
                sub_raw_data := Some (JObj [("accuracy", JNum 80)]) |} in
  let left := store (save_route Demo.validateFormula Demo.get_next_version_name outage
                                req Demo.store_ab) in
  map row_version_name (active_versions "memory" Demo.store_ab) = ["V2"] /\
  active_versions "memory" left = [] /\
  status (response (submit_route Demo.calculateScores "2024-01-01T00:00:00.000Z"
                                 Demo.no_outage sub left)) = 404%nat.
Proof.
  cbv zeta.
  destruct (@failed_insert_leaves_no_active_version
              Demo.validateFormula Demo.get_next_version_name
              (fun c => match c with
                        | InsertVersion => Some "duplicate key value violates unique constraint"
                        | _ => None
                        end)
              {| sv_game_type := Some "memory"; sv_user_id := Some "user-1";
                 sv_description := None; sv_config := Some Demo.cfg_a |}
              Demo.store_ab Demo.calculateScores "2024-01-01T00:00:00.000Z"
              Demo.no_outage
              {| sub_game_type := Some "memory";
                 sub_user_id := Some "user-1";
                 sub_raw_data := Some (JObj [("accuracy", JNum 80)]) |}
              eq_refl eq_refl eq_refl eq_refl eq_refl)
    as [gt [Hg [Hnone [_ Hsub]]]].
  inversion Hg; subst gt.
  split; [reflexivity|]. split; [exact Hnone|]. rewrite Hsub. reflexivity.
Defined.

(** X15: the save route validates the formulas of
    [config.competency_formulas] and nothing else.  A configuration without
    that property is saved as the active version without a single call of
    the validator, whatever the validator would say and whatever else the
    configuration holds. *)
Theorem save_without_formulas_is_unchecked
    (validateFormula : string -> Validation)
    (get_next_version_name : Store -> string -> string)
    (outage : StoreCall -> option string)
    (req : SaveRequest) (s : Store) (config : Config) :
  Js.truthy_str (sv_game_type req) = true ->
  sv_config req = Some config ->
  competency_formulas config = None ->
  outage RpcNextVersionName = None ->
  outage InsertVersion = None ->
  let h := save_route validateFormula get_next_version_name outage req s in
  trace h = [Called RpcNextVersionName; Called DeactivateActive; Called InsertVersion] /\
  exists message row,
    response h = ok (SaveData message row) /\
    row_config row = config /\
    row_is_active row = true /\
    In row (scoring_versions (store h)).
Proof.
  intros Ht Hc Hf Hrpc Hins. cbv zeta.
  destruct (save_route_run validateFormula get_next_version_name outage req s)
    as [Hmiss
       | game_type config' pre name formula error post Hg Hc' Hes Hpre Hinv
       | game_type config' e Hg Hc' Hall Hrpc'
       | game_type config' e Hg Hc' Hall Hrpc' Hins'
       | game_type config' Hg Hc' Hall Hrpc' Hins']; cbn [trace store response];
    try congruence.
  - destruct Hmiss; congruence.
  - assert (config' = config) by congruence. subst config'.
    rewrite Hf in Hes. cbn in Hes. destruct pre; discriminate.
  - assert (config' = config) by congruence. subst config'.
    rewrite Hf. cbn. split; [reflexivity|].
    exists ("Saved as " ++ versionName), row. subst row. cbn.
    split; [reflexivity|]. split; [reflexivity|]. split; [reflexivity|].
    apply in_or_app. right. now left.
Qed.

Lemma save_without_formulas_is_unchecked_witness :
  let rejects_all := fun _ : string => Invalid "not a formula" in
  let config := {| competency_formulas := None; final_weights := None |} in
  let req := {| sv_game_type := Some "memory"; sv_user_id := None;
                sv_description := None; sv_config := Some config |} in
  let h := save_route rejects_all Demo.get_next_version_name Demo.no_outage req
                      Demo.store_ab in
  status (response h) = 200%nat /\
  trace h = [Called RpcNextVersionName; Called DeactivateActive; Called InsertVersion].
Proof.
  cbv zeta.
  destruct (@save_without_formulas_is_unchecked
              (fun _ : string => Invalid "not a formula")
              Demo.get_next_version_name Demo.no_outage
              {| sv_game_type := Some "memory"; sv_user_id := None;
                 sv_description := None;
                 sv_config := Some {| competency_formulas := None;
                                      final_weights := None |} |}
              Demo.store_ab {| competency_formulas := None; final_weights := None |}
              eq_refl eq_refl eq_refl eq_refl eq_refl)
    as [Htrace [message [row [Hresp _]]]].
  split; [rewrite Hresp; reflexivity|exact Htrace].
Defined.

(* ------------------------------------------------------------------ *)
(** ** The validate-formula handlers *)

Lemma serve_run {D} (handler : M (Reply D)) (s : Store) :
  serve handler s =
  {| reply := match outcome (handler s) with
              | Threw e => Refused 500 e
              | Returned r => r
              end;
     store_left := store_after (handler s);
     events := emitted (handler s) |}.
Proof. unfold serve. now destruct (handler s). Qed.

(** What the validate-formula handlers have found when they answer
    [valid: true]. *)
Lemma validate_formula_valid
    (validateFormula : string -> Validation)
    (testFormula : string -> Env -> TestResponse)
    (getFormulaVariables : string -> list string)
    (req : ValidateRequest) (s : Store) (variables : list string)
    (test_result : option Q) :
  reply (serve (validate_formula_body validateFormula testFormula getFormulaVariables
                                      req) s)
    = Answered (IsValid variables test_result) ->
  exists formula,
    vf_formula req = Some formula /\
    validateFormula formula = Valid /\
    variables = getFormulaVariables formula /\
    match vf_test_variables req with
    | Some tv => exists r, testFormula formula tv = TestOk r /\ test_result = Some r
    | None => test_result = None
    end.
Proof.
  unfold serve, validate_formula_body.
  destruct (vf_formula req) as [formula|]; [|cbn; discriminate].
  destruct (Js.truthy_str (Some formula)); [|cbn; discriminate].
  cbn. destruct (validateFormula formula) eqn:Ev; cbn; [|discriminate].
  destruct (vf_test_variables req) as [tv|]; cbn.
  - destruct (testFormula formula tv) as [r|e] eqn:Et; cbn; intros H; inversion H.
    exists formula. split; [reflexivity|]. split; [exact Ev|].
    split; [reflexivity|]. now exists r.
  - intros H; inversion H. exists formula. auto.
Qed.

(** X16: the validate-formula route is a faithful check before a save.
    When every formula of a configuration has been answered [valid: true]
    by the route (or by the controller), with or without test variables, a
    save of that configuration is not refused: it gets past the validation
    and asks the store for the next version name. *)
Theorem validated_formulas_pass_save
    (validateFormula : string -> Validation)
    (testFormula : string -> Env -> TestResponse)
    (getFormulaVariables : string -> list string)
    (get_next_version_name : Store -> string -> string)
    (outage : StoreCall -> option string)
    (req : SaveRequest) (s : Store) (config : Config) :
  Js.truthy_str (sv_game_type req) = true ->
  sv_config req = Some config ->
  (forall name formula,
     In (name, formula) (Js.entries (or_empty (competency_formulas config))) ->
     exists asked s0 variables test_result,
       vf_formula asked = Some formula /\
       (reply (validate_formula_route validateFormula testFormula getFormulaVariables
                                      asked s0)
          = Answered (IsValid variables test_result) \/
        reply (validateFormula_handler validateFormula testFormula getFormulaVariables
                                       asked s0)
          = Answered (IsValid variables test_result))) ->
  let h := save_route validateFormula get_next_version_name outage req s in
  status (response h) <> 400%nat /\
  In (Called RpcNextVersionName) (trace h).
Proof.
  intros Ht Hc Hvalid. cbv zeta.
  assert (Hall : forall name formula,
             In (name, formula) (Js.entries (or_empty (competency_formulas config))) ->
             validateFormula formula = Valid).
  { intros name formula Hin.
    destruct (Hvalid name formula Hin) as [asked [s0 [vars [tr [Hf H]]]]].
    assert (H' : reply (serve (validate_formula_body validateFormula testFormula
                                 getFormulaVariables asked) s0)
                 = Answered (IsValid vars tr)) by (destruct H; assumption).
    apply validate_formula_valid in H'.
    destruct H' as [f [Hf' [Hv _]]]. congruence. }
  destruct (save_route_run validateFormula get_next_version_name outage req s)
    as [Hmiss
       | game_type config' pre name formula error post Hg Hc' Hes Hpre Hinv
       | game_type config' e Hg Hc' Hall' Hrpc
       | game_type config' e Hg Hc' Hall' Hrpc Hins
       | game_type config' Hg Hc' Hall' Hrpc Hins]; cbn [trace store response].
  - destruct Hmiss; congruence.
  - assert (config' = config) by congruence. subst config'.
    assert (validateFormula formula = Valid).
    { apply (Hall name). rewrite Hes. apply in_or_app. right. now left. }
    congruence.
  - split; [cbn; discriminate|]. apply in_or_app. right. now left.
  - split; [cbn; discriminate|]. apply in_or_app. right. now left.
  - split; [cbn; discriminate|]. apply in_or_app. right. now left.
Qed.

Lemma validated_formulas_pass_save_witness :
  let req := {| sv_game_type := Some "memory"; sv_user_id := Some "user-1";
                sv_description := None; sv_config := Some Demo.cfg_a |} in
  let h := save_route Demo.validateFormula Demo.get_next_version_name Demo.no_outage
                      req Demo.store_ab in
  status (response h) <> 400%nat /\ In (Called RpcNextVersionName) (trace h).
Proof.
  cbv zeta.
  apply (@validated_formulas_pass_save
           Demo.validateFormula Demo.testFormula (fun f => [f])
           Demo.get_next_version_name Demo.no_outage
           {| sv_game_type := Some "memory"; sv_user_id := Some "user-1";
              sv_description := None; sv_config := Some Demo.cfg_a |}
           Demo.store_ab Demo.cfg_a eq_refl eq_refl).
  intros name formula Hin.
  exists {| vf_formula := Some formula; vf_test_variables := None |}, Demo.store_ab,
         [formula], None.
  split; [reflexivity|]. left.
  vm_compute in Hin. destruct Hin as [Hin|[]]. inversion Hin; subst. reflexivity.
Defined.

Lemma Forall2_in_left {A B} (R : A -> B -> Prop) (l : list A) (l' : list B) (x : A) :
  Forall2 R l l' -> In x l -> exists y, In y l' /\ R x y.
Proof.
  induction 1 as [|a b l l' Hab Hrest IH]; intros Hin; [destruct Hin|].
  destruct Hin as [<-|Hin].
  - exists b. split; [now left|exact Hab].
  - destruct (IH Hin) as [y [Hy Hr]]. exists y. split; [now right|exact Hr].
Qed.

(** X17: the test of the validate-formula handlers and the preview agree
    up to clamping.  When validate-formula answered [test_result] for a
    formula on some test variables, a preview that scores that formula on
    the same test variables, under a name other than [__proto__], lists a
    competency of that name whose raw score is [test_result] clamped to
    0..100: the validate-formula answer itself is not clamped.  The
    formulas of the preview are an object: their names are pairwise
    distinct. *)
Theorem preview_raw_is_clamped_test_result
    (validateFormula : string -> Validation)
    (testFormula : string -> Env -> TestResponse)
    (getFormulaVariables : string -> list string)
    (asked : ValidateRequest) (s0 : Store) (variables : list string) (result : Q)
    (req : PreviewRequest) (s : Store) (h : Handled) (scores : ScoreResult)
    (tv : Env) (name formula : string) :
  vf_formula asked = Some formula ->
  vf_test_variables asked = Some tv ->
  reply (validate_formula_route validateFormula testFormula getFormulaVariables asked s0)
    = Answered (IsValid variables (Some result)) ->
  h = preview_route testFormula req s \/ h = previewScores testFormula req s ->
  Js.wf (or_empty (pv_formulas req)) ->
  In (name, formula) (Js.entries (or_empty (pv_formulas req))) ->
  name <> "__proto__" ->
  body (response h) = PreviewData scores tv ->
  exists c, In (name, c) (sr_competencies scores) /\
            raw c = Js.clamp_0_100 result /\
            0 <= raw c <= 100.
Proof.
  intros Hf Htv Hv Hh Hwf Hin Hproto Hb.
  apply validate_formula_valid in Hv.
  destruct Hv as [f [Hf' [_ [_ Ht]]]]. rewrite Htv in Ht.
  destruct Ht as [r [Ht Hr]]. inversion Hr; subst r.
  assert (f = formula) by congruence. subst f.
  assert (Hdata : exists formulas ws all,
             pv_formulas req = Some formulas /\
             pv_weights req = Some ws /\
             pv_test_variables req = Some tv /\
             Forall2 (scored_from testFormula ws tv) formulas all /\
             sr_competencies scores = Js.from_assignments all /\
             sr_final_score scores
               = round2 (total_of (map (fun kv => weighted (snd kv)) all))).
  { destruct Hh as [-> | ->]; eapply preview_scores; exact Hb. }
  destruct Hdata as [formulas [ws [all [Hfs [Hw [_ [Hall [Hsc _]]]]]]]].
  rewrite Hfs in Hwf, Hin. cbn in Hwf, Hin.
  rewrite from_assignments_wf in Hsc
    by (rewrite (scored_from_names Hall); exact Hwf).
  destruct (@Forall2_in_left _ _ _ _ _ _ Hall Hin) as [[k c] [Hk [Hname [r' [Ht' Hc]]]]].
  cbn in Hname, Ht', Hc. subst k.
  assert (r' = result) by congruence. subst r'.
  exists c. split.
  - rewrite Hsc. unfold Js.assigned. apply filter_In. split; [exact Hk|].
    cbn. apply negb_true_iff. now apply String.eqb_neq.
  - rewrite Hc. cbn. split; [reflexivity|apply clamp_0_100_range].
Qed.

Lemma preview_raw_is_clamped_test_result_witness :
  let asked := {| vf_formula := Some "250";
                  vf_test_variables := Some [("accuracy", 80)] |} in
  let req := {| pv_game_type := Some "memory";
                pv_formulas := Some [("accuracy", "accuracy"); ("focus", "250")];
                pv_weights := Some [("accuracy", 1 # 4)];
                pv_test_variables := Some [("accuracy", 80)] |} in
  reply (validate_formula_route Demo.validateFormula Demo.testFormula (fun f => [f])
                                asked Demo.store_ab)
    = Answered (IsValid ["250"] (Some 250)) /\
  exists scores c,
    body (response (preview_route Demo.testFormula req Demo.store_ab))
      = PreviewData scores [("accuracy", 80)] /\
    In ("focus", c) (sr_competencies scores) /\
    raw c = Js.clamp_0_100 250.
Proof.
  cbv zeta. split; [reflexivity|].
  assert (Hwf : Js.wf (or_empty (Some [("accuracy", "accuracy"); ("focus", "250")]))).
  { repeat constructor; simpl; intuition discriminate. }
  assert (Hin : In ("focus", "250")
                   (Js.entries (or_empty (Some [("accuracy", "accuracy");
                                                ("focus", "250")])))).
  { right. now left. }
  assert (Hne : "focus" <> "__proto__") by discriminate.
  destruct (@preview_raw_is_clamped_test_result
              Demo.validateFormula Demo.testFormula (fun f => [f])
              {| vf_formula := Some "250";
                 vf_test_variables := Some [("accuracy", 80)] |}
              Demo.store_ab ["250"] 250
              {| pv_game_type := Some "memory";
                 pv_formulas := Some [("accuracy", "accuracy"); ("focus", "250")];
                 pv_weights := Some [("accuracy", 1 # 4)];
                 pv_test_variables := Some [("accuracy", 80)] |}
              Demo.store_ab _ _ [("accuracy", 80)] "focus" "250"
              eq_refl eq_refl eq_refl (or_introl eq_refl) Hwf Hin Hne eq_refl)
    as [c [Hc [Hraw _]]].
  eexists. exists c. split; [vm_compute; reflexivity|].
  split; [exact Hc|exact Hraw].
Defined.

(* ------------------------------------------------------------------ *)
(** ** The handlers that only read *)

Lemma preview_body_store (testFormula : string -> Env -> TestResponse)
    (missing : string) (req : PreviewRequest) (s : Store) :
  store (try_catch (preview_body testFormula missing req) s) = s.
Proof.
  rewrite try_catch_run. cbn [store]. unfold preview_body.
  destruct (pv_formulas req) as [formulas|]; [|reflexivity].
  destruct (pv_weights req) as [ws|]; [|reflexivity].
  destruct (pv_test_variables req) as [tv|]; [|reflexivity].
  destruct (Js.truthy_str (pv_game_type req)); [|reflexivity].
  rewrite bind_run.
  destruct (outcome (preview_loop _ _ _ _ _ _ _)) as [e|[early|[sc total]]] eqn:E;
    cbn; apply preview_loop_store.
Qed.

Lemma compare_prefix_store (evaluate : string -> option Env -> Outcome Q)
    (outage : StoreCall -> option string) (req : CompareRequest) (s : Store) :
  store_after (compare_prefix evaluate outage req s) = s.
Proof.
  destruct (compare_prefix_run evaluate outage req s)
    as [[code [error ->]]|[[e [_ ->]]|[gt [ids [_ [_ H]]]]]]; [reflexivity..|].
  cbv zeta in H. destruct H as [_ ->]. reflexivity.
Qed.

(** X18: the handlers that compute or read write nothing: after a preview,
    a compare, a validate-formula, and after a read of the active version,
    of the versions or of the results, the store is the one before,
    whatever the request and the answer. *)
Theorem reading_handlers_leave_the_store
    (validateFormula : string -> Validation)
    (testFormula : string -> Env -> TestResponse)
    (getFormulaVariables : string -> list string)
    (evaluate : string -> option Env -> Outcome Q)
    (outage : StoreCall -> option string)
    (fault : Query -> option StoreError)
    (version_created_at : VersionRow -> nat)
    (session_created_at : SessionRow -> nat)
    (preview : PreviewRequest) (compare : CompareRequest) (asked : ValidateRequest)
    (gameType : string) (userId : option string) (s : Store) :
  store (preview_route testFormula preview s) = s /\
  store (previewScores testFormula preview s) = s /\
  store (compare_route evaluate outage compare s) = s /\
  store (compareVersions evaluate outage compare s) = s /\
  store_left (validate_formula_route validateFormula testFormula getFormulaVariables
                                     asked s) = s /\
  store_left (validateFormula_handler validateFormula testFormula getFormulaVariables
                                      asked s) = s /\
  store_left (get_active_route fault gameType s) = s /\
  store_left (get_versions_route fault version_created_at gameType s) = s /\
  store_left (get_results_route fault session_created_at gameType userId s) = s.
Proof.
  assert (Hcmp : store (compareVersions evaluate outage compare s) = s).
  { unfold compareVersions. rewrite try_catch_run, bind_run. cbn [store].
    pose proof (compare_prefix_store evaluate outage compare s) as Hs.
    destruct (outcome (compare_prefix evaluate outage compare s)) as [e|[early|cs]];
      cbn; exact Hs. }
  assert (Hval : store_left (serve (validate_formula_body validateFormula testFormula
                                      getFormulaVariables asked) s) = s).
  { unfold serve, validate_formula_body.
    destruct (vf_formula asked) as [formula|]; [|reflexivity].
    destruct (Js.truthy_str (Some formula)); [|reflexivity].
    cbn. destruct (validateFormula formula); cbn; [|reflexivity].
    destruct (vf_test_variables asked) as [tv|]; cbn; [|reflexivity].
    destruct (testFormula formula tv); reflexivity. }
  split; [apply preview_body_store|]. split; [apply preview_body_store|].
  split.
  { destruct (compare_route_trace evaluate outage compare s) as [_ ->]. exact Hcmp. }
  split; [exact Hcmp|]. split; [exact Hval|]. split; [exact Hval|].
  split.
  { unfold get_active_route, serve, query_active. cbn.
    destruct (fault GetActive) as [e|]; cbn.
    - destruct (String.eqb (err_code e) "PGRST116"); reflexivity.
    - destruct (single (active_versions gameType s)); reflexivity. }
  split.
  { unfold get_versions_route, serve. destruct (fault ListVersions); reflexivity. }
  unfold get_results_route, serve. destruct (fault ListResults); reflexivity.
Qed.

(* ------------------------------------------------------------------ *)
(** ** The set-active route *)

Lemma with_active_twice (a b : bool) (v : VersionRow) :
  with_active a (with_active b v) = with_active a v.
Proof. reflexivity. Qed.

Lemma named_game_type (game_type version_name : string) (v : VersionRow) :
  named game_type version_name v = true -> String.eqb (row_game_type v) game_type = true.
Proof. unfold named. intros H. apply andb_prop in H. tauto. Qed.

Lemma named_with_active (game_type version_name : string) (b : bool) (v : VersionRow) :
  named game_type version_name (with_active b v) = named game_type version_name v.
Proof. reflexivity. Qed.

Lemma filter_named_deactivate_all (game_type version_name : string)
    (rows : list VersionRow) :
  filter (named game_type version_name) (deactivate_all game_type rows)
  = map (with_active false) (filter (named game_type version_name) rows).
Proof.
  unfold deactivate_all, activate.
  induction rows as [|v rows IH]; [reflexivity|]. cbn.
  destruct (named game_type version_name v) eqn:En.
  - rewrite (named_game_type _ _ _ En). rewrite named_with_active, En. cbn.
    now rewrite IH.
  - destruct (String.eqb (row_game_type v) game_type);
      [rewrite named_with_active|]; rewrite En; exact IH.
Qed.

Lemma filter_named_activate (game_type version_name : string)
    (rows : list VersionRow) :
  filter (named game_type version_name) (activate game_type version_name rows)
  = map (with_active true) (filter (named game_type version_name) rows).
Proof.
  unfold deactivate_all, activate.
  induction rows as [|v rows IH]; [reflexivity|]. cbn.
  destruct (named game_type version_name v) eqn:En.
  - rewrite named_with_active, En. cbn. now rewrite IH.
  - rewrite En. exact IH.
Qed.

Lemma deactivate_all_none_active (game_type : string) (rows : list VersionRow) :
  filter (fun v => String.eqb (row_game_type v) game_type && row_is_active v)
         (deactivate_all game_type rows) = [].
Proof.
  unfold deactivate_all, activate.
  induction rows as [|v rows IH]; [reflexivity|]. cbn.
  destruct (String.eqb (row_game_type v) game_type) eqn:E; cbn; rewrite E; cbn; exact IH.
Qed.

Lemma activate_after_deactivate_all (game_type version_name : string)
    (rows : list VersionRow) :
  filter (fun v => String.eqb (row_game_type v) game_type && row_is_active v)
         (activate game_type version_name (deactivate_all game_type rows))
  = map (with_active true) (filter (named game_type version_name) rows).
Proof.
  unfold deactivate_all, activate.
  induction rows as [|v rows IH]; [reflexivity|]. cbn.
  destruct (named game_type version_name v) eqn:En.
  - rewrite (named_game_type _ _ _ En). rewrite named_with_active, En. cbn.
    rewrite (named_game_type _ _ _ En). cbn. now rewrite IH.
  - destruct (String.eqb (row_game_type v) game_type) eqn:E.
    + rewrite named_with_active, En. cbn. rewrite E. cbn. exact IH.
    + rewrite En. cbn. rewrite E. cbn. exact IH.
Qed.

Lemma deactivate_all_twice (game_type : string) (rows : list VersionRow) :
  deactivate_all game_type (deactivate_all game_type rows)
  = deactivate_all game_type rows.
Proof.
  unfold deactivate_all, activate.
  induction rows as [|v rows IH]; [reflexivity|]. cbn. rewrite IH. f_equal.
  destruct (String.eqb (row_game_type v) game_type) eqn:E; cbn; rewrite E; reflexivity.
Qed.

Lemma deactivate_all_activate (game_type version_name : string)
    (rows : list VersionRow) :
  deactivate_all game_type (activate game_type version_name rows)
  = deactivate_all game_type rows.
Proof.
  unfold deactivate_all, activate.
  induction rows as [|v rows IH]; [reflexivity|]. cbn. rewrite IH. f_equal.
  destruct (named game_type version_name v) eqn:En; [|reflexivity].
  cbn. now rewrite (named_game_type _ _ _ En).
Qed.

Lemma activate_twice (game_type version_name : string) (rows : list VersionRow) :
  activate game_type version_name (activate game_type version_name rows)
  = activate game_type version_name rows.
Proof.
  unfold deactivate_all, activate.
  induction rows as [|v rows IH]; [reflexivity|]. cbn. rewrite IH. f_equal.
  destruct (named game_type version_name v) eqn:En.
  - now rewrite named_with_active, En.
  - now rewrite En.
Qed.

Lemma kept_by_set_active_rows (game_type version_name : string)
    (rows : list VersionRow) :
  Forall2 (kept_by_set_active game_type) rows
          (activate game_type version_name (deactivate_all game_type rows)).
Proof.
  unfold deactivate_all, activate.
  induction rows as [|v rows IH]; cbn; constructor; auto.
  destruct (String.eqb (row_game_type v) game_type) eqn:E.
  - apply String.eqb_eq in E.
    assert (Hv : forall b, with_active (row_is_active v) (with_active b v) = v)
      by (intros b; now destruct v).
    rewrite named_with_active.
    destruct (named game_type version_name v);
      (split; [apply Hv|intros Hne; now elim Hne]).
  - assert (En : named game_type version_name v = false)
      by (unfold named; now rewrite E).
    rewrite En. split; [apply with_active_same|reflexivity].
Qed.

(** The set-active route on a complete request, step by step. *)
Lemma set_active_route_run (fault : Query -> option StoreError)
    (req : SetActiveRequest) (s : Store) (game_type version_name : string) :
  (Js.truthy_str (sa_game_type req) && Js.truthy_str (sa_version_name req)) = true ->
  sa_game_type req = Some game_type ->
  sa_version_name req = Some version_name ->
  let s1 := match fault DeactivateAll with
            | Some _ => s
            | None => with_versions s (deactivate_all game_type (scoring_versions s))
            end in
  set_active_route fault req s =
  match fault ActivateNamed with
  | Some e => {| reply := Refused 500 (err_message e); store_left := s1; events := [] |}
  | None =>
      match filter (named game_type version_name) (scoring_versions s1) with
      | [v] =>
          {| reply := Answered {| act_message := version_name ++ " is now active";
                                  act_data := with_active true v |};
             store_left := with_versions s1 (activate game_type version_name
                                                      (scoring_versions s1));
             events := [] |}
      | _ => {| reply := Refused 500 (err_message not_single);
                store_left := s1; events := [] |}
      end
  end.
Proof.
  intros Ht Hg Hn. cbv zeta. unfold set_active_route.
  rewrite Hg, Hn in Ht. rewrite Hg, Hn, Ht.
  unfold serve, deactivate_versions, activate_version.
  destruct (fault DeactivateAll) as [e0|]; cbn;
    (destruct (fault ActivateNamed) as [e1|]; cbn; [reflexivity|]);
    unfold bind, get_store; cbn;
    match goal with
    | |- context [filter ?f ?l] => destruct (filter f l) as [|v [|w rest]]
    end; cbn; reflexivity.
Qed.

Lemma single_two {A} (l : list A) (x y : A) :
  In x l -> In y l -> x <> y -> single l = None.
Proof.
  destruct l as [|a [|b l]]; cbn; intros Hx Hy Hne; try reflexivity.
  destruct Hx as [<-|[]]. destruct Hy as [<-|[]]. now elim Hne.
Qed.

Lemma get_active_route_run (fault : Query -> option StoreError) (gameType : string)
    (s : Store) :
  fault GetActive = None ->
  get_active_route fault gameType s =
  {| reply := match single (active_versions gameType s) with
              | Some row => Answered row
              | None => Refused 404 ("No active configuration found for " ++ gameType)
              end;
     store_left := s; events := [] |}.
Proof.
  intros Hf. unfold get_active_route, serve, query_active. cbn. rewrite Hf.
  destruct (single (active_versions gameType s)); reflexivity.
Qed.

(** X19: a set-active request that names no version of the game type
    still deactivates every version of the game type: the route answers
    500 with the message of [.single()], and the game type is left without
    an active version, so a complete submit for it is answered with 404. *)
Theorem set_active_unknown_name_deactivates_all
    (fault : Query -> option StoreError) (req : SetActiveRequest) (s : Store)
    (game_type version_name : string)
    (calculateScores : string -> Config -> Json -> Outcome ScoreResult)
    (now : string) (later : StoreCall -> option string) (sub : SubmitRequest) :
  (Js.truthy_str (sa_game_type req) && Js.truthy_str (sa_version_name req)) = true ->
  sa_game_type req = Some game_type ->
  sa_version_name req = Some version_name ->
  fault DeactivateAll = None ->
  fault ActivateNamed = None ->
  filter (named game_type version_name) (scoring_versions s) = [] ->
  (Js.truthy_str (sub_game_type sub) && Js.truthy_str (sub_user_id sub)
   && truthy_json (sub_raw_data sub)) = true ->
  sub_game_type sub = Some game_type ->
  let r := set_active_route fault req s in
  reply r = Refused 500 "JSON object requested, multiple (or no) rows returned" /\
  scoring_versions (store_left r) = deactivate_all game_type (scoring_versions s) /\
  active_versions game_type (store_left r) = [] /\
  submit_route calculateScores now later sub (store_left r)
  = {| response := fail_with 404
                     ("No active scoring configuration found for " ++ game_type);
       store := store_left r; trace := [Called SelectActive] |}.
Proof.
  intros Ht Hg Hn Hd Ha Hlen Hc Hsg. cbv zeta.
  rewrite (set_active_route_run fault req s Ht Hg Hn). rewrite Hd, Ha.
  cbn [scoring_versions with_versions].
  rewrite filter_named_deactivate_all.
  assert (Hleft : active_versions game_type
                    (with_versions s (deactivate_all game_type (scoring_versions s)))
                  = []).
  { unfold active_versions. cbn. apply deactivate_all_none_active. }
  assert (Hsub : submit_route calculateScores now later sub
                   (with_versions s (deactivate_all game_type (scoring_versions s)))
                 = {| response := fail_with 404
                        ("No active scoring configuration found for " ++ game_type);
                      store := with_versions s
                                 (deactivate_all game_type (scoring_versions s));
                      trace := [Called SelectActive] |}).
  { apply submit_not_found; [exact Hc|exact Hsg|]. right. now rewrite Hleft. }
  rewrite Hlen. cbn. auto.
Qed.

Lemma set_active_unknown_name_deactivates_all_witness :
  let req := {| sa_game_type := Some "memory"; sa_version_name := Some "V9" |} in
  let sub := {| sub_game_type := Some "memory";
                sub_user_id := Some "user-1";
                sub_raw_data := Some (JObj [("accuracy", JNum 80)]) |} in
  let r := set_active_route (fun _ => None) req Demo.store_ab in
  map row_version_name (active_versions "memory" Demo.store_ab) = ["V2"] /\
  reply r = Refused 500 "JSON object requested, multiple (or no) rows returned" /\
  active_versions "memory" (store_left r) = [] /\
  status (response (submit_route Demo.calculateScores "2024-01-01T00:00:00.000Z"
                                 Demo.no_outage sub (store_left r))) = 404%nat.
Proof.
  cbv zeta. split; [reflexivity|].
  destruct (@set_active_unknown_name_deactivates_all
              (fun _ => None)
              {| sa_game_type := Some "memory"; sa_version_name := Some "V9" |}
              Demo.store_ab "memory" "V9"
              Demo.calculateScores "2024-01-01T00:00:00.000Z" Demo.no_outage
              {| sub_game_type := Some "memory";
                 sub_user_id := Some "user-1";
                 sub_raw_data := Some (JObj [("accuracy", JNum 80)]) |}
              eq_refl eq_refl eq_refl eq_refl eq_refl)
    as [Hr [_ [Hnone Hsub]]]; [reflexivity|reflexivity|reflexivity|].
  split; [exact Hr|]. split; [exact Hnone|]. rewrite Hsub. reflexivity.
Defined.

(** X20: a set-active request that names exactly one version of the game
    type, served by a store that carries out both updates, makes that
    version the only active one of the game type and answers with it.
    Versions of other game types are untouched, the versions of the game
    type change in [is_active] only, and sessions and receipts are
    untouched. *)
Theorem set_active_makes_one_version_active
    (fault : Query -> option StoreError) (req : SetActiveRequest) (s : Store)
    (game_type version_name : string) (v : VersionRow) :
  (Js.truthy_str (sa_game_type req) && Js.truthy_str (sa_version_name req)) = true ->
  sa_game_type req = Some game_type ->
  sa_version_name req = Some version_name ->
  fault DeactivateAll = None ->
  fault ActivateNamed = None ->
  filter (named game_type version_name) (scoring_versions s) = [v] ->
  let r := set_active_route fault req s in
  reply r = Answered {| act_message := version_name ++ " is now active";
                        act_data := with_active true v |} /\
  active_versions game_type (store_left r) = [with_active true v] /\
  Forall2 (kept_by_set_active game_type)
          (scoring_versions s) (scoring_versions (store_left r)) /\
  test_sessions (store_left r) = test_sessions s /\
  action_receipts (store_left r) = action_receipts s.
Proof.
  intros Ht Hg Hn Hd Ha Hone. cbv zeta.
  rewrite (set_active_route_run fault req s Ht Hg Hn). rewrite Hd, Ha.
  cbn [scoring_versions with_versions].
  rewrite filter_named_deactivate_all, Hone. cbn.
  split; [reflexivity|]. split.
  { unfold active_versions. cbn. now rewrite activate_after_deactivate_all, Hone. }
  split; [apply kept_by_set_active_rows|]. auto.
Qed.

Lemma set_active_makes_one_version_active_witness :
  let req := {| sa_game_type := Some "memory"; sa_version_name := Some "V1" |} in
  let r := set_active_route (fun _ => None) req Demo.store_ab in
  map row_version_name (active_versions "memory" Demo.store_ab) = ["V2"] /\
  map row_version_name (active_versions "memory" (store_left r)) = ["V1"].
Proof.
  cbv zeta. split; [reflexivity|].
  destruct (@set_active_makes_one_version_active
              (fun _ => None)
              {| sa_game_type := Some "memory"; sa_version_name := Some "V1" |}
              Demo.store_ab "memory" "V1" (Demo.version 1 "V1" false Demo.cfg_a)
              eq_refl eq_refl eq_refl eq_refl eq_refl eq_refl)
    as [_ [Hactive _]].
  rewrite Hactive. reflexivity.
Defined.

(** X21: set-active is idempotent: the same request served a second time,
    by a store that behaves the same, gives the same answer and leaves the
    store as the first one left it; this holds for every request, complete
    or not, and whether or not the store carries out the updates. *)
Theorem set_active_twice_is_set_active_once
    (fault : Query -> option StoreError) (req : SetActiveRequest) (s : Store) :
  set_active_route fault req (store_left (set_active_route fault req s))
  = set_active_route fault req s.
Proof.
  destruct (Js.truthy_str (sa_game_type req) && Js.truthy_str (sa_version_name req))
    eqn:Ht.
  2:{ unfold set_active_route.
      destruct (sa_game_type req) as [g|]; [|reflexivity].
      destruct (sa_version_name req) as [n|]; [|reflexivity].
      rewrite Ht. reflexivity. }
  assert (Hf : exists g n, sa_game_type req = Some g /\ sa_version_name req = Some n).
  { apply andb_prop in Ht. destruct Ht as [H1 H2].
    destruct (sa_game_type req) as [g|]; [|discriminate].
    destruct (sa_version_name req) as [n|]; [|discriminate]. eauto. }
  destruct Hf as [g [n [Hg Hn]]].
  rewrite (set_active_route_run fault req s Ht Hg Hn).
  destruct (fault DeactivateAll) as [e0|] eqn:Ed;
    destruct (fault ActivateNamed) as [e1|] eqn:Ea; cbn [store_left].
  - rewrite (set_active_route_run fault req s Ht Hg Hn). now rewrite Ed, Ea.
  - destruct (filter (named g n) (scoring_versions s)) as [|v [|w rest]] eqn:Ef;
      cbn [store_left];
      rewrite (set_active_route_run fault req _ Ht Hg Hn); rewrite Ed, Ea.
    + now rewrite Ef.
    + cbn [scoring_versions with_versions].
      rewrite filter_named_activate, Ef, activate_twice. reflexivity.
    + now rewrite Ef.
  - rewrite (set_active_route_run fault req _ Ht Hg Hn). rewrite Ed, Ea.
    cbn [scoring_versions with_versions]. rewrite deactivate_all_twice. reflexivity.
  - cbn [scoring_versions with_versions].
    rewrite filter_named_deactivate_all.
    destruct (filter (named g n) (scoring_versions s)) as [|v [|w rest]] eqn:Ef;
      cbn [map store_left];
      rewrite (set_active_route_run fault req _ Ht Hg Hn); rewrite Ed, Ea;
      cbn [scoring_versions with_versions].
    + rewrite deactivate_all_twice, filter_named_deactivate_all, Ef. reflexivity.
    + rewrite deactivate_all_activate, deactivate_all_twice,
        filter_named_deactivate_all, Ef. reflexivity.
    + rewrite deactivate_all_twice, filter_named_deactivate_all, Ef. reflexivity.
Qed.

Lemma single_some {A} (l : list A) (x : A) : single l = Some x -> l = [x].
Proof. destruct l as [|a [|b l]]; cbn; intros H; inversion H. reflexivity. Qed.

Lemma single_none {A} (l : list A) : single l = None -> List.length l <> 1%nat.
Proof. destruct l as [|a [|b l]]; cbn; intros H; try discriminate; lia. Qed.

(** X22: the set-active route does not look at the answer of its first
    update.  When the store answers that update with an error and carries
    out the second, the route answers with success although another
    version of the game type is still active: two versions are active, the
    read of the active version answers 404 and so does every complete
    submit for the game type. *)
Theorem set_active_unchecked_deactivation
    (fault : Query -> option StoreError) (req : SetActiveRequest) (s : Store)
    (game_type version_name : string) (v other : VersionRow) (e : StoreError)
    (calculateScores : string -> Config -> Json -> Outcome ScoreResult)
    (now : string) (later : StoreCall -> option string) (sub : SubmitRequest) :
  (Js.truthy_str (sa_game_type req) && Js.truthy_str (sa_version_name req)) = true ->
  sa_game_type req = Some game_type ->
  sa_version_name req = Some version_name ->
  fault DeactivateAll = Some e ->
  fault ActivateNamed = None ->
  fault GetActive = None ->
  filter (named game_type version_name) (scoring_versions s) = [v] ->
  In other (active_versions game_type s) ->
  row_version_name other <> version_name ->
  (Js.truthy_str (sub_game_type sub) && Js.truthy_str (sub_user_id sub)
   && truthy_json (sub_raw_data sub)) = true ->
  sub_game_type sub = Some game_type ->
  let r := set_active_route fault req s in
  reply r = Answered {| act_message := version_name ++ " is now active";
                        act_data := with_active true v |} /\
  In (with_active true v) (active_versions game_type (store_left r)) /\
  In other (active_versions game_type (store_left r)) /\
  reply (get_active_route fault game_type (store_left r))
  = Refused 404 ("No active configuration found for " ++ game_type) /\
  response (submit_route calculateScores now later sub (store_left r))
  = fail_with 404 ("No active scoring configuration found for " ++ game_type).
Proof.
  intros Ht Hg Hn Hd Ha Hga Hone Hother Hname Hc Hsg. cbv zeta.
  rewrite (set_active_route_run fault req s Ht Hg Hn). rewrite Hd, Ha, Hone.
  cbn [reply store_left].
  set (s' := with_versions s (activate game_type version_name (scoring_versions s))).
  assert (Hv : In v (scoring_versions s) /\ named game_type version_name v = true).
  { apply filter_In. rewrite Hone. now left. }
  destruct Hv as [Hvin Hvn].
  assert (Hin1 : In (with_active true v) (active_versions game_type s')).
  { unfold active_versions, s'. cbn. apply filter_In. split.
    - unfold activate. apply in_map_iff. exists v. now rewrite Hvn.
    - cbn. now rewrite (named_game_type _ _ _ Hvn). }
  assert (Hin2 : In other (active_versions game_type s')).
  { unfold active_versions in Hother |- *. apply filter_In in Hother.
    destruct Hother as [Ho1 Ho2]. unfold s'. cbn. apply filter_In. split; [|exact Ho2].
    unfold activate. apply in_map_iff. exists other. split; [|exact Ho1].
    assert (En : named game_type version_name other = false).
    { unfold named. apply andb_false_iff. right. now apply String.eqb_neq. }
    now rewrite En. }
  assert (Hne : with_active true v <> other).
  { intros Heq. apply Hname. rewrite <- Heq. cbn.
    unfold named in Hvn. apply andb_prop in Hvn. destruct Hvn as [_ Hvn].
    now apply String.eqb_eq in Hvn. }
  pose proof (single_two _ Hin1 Hin2 Hne) as Hsingle.
  split; [reflexivity|]. split; [exact Hin1|]. split; [exact Hin2|]. split.
  - rewrite (get_active_route_run fault game_type s' Hga). cbn [reply].
    now rewrite Hsingle.
  - unfold submit_route.
    rewrite (submit_not_found calculateScores now later sub s' Hc Hsg); [reflexivity|].
    right. exact Hsingle.
Qed.

Lemma set_active_unchecked_deactivation_witness :
  let fault := fun q => match q with
                        | DeactivateAll =>
                            Some {| err_code := "57014";
                                    err_message := "canceling statement due to statement timeout" |}
                        | _ => None
                        end in
  let req := {| sa_game_type := Some "memory"; sa_version_name := Some "V1" |} in
  let sub := {| sub_game_type := Some "memory";
                sub_user_id := Some "user-1";
                sub_raw_data := Some (JObj [("accuracy", JNum 80)]) |} in
  let r := set_active_route fault req Demo.store_ab in
  map row_version_name (active_versions "memory" (store_left r)) = ["V1"; "V2"] /\
  response (submit_route Demo.calculateScores "2024-01-01T00:00:00.000Z"
                         Demo.no_outage sub (store_left r))
  = fail_with 404 "No active scoring configuration found for memory".
Proof.
  cbv zeta. split; [reflexivity|].
  refine (proj2 (proj2 (proj2 (proj2
    (@set_active_unchecked_deactivation
       (fun q => match q with
                 | DeactivateAll =>
                     Some {| err_code := "57014";
                             err_message := "canceling statement due to statement timeout" |}
                 | _ => None
                 end)
       {| sa_game_type := Some "memory"; sa_version_name := Some "V1" |}
       Demo.store_ab "memory" "V1"
       (Demo.version 1 "V1" false Demo.cfg_a) (Demo.version 2 "V2" true Demo.cfg_b)
       {| err_code := "57014";
          err_message := "canceling statement due to statement timeout" |}
       Demo.calculateScores "2024-01-01T00:00:00.000Z" Demo.no_outage
       {| sub_game_type := Some "memory";
          sub_user_id := Some "user-1";
          sub_raw_data := Some (JObj [("accuracy", JNum 80)]) |}
       eq_refl eq_refl eq_refl eq_refl eq_refl eq_refl eq_refl _ _ eq_refl eq_refl))))).
  - cbn. now left.
  - cbn. discriminate.
Defined.

(** X23: the read of the active version and the submit handlers agree on
    what the active version of a game type is.  On the same store, when the
    read answers with a version, that version is the only active one and a
    complete submit scores the raw data with its configuration; when the
    read answers 404, the active versions are not exactly one and the
    submit answers 404 too. *)
Theorem active_route_agrees_with_submit
    (fault : Query -> option StoreError)
    (calculateScores : string -> Config -> Json -> Outcome ScoreResult)
    (now : string) (outage : StoreCall -> option string)
    (sub : SubmitRequest) (s : Store) (game_type : string) (raw_data : Json) :
  fault GetActive = None ->
  outage SelectActive = None ->
  (Js.truthy_str (sub_game_type sub) && Js.truthy_str (sub_user_id sub)
   && truthy_json (sub_raw_data sub)) = true ->
  sub_game_type sub = Some game_type ->
  sub_raw_data sub = Some raw_data ->
  let h := submit_route calculateScores now outage sub s in
  match reply (get_active_route fault game_type s) with
  | Answered row =>
      active_versions game_type s = [row] /\
      exists tail,
        trace h = Called SelectActive :: Scored game_type (row_config row) raw_data :: tail
  | Refused code error =>
      code = 404%nat /\
      error = "No active configuration found for " ++ game_type /\
      List.length (active_versions game_type s) <> 1%nat /\
      h = {| response := fail_with 404
                           ("No active scoring configuration found for " ++ game_type);
             store := s; trace := [Called SelectActive] |}
  end.
Proof.
  intros Hga Hsel Hc Hsg Hraw. cbv zeta.
  rewrite (get_active_route_run fault game_type s Hga). cbn [reply].
  destruct (single (active_versions game_type s)) as [row|] eqn:Es.
  - split; [now apply single_some|].
    destruct (submit_found calculateScores now outage sub s Hc Hsg Hraw Hsel Es)
      as [tail [Htrace _]].
    exists tail. exact Htrace.
  - split; [reflexivity|]. split; [reflexivity|]. split; [now apply single_none|].
    apply submit_not_found; auto.
Qed.

Lemma active_route_agrees_with_submit_witness :
  let sub := {| sub_game_type := Some "memory";
                sub_user_id := Some "user-1";
                sub_raw_data := Some (JObj [("accuracy", JNum 80)]) |} in
  reply (get_active_route (fun _ => None) "memory" Demo.store_ab)
    = Answered (Demo.version 2 "V2" true Demo.cfg_b) /\
  exists tail,
    trace (submit_route Demo.calculateScores "2024-01-01T00:00:00.000Z"
                        Demo.no_outage sub Demo.store_ab)
    = Called SelectActive
      :: Scored "memory" Demo.cfg_b (JObj [("accuracy", JNum 80)]) :: tail.
Proof.
  cbv zeta. split; [reflexivity|].
  exact (proj2 (@active_route_agrees_with_submit
                  (fun _ => None) Demo.calculateScores "2024-01-01T00:00:00.000Z"
                  Demo.no_outage
                  {| sub_game_type := Some "memory";
                     sub_user_id := Some "user-1";
                     sub_raw_data := Some (JObj [("accuracy", JNum 80)]) |}
                  Demo.store_ab "memory" (JObj [("accuracy", JNum 80)])
                  eq_refl eq_refl eq_refl eq_refl eq_refl)).
Defined.

Lemma save_answer_config
    (validateFormula : string -> Validation)
    (get_next_version_name : Store -> string -> string)
    (outage : StoreCall -> option string)
    (req : SaveRequest) (s : Store) (message : string) (row : VersionRow) :
  response (save_route validateFormula get_next_version_name outage req s)
    = ok (SaveData message row) ->
  sv_config req = Some (row_config row).
Proof.
  destruct (save_route_run validateFormula get_next_version_name outage req s)
    as [Hmiss
       | game_type config pre name formula error post Hg Hc Hes Hpre Hinv
       | game_type config e Hg Hc Hall Hrpc
       | game_type config e Hg Hc Hall Hrpc Hins
       | game_type config Hg Hc Hall Hrpc Hins]; cbn [trace store response];
    try discriminate.
  intros H. inversion H; subst. exact Hc.
Qed.

(** X24: save, then read, then play.  After a save that answered with
    success on a store that carried out the deactivation, the read of the
    active version of the game type answers with the saved version, and a
    complete submit for the game type scores the raw data with the
    configuration of the save request and reports the saved version's name
    when it succeeds. *)
Theorem saved_version_is_served
    (validateFormula : string -> Validation)
    (get_next_version_name : Store -> string -> string)
    (outage : StoreCall -> option string)
    (req : SaveRequest) (s : Store) (message : string) (row : VersionRow)
    (fault : Query -> option StoreError)
    (calculateScores : string -> Config -> Json -> Outcome ScoreResult)
    (now : string) (later : StoreCall -> option string)
    (sub : SubmitRequest) (raw_data : Json) :
  outage DeactivateActive = None ->
  response (save_route validateFormula get_next_version_name outage req s)
    = ok (SaveData message row) ->
  fault GetActive = None ->
  later SelectActive = None ->
  (Js.truthy_str (sub_game_type sub) && Js.truthy_str (sub_user_id sub)
   && truthy_json (sub_raw_data sub)) = true ->
  sub_game_type sub = sv_game_type req ->
  sub_raw_data sub = Some raw_data ->
  let saved := store (save_route validateFormula get_next_version_name outage req s) in
  let h := submit_route calculateScores now later sub saved in
  sv_config req = Some (row_config row) /\
  reply (get_active_route fault (row_game_type row) saved) = Answered row /\
  (exists tail,
     trace h = Called SelectActive
               :: Scored (row_game_type row) (row_config row) raw_data :: tail) /\
  (forall m session_id version_used scores,
     response h = ok (SubmitData m session_id version_used scores) ->
     version_used = row_version_name row).
Proof.
  intros Hd Hresp Hga Hsel Hc Hsg Hraw. cbv zeta.
  destruct (save_activates_only_new_version validateFormula get_next_version_name
              outage req s Hd Hresp) as [_ [Hg Hactive]].
  assert (Hsingle : single (active_versions (row_game_type row)
                      (store (save_route validateFormula get_next_version_name outage
                                         req s))) = Some row)
    by now rewrite Hactive.
  assert (Hcfg : sv_config req = Some (row_config row)).
  { exact (save_answer_config validateFormula get_next_version_name outage req s
                              Hresp). }
  rewrite Hg in Hsg.
  destruct (submit_found calculateScores now later sub _ Hc Hsg Hraw Hsel Hsingle)
    as [tail [Htrace Hok]].
  split; [exact Hcfg|]. split.
  { rewrite (get_active_route_run fault _ _ Hga). cbn [reply]. now rewrite Hsingle. }
  split; [now exists tail|].
  intros m sid vu sc H. now destruct (Hok m sid vu sc H).
Qed.

Lemma saved_version_is_served_witness :
  let req := {| sv_game_type := Some "memory"; sv_user_id := Some "user-1";
                sv_description := None; sv_config := Some Demo.cfg_a |} in
  let sub := {| sub_game_type := Some "memory";
                sub_user_id := Some "user-1";
                sub_raw_data := Some (JObj [("accuracy", JNum 80)]) |} in
  let saved := store (save_route Demo.validateFormula Demo.get_next_version_name
                                 Demo.no_outage req Demo.store_ab) in
  exists row,
    row_version_name row = "V3" /\
    reply (get_active_route (fun _ => None) "memory" saved) = Answered row /\
    exists tail,
      trace (submit_route Demo.calculateScores "2024-01-01T00:00:00.000Z"
                          Demo.no_outage sub saved)
      = Called SelectActive
        :: Scored "memory" Demo.cfg_a (JObj [("accuracy", JNum 80)]) :: tail.
Proof.
  cbv zeta.
  destruct (@saved_version_is_served
              Demo.validateFormula Demo.get_next_version_name Demo.no_outage
              {| sv_game_type := Some "memory"; sv_user_id := Some "user-1";
                 sv_description := None; sv_config := Some Demo.cfg_a |}
              Demo.store_ab _ _ (fun _ => None)
              Demo.calculateScores "2024-01-01T00:00:00.000Z" Demo.no_outage
              {| sub_game_type := Some "memory";
                 sub_user_id := Some "user-1";
                 sub_raw_data := Some (JObj [("accuracy", JNum 80)]) |}
              (JObj [("accuracy", JNum 80)])
              eq_refl eq_refl eq_refl eq_refl eq_refl eq_refl eq_refl)
    as [_ [Hread [Hplay _]]].
  eexists. split; [|split; [exact Hread|exact Hplay]]. reflexivity.
Defined.

(* ------------------------------------------------------------------ *)
(** ** The lists of versions and of results *)

Lemma insert_desc_perm {A} (key : A -> nat) (x : A) (l : list A) :
  Permutation (x :: l) (insert_desc key x l).
Proof.
  induction l as [|y l IH]; cbn; [apply Permutation_refl|].
  destruct (key y <=? key x)%nat; [apply Permutation_refl|].
  eapply Permutation_trans; [apply perm_swap|]. now apply perm_skip.
Qed.

Lemma order_desc_perm {A} (key : A -> nat) (l : list A) :
  Permutation l (order_desc key l).
Proof.
  induction l as [|x l IH]; cbn; [constructor|].
  eapply Permutation_trans; [|apply insert_desc_perm]. now apply perm_skip.
Qed.

Lemma insert_desc_sorted {A} (key : A -> nat) (x : A) (l : list A) :
  newest_first key l -> newest_first key (insert_desc key x l).
Proof.
  unfold newest_first. induction l as [|y l IH]; intros Hs; cbn.
  - constructor; constructor.
  - apply StronglySorted_inv in Hs. destruct Hs as [Hs Hy].
    destruct (key y <=? key x)%nat eqn:E.
    + apply Nat.leb_le in E. constructor.
      * constructor; assumption.
      * constructor; [exact E|].
        eapply Forall_impl; [|exact Hy]. cbn. intros z Hz. lia.
    + apply Nat.leb_gt in E. constructor; [now apply IH|].
      eapply Permutation_Forall; [apply insert_desc_perm|].
      constructor; [lia|exact Hy].
Qed.

Lemma order_desc_sorted {A} (key : A -> nat) (l : list A) :
  newest_first key (order_desc key l).
Proof.
  induction l as [|x l IH]; cbn; [constructor|]. now apply insert_desc_sorted.
Qed.

Lemma order_desc_in {A} (key : A -> nat) (l : list A) (x : A) :
  In x (order_desc key l) <-> In x l.
Proof.
  split; apply Permutation_in;
    [apply Permutation_sym|]; apply order_desc_perm.
Qed.

(** X25: the list of versions of a game type.  The route answers with the
    stored versions of that game type, each one once and no other, the
    most recently created first; when the store fails, it answers 500 with
    the store's message. *)
Theorem versions_route_lists_the_game_type
    (fault : Query -> option StoreError) (version_created_at : VersionRow -> nat)
    (gameType : string) (s : Store) :
  match fault ListVersions with
  | Some e =>
      reply (get_versions_route fault version_created_at gameType s)
      = Refused 500 (err_message e)
  | None =>
      exists rows,
        reply (get_versions_route fault version_created_at gameType s) = Answered rows /\
        Permutation rows (filter (fun v => String.eqb (row_game_type v) gameType)
                                 (scoring_versions s)) /\
        (forall v, In v rows <-> In v (scoring_versions s) /\ row_game_type v = gameType) /\
        newest_first version_created_at rows
  end.
Proof.
  unfold get_versions_route, serve.
  destruct (fault ListVersions) as [e|]; cbn; [reflexivity|].
  eexists. split; [reflexivity|]. split; [|split].
  - apply Permutation_sym, order_desc_perm.
  - intros v. rewrite order_desc_in, filter_In, String.eqb_eq. tauto.
  - apply order_desc_sorted.
Qed.

Lemma filter_filter {A} (f g : A -> bool) (l : list A) :
  filter g (filter f l) = filter (fun x => f x && g x) l.
Proof.
  induction l as [|x l IH]; [reflexivity|]. cbn.
  destruct (f x); cbn; [|exact IH]. destruct (g x); now rewrite IH.
Qed.

(** The two queries of the results route select by [of_user]. *)
Lemma selected_sessions (gameType : string) (userId : option string)
    (sessions : list SessionRow) :
  (if Js.truthy_str userId
   then filter (fun x => String.eqb (ses_user_id x)
                           (match userId with Some u => u | None => "" end))
               (filter (fun x => String.eqb (ses_game_type x) gameType) sessions)
   else filter (fun x => String.eqb (ses_game_type x) gameType) sessions)
  = filter (fun x => String.eqb (ses_game_type x) gameType && of_user userId x)
           sessions.
Proof.
  destruct userId as [u|]; unfold of_user, Js.truthy_str.
  - destruct (String.eqb u ""); cbn [negb].
    + apply filter_ext. intros x. now rewrite andb_true_r.
    + apply filter_filter.
  - apply filter_ext. intros x. now rewrite andb_true_r.
Qed.

(** X26: the results of a game type.  The route answers with the stored
    sessions of that game type, and of the user of the query parameter
    [userId] when the parameter is present and not empty, each one once,
    the most recently created first, each with the name and description of
    the version whose id the session carries. *)
Theorem results_route_lists_the_sessions
    (fault : Query -> option StoreError) (session_created_at : SessionRow -> nat)
    (gameType : string) (userId : option string) (s : Store) :
  match fault ListResults with
  | Some e =>
      reply (get_results_route fault session_created_at gameType userId s)
      = Refused 500 (err_message e)
  | None =>
      exists rows,
        reply (get_results_route fault session_created_at gameType userId s)
        = Answered rows /\
        Permutation (map res_session rows)
                    (filter (fun x => String.eqb (ses_game_type x) gameType
                                      && of_user userId x)
                            (test_sessions s)) /\
        newest_first session_created_at (map res_session rows) /\
        Forall (fun r => res_scoring_version r = scoring_version_of s (res_session r))
               rows
  end.
Proof.
  unfold get_results_route, serve.
  destruct (fault ListResults) as [e|]; cbn; [reflexivity|].
  eexists. split; [reflexivity|].
  rewrite map_map. cbn [res_session]. rewrite map_id.
  rewrite selected_sessions.
  split; [apply Permutation_sym, order_desc_perm|].
  split; [apply order_desc_sorted|].
  apply Forall_forall. intros r Hr. apply in_map_iff in Hr.
  destruct Hr as [x [<- _]]. reflexivity.
Qed.

Lemma get_results_route_run
    (fault : Query -> option StoreError) (session_created_at : SessionRow -> nat)
    (gameType : string) (userId : option string) (s : Store) :
  fault ListResults = None ->
  reply (get_results_route fault session_created_at gameType userId s)
  = Answered (map (fun x => {| res_session := x;
                               res_scoring_version := scoring_version_of s x |})
                  (order_desc session_created_at
                     (filter (fun x => String.eqb (ses_game_type x) gameType
                                       && of_user userId x)
                             (test_sessions s)))).
Proof.
  intros Hf. unfold get_results_route, serve. rewrite Hf. cbn.
  now rewrite selected_sessions.
Qed.

Lemma find_by_id (rows : list VersionRow) (config : VersionRow) :
  NoDup (map row_id rows) -> In config rows ->
  find (fun v => Nat.eqb (row_id v) (row_id config)) rows = Some config.
Proof.
  induction rows as [|v rows IH]; intros Hnd Hin; [destruct Hin|].
  cbn in Hnd. apply NoDup_cons_iff in Hnd. destruct Hnd as [Hfresh Hnd]. cbn.
  destruct (Nat.eqb (row_id v) (row_id config)) eqn:E.
  - apply Nat.eqb_eq in E. destruct Hin as [->|Hin]; [reflexivity|].
    elim Hfresh. rewrite E. now apply in_map.
  - destruct Hin as [->|Hin]; [now rewrite Nat.eqb_refl in E|]. now apply IH.
Qed.

(** X27: submit, then read the results.  After a submit that answered with
    success, the results of the game type, asked for that user or for all
    users, list a session with the id and the scores of the answer, and,
    version ids being unique, with the name of the version the answer
    reports. *)
Theorem submitted_session_is_listed
    (calculateScores : string -> Config -> Json -> Outcome ScoreResult)
    (now : string) (outage : StoreCall -> option string)
    (sub : SubmitRequest) (s : Store)
    (fault : Query -> option StoreError) (session_created_at : SessionRow -> nat)
    (message : string) (session_id : nat) (version_used : string)
    (scores : ScoreResult) (game_type user_id : string) (userId : option string) :
  response (submit_route calculateScores now outage sub s)
    = ok (SubmitData message session_id version_used scores) ->
  sub_game_type sub = Some game_type ->
  sub_user_id sub = Some user_id ->
  userId = None \/ userId = Some user_id ->
  NoDup (map row_id (scoring_versions s)) ->
  fault ListResults = None ->
  exists rows row description,
    reply (get_results_route fault session_created_at game_type userId
             (store (submit_route calculateScores now outage sub s)))
    = Answered rows /\
    In row rows /\
    ses_id (res_session row) = session_id /\
    ses_user_id (res_session row) = user_id /\
    ses_final_scores (res_session row) = scores /\
    res_scoring_version row = Some (version_used, description).
Proof.
  intros Hresp Hg Hu Hq Hnd Hf.
  rewrite (get_results_route_run fault session_created_at game_type userId _ Hf).
  revert Hresp.
  destruct (submit_route_run calculateScores now outage sub s)
    as [ | gt Hg' | gt uid raw config e Hg' Hu' Hr Hc Hs
       | gt uid raw config sc e Hg' Hu' Hr Hc Hs Ho
       | gt uid raw config sc e Hg' Hu' Hr Hc Hs Ho1 Ho2
       | gt uid raw config sc Hg' Hu' Hr Hc Hs Ho1 Ho2];
    cbn [response store]; try discriminate.
  intros H. inversion H; subst; clear H.
  assert (gt = game_type) by congruence. assert (uid = user_id) by congruence.
  subst gt uid.
  assert (Hin : In config (scoring_versions s)).
  { apply single_some in Hc. unfold active_versions in Hc.
    assert (Hin : In config [config]) by now left.
    rewrite <- Hc in Hin. now apply filter_In in Hin. }
  eexists. exists {| res_session := session;
                     res_scoring_version :=
                       Some (row_version_name config, row_description config) |}.
  exists (row_description config).
  split; [reflexivity|]. split; [|cbn; auto].
  apply in_map_iff. exists session. split.
  - f_equal. unfold scoring_version_of. cbn. now rewrite find_by_id.
  - apply order_desc_in. apply filter_In. split.
    + cbn. apply in_or_app. right. now left.
    + cbn. rewrite String.eqb_refl. cbn.
      destruct Hq as [-> | ->]; cbn; [reflexivity|].
      destruct (String.eqb user_id ""); [reflexivity|apply String.eqb_refl].
Qed.

Lemma submitted_session_is_listed_witness :
  let sub := {| sub_game_type := Some "memory";
                sub_user_id := Some "user-1";
                sub_raw_data := Some (JObj [("accuracy", JNum 80)]) |} in
  let h := submit_route Demo.calculateScores "2024-01-01T00:00:00.000Z"
                        Demo.no_outage sub Demo.store_ab in
  exists rows row description,
    reply (get_results_route (fun _ => None) (fun x => ses_id x) "memory"
                             (Some "user-1") (store h)) = Answered rows /\
    In row rows /\
    ses_id (res_session row) = 3%nat /\
    res_scoring_version row = Some ("V2", description).
Proof.
  cbv zeta.
  assert (Hnd : NoDup (map row_id (scoring_versions Demo.store_ab))).
  { cbn. repeat constructor; cbn; intuition discriminate. }
  destruct (@submitted_session_is_listed
              Demo.calculateScores "2024-01-01T00:00:00.000Z" Demo.no_outage
              {| sub_game_type := Some "memory";
                 sub_user_id := Some "user-1";
                 sub_raw_data := Some (JObj [("accuracy", JNum 80)]) |}
              Demo.store_ab (fun _ => None) (fun x => ses_id x)
              "Game submitted successfully" 3%nat "V2" _ "memory" "user-1"
              (Some "user-1") eq_refl eq_refl eq_refl (or_intror eq_refl) Hnd eq_refl)
    as [rows [row [description [Hrows [Hin [Hid [_ [_ Hv]]]]]]]].
  exists rows, row, description. auto.
Defined.
